(** * Gradient rules of paddle/fluid/primitive/rule/vjp/details.h

    A shallow embedding of the vector-Jacobian-product rules.  Every rule of
    the header is a template over the tensor backend; with the lazy backend a
    call to a primitive inserts one operation into the program being built and
    returns a handle on its result.  The embedding follows that reading: a
    tensor is the operation graph that defines it, a rule is a computation in
    a small monad that threads the list of operations built so far and the
    contents of the gradient slots of the caller, and a null slot pointer is
    [None]. *)

From Stdlib Require Import ZArith QArith Lqa List String Bool Lia.
From stdpp Require Import gmap.
Import ListNotations.

Local Open Scope Z_scope.

(** ** Tensors as operation graphs *)

Module Tensors.

(** phi::DataType, restricted to the members the rules can tell apart. *)
Inductive DataType : Type :=
| BOOL | INT32 | INT64 | FLOAT16 | BFLOAT16 | FLOAT32 | FLOAT64.

Definition DataType_eqb (a b : DataType) : bool :=
  match a, b with
  | BOOL, BOOL | INT32, INT32 | INT64, INT64 | FLOAT16, FLOAT16
  | BFLOAT16, BFLOAT16 | FLOAT32, FLOAT32 | FLOAT64, FLOAT64 => true
  | _, _ => false
  end.

(** The test every promoting rule writes out:
    [dtype == FLOAT16 || dtype == BFLOAT16]. *)
Definition is_reduced (t : DataType) : bool :=
  DataType_eqb t FLOAT16 || DataType_eqb t BFLOAT16.

(** Host-side scalar expressions (attributes and C++ arithmetic on them).
    They are kept symbolic; [M_SQRT2] and its relatives have no rational
    value. *)
Inductive Scalar : Type :=
| s_lit (q : Q)
| s_M_SQRT2 | s_M_2_SQRTPI | s_M_SQRT1_2
| s_add (a b : Scalar)
| s_sub (a b : Scalar)
| s_mul (a b : Scalar)
| s_div (a b : Scalar)
| s_float (a : Scalar).

Inductive UnOp : Type :=
| u_sign | u_cos | u_sin | u_neg | u_log | u_tanh | u_erf | u_exp.

Inductive BinOp : Type :=
| b_add | b_subtract | b_multiply | b_divide | b_elementwise_pow
| b_greater_than | b_less_equal | b_less_than | b_greater_equal | b_equal.

(** The primitive operations the rules call, with their attributes. *)
Inductive Prim : Type :=
| p_un (u : UnOp)
| p_bin (b : BinOp)
| p_bin_ts (b : BinOp) (s : Scalar)      (* tensor (op) scalar *)
| p_bin_st (b : BinOp) (s : Scalar)      (* scalar (op) tensor *)
| p_pow (s : Scalar)
| p_scale (s bias : Scalar) (bias_after_scale : bool)
| p_cast (t : DataType)
| p_reshape (shape : list Z)
| p_sum (axes : list Z) (t : option DataType) (keepdim : bool)
| p_full (shape : list Z) (v : Scalar) (t : DataType)
| p_expand (shape : list Z)
| p_tile (repeat_times : list Z)
| p_transpose (perm : list Z)
| p_where
| p_scatter (overwrite : bool)
| p_gather (axis : Z)
| p_gather_nd
| p_put_along_axis (axis : Z)
| p_split (sections : list Z) (axis : Z)
| p_item (i : nat).

(** A tensor handle: an input of the rule, or the result of a primitive. *)
#[warnings="-register-all"]
Inductive Tensor : Type :=
| Input (name : string) (d : list Z) (t : DataType)
| Op (p : Prim) (args : list Tensor)
| Uninit.                                (* a default-constructed Tensor() *)

(** [DDim::operator==] on two dimension lists. *)
Definition dims_eqb (a b : list Z) : bool := bool_decide (a = b).

Definition rank (d : list Z) : Z := Z.of_nat (List.length d).

(** DDim::operator[]; the model reads 0 past the rank. *)
Definition dim_at (d : list Z) (i : Z) : Z := nth (Z.to_nat i) d 0.

(** Conversion to a 32-bit [int] (two's complement wrap-around). *)
Definition to_int32 (z : Z) : Z := (z + 2 ^ 31) mod 2 ^ 32 - 2 ^ 31.

(** Conversion to a 64-bit [size_t]. *)
Definition to_size_t (z : Z) : Z := z mod 2 ^ 64.

End Tensors.
Export Tensors.

(** ** Shape arithmetic shared by the rules *)

Module Shapes.

(** Number of elements of a shape. *)
Definition numel (d : list Z) : Z := fold_right Z.mul 1 d.

(** Positions [0 .. n-1] as axis numbers. *)
Definition iota (n : nat) : list Z := map Z.of_nat (seq 0 n).

(** Two shapes are broadcast-compatible when, aligned at the trailing
    dimension, every axis pair is equal or one side is 1 (data model of the
    specification).  The shapes are walked from the trailing axis, that is on
    the reversed lists. *)
Fixpoint compatible_rev (a b : list Z) : bool :=
  match a, b with
  | x :: a', y :: b' =>
      ((x =? y) || (x =? 1) || (y =? 1)) && compatible_rev a' b'
  | _, _ => true
  end.

Definition broadcast_compatible (a b : list Z) : bool :=
  compatible_rev (rev a) (rev b).

(** Modelled from the spec: [BroadcastTwoDims] of the operators' helpers is
    not among the reviewed sources.  Right-justified padding with size-1
    axes; on an aligned pair the side that is not 1 gives the extent. *)
Fixpoint broadcast_rev (a b : list Z) : list Z :=
  match a, b with
  | x :: a', y :: b' => (if x =? 1 then y else x) :: broadcast_rev a' b'
  | [], _ => b
  | _, [] => a
  end.

Definition BroadcastTwoDims (a b : list Z) : list Z :=
  rev (broadcast_rev (rev a) (rev b)).

(** Modelled from the spec: [get_reduce_dims_from_out] lives in
    primitive/utils/utils.h, which is not among the reviewed sources; this is
    the resolver [reduce_axes(from_shape, to_shape)] of section 4.1.  The
    [bat] leading axes that only [from_shape] has are always in the result;
    an aligned axis is in the result when the extent of [to_shape] is 1 and
    the extent of [from_shape] is greater than 1. *)
Definition reduce_axes (from_shape to_shape : list Z) : list Z :=
  let bat := rank from_shape - rank to_shape in
  iota (Z.to_nat bat) ++
  List.filter (fun ax => (0 <=? ax) && (dim_at to_shape (ax - bat) =? 1)
                    && (1 <? dim_at from_shape ax))
         (map (fun i => i + bat) (iota (List.length to_shape))).

Definition get_reduce_dims_from_out (dout_dims in_dims : list Z) : list Z :=
  reduce_axes dout_dims in_dims.

(** Modelled from the spec: [get_reduce_dims(x_dims, y_dims)], also of
    utils.h: the axes that take the broadcast of the two shapes back to
    [x_dims]. *)
Definition get_reduce_dims (x_dims y_dims : list Z) : list Z :=
  get_reduce_dims_from_out (BroadcastTwoDims x_dims y_dims) x_dims.

(** Summation over a set of axes without [keepdim]: the listed axes
    disappear, the others keep their extent. *)
Fixpoint remove_axes_from (i : Z) (d axes : list Z) : list Z :=
  match d with
  | [] => []
  | x :: d' =>
      if existsb (Z.eqb i) axes then remove_axes_from (i + 1) d' axes
      else x :: remove_axes_from (i + 1) d' axes
  end.

Definition remove_axes (d axes : list Z) : list Z := remove_axes_from 0 d axes.

(** With [keepdim] the listed axes stay, with extent 1. *)
Fixpoint flatten_axes_from (i : Z) (d axes : list Z) : list Z :=
  match d with
  | [] => []
  | x :: d' =>
      (if existsb (Z.eqb i) axes then 1 else x)
        :: flatten_axes_from (i + 1) d' axes
  end.

(** Negative axes count from the end. *)
Definition normalize_axis (n ax : Z) : Z := if ax <? 0 then ax + n else ax.

(** Modelled from the spec: the shape of the result of the [sum] primitive.
    An empty axis list means "reduce all axes" (section 4.3). *)
Definition sum_dims (d axes : list Z) (keepdim : bool) : list Z :=
  let axes' := match axes with
               | [] => iota (List.length d)
               | _ => map (normalize_axis (rank d)) axes
               end in
  if keepdim then flatten_axes_from 0 d axes' else remove_axes d axes'.

(** A reshape is defined when it keeps the number of elements. *)
Definition reshape_dims (d target : list Z) : option (list Z) :=
  if numel d =? numel target then Some target else None.

(** Modelled from the spec: [get_unsqueeze_dims] of utils.h, the helper that
    "reinserts size-1 axes at the positions that were dropped when
    keepdim=false".  The result has [length origin + length axis] axes; the
    positions named in [axis] get extent 1 and the others take the extents of
    [origin] in order. *)
Fixpoint unsqueeze_from (fuel : nat) (i : Z) (origin axis : list Z) : list Z :=
  match fuel with
  | O => []
  | S fuel' =>
      if existsb (Z.eqb i) axis then 1 :: unsqueeze_from fuel' (i + 1) origin axis
      else match origin with
           | [] => []
           | x :: origin' => x :: unsqueeze_from fuel' (i + 1) origin' axis
           end
  end.

Definition get_unsqueeze_dims (origin_dims axis : list Z) : list Z :=
  unsqueeze_from (List.length origin_dims + List.length axis) 0 origin_dims axis.

(** Extents of a tiled tensor, aligned at the trailing axis. *)
Fixpoint tile_rev (d reps : list Z) : list Z :=
  match d, reps with
  | x :: d', r :: reps' => x * r :: tile_rev d' reps'
  | [], _ => reps
  | _, [] => d
  end.

Definition tile_dims (d reps : list Z) : list Z :=
  rev (tile_rev (rev d) (rev reps)).

End Shapes.
Export Shapes.

(** ** Shape and datatype of a handle *)

Module Meta.

Definition is_comparison (b : BinOp) : bool :=
  match b with
  | b_greater_than | b_less_equal | b_less_than | b_greater_equal | b_equal => true
  | _ => false
  end.

(** Modelled from the spec: the shape inference of the primitives, which the
    backend (primitive/primitive.h) owns.  Elementwise operations broadcast,
    [reshape], [full] and [expand] take the shape they are given, [sum]
    follows [sum_dims], the index operations keep the shape of their first
    operand.  The rules only ever inspect the shapes of inputs, of
    elementwise results, of [full], [reshape], [sum] and [scatter]. *)
Fixpoint dims_of (x : Tensor) : list Z :=
  match x with
  | Input _ d _ => d
  | Op p args =>
      match p, args with
      | p_bin _, [a; b] => BroadcastTwoDims (dims_of a) (dims_of b)
      | p_reshape shape, _ => shape
      | p_full shape _ _, _ => shape
      | p_expand shape, _ => shape
      | p_sum axes _ keepdim, [a] => sum_dims (dims_of a) axes keepdim
      | p_tile reps, [a] => tile_dims (dims_of a) reps
      | p_transpose perm, [a] =>
          map (fun p => dim_at (dims_of a)
                          (normalize_axis (rank (dims_of a)) p)) perm
      | p_where, [_; a; _] => dims_of a
      | _, a :: _ => dims_of a
      | _, [] => []
      end
  | Uninit => []
  end.

(** Modelled from the spec: the datatype of a result.  [cast], [full] and a
    [sum] with an explicit datatype produce that datatype, comparisons
    produce booleans, everything else keeps the datatype of its first tensor
    operand ([where]: of the selected values). *)
Fixpoint dtype_of (x : Tensor) : DataType :=
  match x with
  | Input _ _ t => t
  | Op p args =>
      match p, args with
      | p_cast t, _ => t
      | p_full _ _ t, _ => t
      | p_sum _ (Some t) _, _ => t
      | p_bin b, a :: _ => if is_comparison b then BOOL else dtype_of a
      | p_where, [_; a; _] => dtype_of a
      | _, a :: _ => dtype_of a
      | _, [] => FLOAT32
      end
  | Uninit => FLOAT32
  end.

End Meta.
Export Meta.

(** ** The monad of rule bodies *)

Module Rule.

(** A slot pointer [Tensor*]: [None] is [nullptr], [Some a] the address of a
    gradient slot of the caller. *)
Definition Ptr : Type := option nat.

Definition non_null (p : Ptr) : bool :=
  match p with Some _ => true | None => false end.

(** What a rule can change: the contents of the caller's slots, and the list
    of operations it has asked the backend to build, oldest first. *)
Record State : Type := mkState {
  store : gmap nat Tensor;
  built : list Tensor
}.

(** Undefined behaviour a rule can run into. *)
Inductive Fault : Type :=
| NullDeref      (* a store through a null slot pointer *)
| OutOfRange.    (* std::vector::operator[] past the end *)

(** The outcome of a run: [Done], or [Failed f st] when the run reached the
    undefined behaviour [f] with the slots and operations [st].  The source
    neither checks nor stops there; [Failed] ends what the model says about
    the run, not the run. *)
Inductive Result (A : Type) : Type :=
| Done (a : A) (st : State)
| Failed (f : Fault) (st : State).
Arguments Done {A} a st.
Arguments Failed {A} f st.

Definition M (A : Type) : Type := State -> Result A.

Definition ret {A} (a : A) : M A := fun st => Done a st.

Definition bind {A B} (m : M A) (k : A -> M B) : M B :=
  fun st => match m st with
            | Done a st' => k a st'
            | Failed f st' => Failed f st'
            end.

Definition fail {A} (f : Fault) : M A := fun st => Failed f st.

Declare Scope rule_scope.
Delimit Scope rule_scope with rule.
Notation "x <- c ;; k" := (bind c (fun x => k))
  (at level 100, c at next level, right associativity) : rule_scope.
Notation "c ;;; k" := (bind c (fun _ => k))
  (at level 100, right associativity) : rule_scope.
Local Open Scope rule_scope.

(** One call of a primitive: the operation is added to the program and its
    result handed back. *)
Definition prim (p : Prim) (args : list Tensor) : M Tensor :=
  fun st => Done (Op p args) (mkState (store st) (built st ++ [Op p args])).

(** Modelled from the spec: [set_output] of utils.h stores the tensor through
    the slot pointer ("present slots must be populated", section 6).  It
    dereferences the pointer, so a null pointer is a fault. *)
Definition set_output (x : Tensor) (p : Ptr) : M unit :=
  fun st => match p with
            | Some a => Done tt (mkState (<[a := x]> (store st)) (built st))
            | None => Failed NullDeref st
            end.

(** Modelled from the spec: [by_pass] of utils.h "copies out_grad verbatim"
    into the slot (section 4.3). *)
Definition by_pass (x : Tensor) (p : Ptr) : M unit := set_output x p.

(** [if (p) { body }]. *)
Definition when (c : bool) (body : M unit) : M unit :=
  if c then body else ret tt.

(** The slots and the operations after running a rule from [st]. *)
Definition final {A} (r : Result A) : State :=
  match r with Done _ st => st | Failed _ st => st end.

Definition fault_of {A} (r : Result A) : option Fault :=
  match r with Done _ _ => None | Failed f _ => Some f end.

(** The primitives, under the names the rules call them by. *)
Definition unary (u : UnOp) (x : Tensor) : M Tensor := prim (p_un u) [x].
Definition binary (b : BinOp) (x y : Tensor) : M Tensor := prim (p_bin b) [x; y].
Definition binary_ts (b : BinOp) (x : Tensor) (s : Scalar) : M Tensor :=
  prim (p_bin_ts b s) [x].
Definition binary_st (b : BinOp) (s : Scalar) (x : Tensor) : M Tensor :=
  prim (p_bin_st b s) [x].

Definition sign := unary u_sign.
Definition cos := unary u_cos.
Definition sin := unary u_sin.
Definition neg := unary u_neg.
Definition log := unary u_log.
Definition tanh := unary u_tanh.
Definition erf := unary u_erf.
Definition exp := unary u_exp.
Definition add := binary b_add.
Definition subtract := binary b_subtract.
Definition multiply := binary b_multiply.
Definition divide := binary b_divide.
Definition elementwise_pow := binary b_elementwise_pow.
Definition greater_than := binary b_greater_than.
Definition less_equal := binary b_less_equal.
Definition less_than := binary b_less_than.
Definition greater_equal := binary b_greater_equal.
Definition equal := binary b_equal.
Definition pow (x : Tensor) (s : Scalar) : M Tensor := prim (p_pow s) [x].
Definition scale (x : Tensor) (s bias : Scalar) (bias_after_scale : bool)
  : M Tensor := prim (p_scale s bias bias_after_scale) [x].
Definition cast (x : Tensor) (t : DataType) : M Tensor := prim (p_cast t) [x].
Definition reshape (x : Tensor) (shape : list Z) : M Tensor :=
  prim (p_reshape shape) [x].
Definition sum (x : Tensor) (axes : list Z) (t : option DataType)
  (keepdim : bool) : M Tensor := prim (p_sum axes t keepdim) [x].
Definition full (shape : list Z) (v : Scalar) (t : DataType) : M Tensor :=
  prim (p_full shape v t) [].
Definition expand (x : Tensor) (shape : list Z) : M Tensor :=
  prim (p_expand shape) [x].
Definition tile (x : Tensor) (reps : list Z) : M Tensor :=
  prim (p_tile reps) [x].
Definition transpose (x : Tensor) (perm : list Z) : M Tensor :=
  prim (p_transpose perm) [x].
Definition where_ (c x y : Tensor) : M Tensor := prim p_where [c; x; y].
Definition scatter (x index updates : Tensor) (overwrite : bool) : M Tensor :=
  prim (p_scatter overwrite) [x; index; updates].
Definition gather (x index : Tensor) (axis : Z) : M Tensor :=
  prim (p_gather axis) [x; index].
Definition gather_nd (x index : Tensor) : M Tensor :=
  prim p_gather_nd [x; index].
Definition put_along_axis (x indices values : Tensor) (axis : Z) : M Tensor :=
  prim (p_put_along_axis axis) [x; indices; values].
(** [split] is one operation with several results. *)
Definition split (x : Tensor) (sections : list Z) (axis : Z) : M (list Tensor) :=
  s <- prim (p_split sections axis) [x] ;;
  ret (map (fun i => Op (p_item i) [s]) (seq 0 (List.length sections))).

(** The default scalars of [scale(x, scale = 1.0, bias = 0.0,
    bias_after_scale = true)]. *)
Definition one : Scalar := s_lit 1.
Definition zero : Scalar := s_lit 0.

End Rule.
Export Rule.

(** ** The rules *)

Module details.

Local Open Scope rule_scope.

(** *** Unary rules *)

Definition abs_grad (x out_grad : Tensor) (x_grad : Ptr) : M unit :=
  when (non_null x_grad) (
    sign_tmp <- sign x ;;
    r <- multiply out_grad sign_tmp ;;
    set_output r x_grad).

Definition assign_grad (out_grad : Tensor) (x_grad : Ptr) : M unit :=
  when (non_null x_grad) (by_pass out_grad x_grad).

Definition floor_grad (out_grad : Tensor) (x_grad : Ptr) : M unit :=
  when (non_null x_grad) (
    zero_tensor <- full (dims_of out_grad) (s_lit 0) (dtype_of out_grad) ;;
    set_output zero_tensor x_grad).

(** [sin_grad] and [cos_grad] have no test of the slot pointer. *)
Definition sin_grad (x out_grad : Tensor) (x_grad : Ptr) : M unit :=
  c <- cos x ;;
  x_grad_tmp <- multiply c out_grad ;;
  set_output x_grad_tmp x_grad.

Definition cos_grad (x out_grad : Tensor) (x_grad : Ptr) : M unit :=
  s <- sin x ;;
  n <- neg s ;;
  x_grad_tmp <- multiply n out_grad ;;
  set_output x_grad_tmp x_grad.

Definition tanh_grad (out grad_out : Tensor) (grad_x : Ptr) : M unit :=
  if negb (non_null grad_x) then ret tt
  else
    sq <- multiply out out ;;
    d <- binary_st b_subtract (s_lit 1) sq ;;
    grad_x_tmp <- multiply grad_out d ;;
    set_output grad_x_tmp grad_x.

Definition log_grad (x out_grad : Tensor) (x_grad : Ptr) : M unit :=
  when (non_null x_grad) (
    r <- divide out_grad x ;;
    set_output r x_grad).

Definition sqrt_grad (out out_grad : Tensor) (x_grad : Ptr) : M unit :=
  when (non_null x_grad) (
    h <- binary_st b_divide (s_lit 0.5) out ;;
    x_grad_tmp <- multiply h out_grad ;;
    set_output x_grad_tmp x_grad).

Definition sigmoid_grad (out out_grad : Tensor) (x_grad : Ptr) : M unit :=
  when (non_null x_grad) (
    d <- binary_st b_subtract (s_lit 1) out ;;
    m <- multiply out d ;;
    r <- multiply out_grad m ;;
    set_output r x_grad).

Definition cast_grad (x out_grad : Tensor) (x_grad : Ptr) : M unit :=
  when (non_null x_grad) (
    res <- cast out_grad (dtype_of x) ;;
    set_output res x_grad).

Definition exp_grad (out out_grad : Tensor) (x_grad : Ptr) : M unit :=
  when (non_null x_grad) (
    if is_reduced (dtype_of out) then
      out_promote <- cast out FLOAT32 ;;
      out_grad_promote <- cast out_grad FLOAT32 ;;
      m <- multiply out_promote out_grad_promote ;;
      r <- cast m (dtype_of out) ;;
      set_output r x_grad
    else
      r <- multiply out_grad out ;;
      set_output r x_grad).

Definition silu_grad (x out out_grad : Tensor) (x_grad : Ptr) : M unit :=
  when (non_null x_grad) (
    let org_dtype := dtype_of x in
    let need_cast := is_reduced org_dtype in
    if need_cast then
      x_cast <- cast x FLOAT32 ;;
      out_cast <- cast out FLOAT32 ;;
      out_grad_cast <- cast out_grad FLOAT32 ;;
      nx <- neg x_cast ;;
      e <- exp nx ;;
      d <- binary_st b_add (s_lit 1) e ;;
      sigmoid <- binary_st b_divide (s_lit 1) d ;;
      gs <- multiply out_grad_cast sigmoid ;;
      a <- binary_st b_add (s_lit 1) x_cast ;;
      b <- subtract a out_cast ;;
      res <- multiply gs b ;;
      r <- cast res org_dtype ;;
      set_output r x_grad
    else
      nx <- neg x ;;
      e <- exp nx ;;
      d <- binary_st b_add (s_lit 1) e ;;
      sigmoid <- binary_st b_divide (s_lit 1) d ;;
      gs <- multiply out_grad sigmoid ;;
      a <- binary_st b_add (s_lit 1) x ;;
      b <- subtract a out ;;
      res <- multiply gs b ;;
      set_output res x_grad).

(** The tanh branch of [gelu_grad], shared by both precisions; [kbeta] and
    [kkappa] are [float] in the promoted branch and [double] in the other. *)
Definition gelu_tanh_part (x : Tensor) (kbeta kkappa : Scalar) : M Tensor :=
  x_sq <- multiply x x ;;
  x_cube <- multiply x_sq x ;;
  kx <- binary_st b_multiply kkappa x_cube ;;
  s <- add x kx ;;
  inner <- binary_st b_multiply kbeta s ;;
  tanh_inner <- tanh inner ;;
  left <- scale x (s_lit 0.5) zero true ;;
  right <- scale tanh_inner one one true ;;
  left_derivative <- scale right (s_lit 0.5) zero true ;;
  t2 <- multiply tanh_inner tanh_inner ;;
  tanh_derivative <- scale t2 (s_lit (-1)) one true ;;
  k3 <- binary_st b_multiply (s_mul (s_lit 3) kkappa) x_sq ;;
  sc <- scale k3 one one true ;;
  inner_derivative <- binary_st b_multiply kbeta sc ;;
  lt <- multiply left tanh_derivative ;;
  right_derivative <- multiply lt inner_derivative ;;
  add left_derivative right_derivative.

Definition gelu_erf_part (x : Tensor) (kalpha kbeta : Scalar) : M Tensor :=
  ax <- binary_st b_multiply kalpha x ;;
  e <- erf ax ;;
  s1 <- scale e one one true ;;
  cdf <- scale s1 (s_lit 0.5) zero true ;;
  xx <- multiply x x ;;
  s2 <- scale xx (s_lit (-0.5)) zero true ;;
  ex <- exp s2 ;;
  pdf <- binary_st b_multiply kbeta ex ;;
  xp <- multiply x pdf ;;
  add cdf xp.

Definition gelu_grad (x out_grad : Tensor) (approximate : bool) (x_grad : Ptr)
  : M unit :=
  if negb (non_null x_grad) then ret tt
  else if is_reduced (dtype_of x) then
    promoted_x <- cast x FLOAT32 ;;
    promoted_out_grad <- cast out_grad FLOAT32 ;;
    if approximate then
      let kbeta := s_float (s_mul (s_mul s_M_SQRT2 s_M_2_SQRTPI) (s_lit 0.5)) in
      let kkappa := s_float (s_lit 0.044715) in
      d <- gelu_tanh_part promoted_x kbeta kkappa ;;
      m <- multiply promoted_out_grad d ;;
      r <- cast m (dtype_of x) ;;
      set_output r x_grad
    else
      let kalpha := s_float s_M_SQRT1_2 in
      let kbeta := s_float (s_mul (s_mul s_M_2_SQRTPI s_M_SQRT1_2) (s_lit 0.5)) in
      d <- gelu_erf_part promoted_x kalpha kbeta ;;
      m <- multiply promoted_out_grad d ;;
      r <- cast m (dtype_of x) ;;
      set_output r x_grad
  else
    if approximate then
      let kBeta := s_mul (s_mul s_M_SQRT2 s_M_2_SQRTPI) (s_lit 0.5) in
      let kKappa := s_lit 0.044715 in
      d <- gelu_tanh_part x kBeta kKappa ;;
      m <- multiply out_grad d ;;
      set_output m x_grad
    else
      let kAlpha := s_M_SQRT1_2 in
      let kBeta := s_mul (s_mul s_M_2_SQRTPI s_M_SQRT1_2) (s_lit 0.5) in
      d <- gelu_erf_part x kAlpha kBeta ;;
      m <- multiply out_grad d ;;
      set_output m x_grad.

(** [p] is the value of [p.to<float>()]. *)
Definition dropout_grad (mask out_grad : Tensor) (p : Q) (is_test : bool)
  (mode : string) (x_grad : Ptr) : M unit :=
  if negb (non_null x_grad) then ret tt
  else if is_test then
    if String.eqb mode "upscale_in_train" then by_pass out_grad x_grad
    else
      r <- binary_ts b_multiply out_grad (s_sub (s_lit 1) (s_lit p)) ;;
      set_output r x_grad
  else
    if String.eqb mode "upscale_in_train" then
      if Qeq_bool p 1 then
        r <- scale out_grad (s_lit 0) zero true ;;
        set_output r x_grad
      else
        m <- cast mask (dtype_of out_grad) ;;
        g <- multiply out_grad m ;;
        r <- scale g (s_div (s_lit 1) (s_sub (s_lit 1) (s_lit p))) zero true ;;
        set_output r x_grad
    else
      m <- cast mask (dtype_of out_grad) ;;
      r <- multiply out_grad m ;;
      set_output r x_grad.

Definition topk_grad (x indices out_grad : Tensor) (k : Scalar) (axis : Z)
  (largest sorted : bool) (x_grad : Ptr) : M unit :=
  when (non_null x_grad) (
    if rank (dims_of x) =? 0 then by_pass out_grad x_grad
    else
      zero_tensor <- full (dims_of x) (s_lit 0) (dtype_of x) ;;
      x_grad_tmp <- put_along_axis zero_tensor indices out_grad axis ;;
      set_output x_grad_tmp x_grad).

(** *** Elementwise binary rules *)

Definition divide_grad (x y out out_grad : Tensor) (axis : Z) (dx dy : Ptr)
  : M unit :=
  when (non_null dy) (
    y2 <- pow y (s_lit 2) ;;
    q <- divide x y2 ;;
    n <- neg q ;;
    dy_res <- multiply n out_grad ;;
    if negb (dims_eqb (dims_of x) (dims_of y)) then
      let reduce_dim := get_reduce_dims (dims_of y) (dims_of x) in
      if (List.length reduce_dim =? 0)%nat then set_output dy_res dy
      else
        dy_reduce_res <- sum dy_res reduce_dim (Some (dtype_of y)) false ;;
        dy_tmp <- reshape dy_reduce_res (dims_of y) ;;
        set_output dy_tmp dy
    else set_output dy_res dy) ;;;
  when (non_null dx) (
    one_tensor <- full (dims_of y) (s_lit 1) (dtype_of y) ;;
    q <- divide one_tensor y ;;
    dx_res <- multiply q out_grad ;;
    if negb (dims_eqb (dims_of y) (dims_of x)) then
      let reduce_dim := get_reduce_dims (dims_of x) (dims_of y) in
      if (List.length reduce_dim =? 0)%nat then set_output dx_res dx
      else
        dx_reduce_res <- sum dx_res reduce_dim (Some (dtype_of x)) false ;;
        dx_tmp <- reshape dx_reduce_res (dims_of x) ;;
        set_output dx_tmp dx
    else set_output dx_res dx).

Definition add_grad (x y out_grad : Tensor) (axis : Z) (dx dy : Ptr) : M unit :=
  when (non_null dy) (
    if negb (dims_eqb (dims_of x) (dims_of y)) then
      let reduce_dim := get_reduce_dims (dims_of y) (dims_of x) in
      if (List.length reduce_dim =? 0)%nat then by_pass out_grad dy
      else
        dy_reduce_res <- sum out_grad reduce_dim (Some (dtype_of y)) false ;;
        dy_tmp <- reshape dy_reduce_res (dims_of y) ;;
        set_output dy_tmp dy
    else by_pass out_grad dy) ;;;
  when (non_null dx) (
    if negb (dims_eqb (dims_of y) (dims_of x)) then
      let reduce_dim := get_reduce_dims (dims_of x) (dims_of y) in
      if (List.length reduce_dim =? 0)%nat then by_pass out_grad dx
      else
        dx_reduce_res <- sum out_grad reduce_dim (Some (dtype_of x)) false ;;
        dx_tmp <- reshape dx_reduce_res (dims_of x) ;;
        set_output dx_tmp dx
    else by_pass out_grad dx).

Definition subtract_grad (x y out_grad : Tensor) (axis : Z) (dx dy : Ptr)
  : M unit :=
  when (non_null dy) (
    scale_out_grad <- scale out_grad (s_lit (-1)) (s_lit 0) true ;;
    if negb (dims_eqb (dims_of x) (dims_of y)) then
      let reduce_dim := get_reduce_dims (dims_of y) (dims_of x) in
      if (List.length reduce_dim =? 0)%nat then by_pass scale_out_grad dy
      else
        dy_reduce_res <- sum scale_out_grad reduce_dim (Some (dtype_of y)) false ;;
        dy_tmp <- reshape dy_reduce_res (dims_of y) ;;
        set_output dy_tmp dy
    else by_pass scale_out_grad dy) ;;;
  when (non_null dx) (
    if negb (dims_eqb (dims_of y) (dims_of x)) then
      let reduce_dim := get_reduce_dims (dims_of x) (dims_of y) in
      if (List.length reduce_dim =? 0)%nat then by_pass out_grad dx
      else
        dx_reduce_res <- sum out_grad reduce_dim (Some (dtype_of x)) false ;;
        dx_tmp <- reshape dx_reduce_res (dims_of x) ;;
        set_output dx_tmp dx
    else by_pass out_grad dx).

Definition multiply_grad (x y out_grad : Tensor) (axis : Z) (x_grad y_grad : Ptr)
  : M unit :=
  when (non_null x_grad) (
    x_grad_unreduce <- multiply out_grad y ;;
    if negb (dims_eqb (dims_of x_grad_unreduce) (dims_of x)) then
      let axes :=
        get_reduce_dims_from_out (dims_of x_grad_unreduce) (dims_of x) in
      if (List.length axes =? 0)%nat then set_output x_grad_unreduce x_grad
      else
        x_grad_reduced <-
          sum x_grad_unreduce axes (Some (dtype_of x_grad_unreduce)) false ;;
        x_grad_reduced <-
          (if negb (rank (dims_of x_grad_reduced) =? rank (dims_of x))
           then reshape x_grad_reduced (dims_of x)
           else ret x_grad_reduced) ;;
        set_output x_grad_reduced x_grad
    else set_output x_grad_unreduce x_grad) ;;;
  when (non_null y_grad) (
    y_grad_unreduce <- multiply out_grad x ;;
    if negb (dims_eqb (dims_of y_grad_unreduce) (dims_of y)) then
      let axes :=
        get_reduce_dims_from_out (dims_of y_grad_unreduce) (dims_of y) in
      if (List.length axes =? 0)%nat then set_output y_grad_unreduce y_grad
      else
        y_grad_reduced <-
          sum y_grad_unreduce axes (Some (dtype_of y_grad_unreduce)) false ;;
        y_grad_reduced <-
          (if negb (rank (dims_of y_grad_reduced) =? rank (dims_of y))
           then reshape y_grad_reduced (dims_of y)
           else ret y_grad_reduced) ;;
        set_output y_grad_reduced y_grad
    else set_output y_grad_unreduce y_grad).

Definition elementwise_pow_grad (x y out_grad : Tensor) (dx dy : Ptr) : M unit :=
  when (non_null dy) (
    lnx <- log x ;;
    x_pow_y <- elementwise_pow x y ;;
    m <- multiply lnx x_pow_y ;;
    dy_res <- multiply m out_grad ;;
    if negb (dims_eqb (dims_of x) (dims_of y)) then
      let reduce_dim := get_reduce_dims (dims_of y) (dims_of x) in
      if (List.length reduce_dim =? 0)%nat then set_output dy_res dy
      else
        dy_reduce_res <- sum dy_res reduce_dim (Some (dtype_of y)) false ;;
        dy_tmp <- reshape dy_reduce_res (dims_of y) ;;
        set_output dy_tmp dy
    else set_output dy_res dy) ;;;
  when (non_null dx) (
    tmp_z <- binary_ts b_subtract y (s_lit 1) ;;
    x_pow_z <- elementwise_pow x tmp_z ;;
    m <- multiply y x_pow_z ;;
    dx_res <- multiply m out_grad ;;
    if negb (dims_eqb (dims_of y) (dims_of x)) then
      let reduce_dim := get_reduce_dims (dims_of x) (dims_of y) in
      if (List.length reduce_dim =? 0)%nat then set_output dx_res dx
      else
        dx_reduce_res <- sum dx_res reduce_dim (Some (dtype_of x)) false ;;
        dx_tmp <- reshape dx_reduce_res (dims_of x) ;;
        set_output dx_tmp dx
    else set_output dx_res dx).

(** The unreduced gradients of [maximum_grad] and [minimum_grad]:
    [out_grad * cast(compare(x, y), out_grad.dtype())]. *)
Definition masked_grad (cmp : BinOp) (x y out_grad : Tensor) : M Tensor :=
  c <- binary cmp x y ;;
  tmp <- cast c (dtype_of out_grad) ;;
  multiply out_grad tmp.

(** The tail both rules share on either side: reduce [res] to the shape of
    [self] when the two operands differ in shape. *)
Definition reduce_to (self other res : Tensor) (slot : Ptr) : M unit :=
  if negb (dims_eqb (dims_of other) (dims_of self)) then
    let reduce_dim := get_reduce_dims (dims_of self) (dims_of other) in
    if (List.length reduce_dim =? 0)%nat then set_output res slot
    else
      reduce_res <- sum res reduce_dim (Some (dtype_of self)) false ;;
      tmp <- reshape reduce_res (dims_of self) ;;
      set_output tmp slot
  else set_output res slot.

Definition maximum_grad (x y out_grad : Tensor) (x_grad y_grad : Ptr) : M unit :=
  when (non_null x_grad) (
    dx_res <- masked_grad b_greater_than x y out_grad ;;
    reduce_to x y dx_res x_grad) ;;;
  when (non_null y_grad) (
    dy_res <- masked_grad b_less_equal x y out_grad ;;
    reduce_to y x dy_res y_grad).

Definition minimum_grad (x y out_grad : Tensor) (x_grad y_grad : Ptr) : M unit :=
  when (non_null x_grad) (
    dx_res <- masked_grad b_less_than x y out_grad ;;
    reduce_to x y dx_res x_grad) ;;;
  when (non_null y_grad) (
    dy_res <- masked_grad b_greater_equal x y out_grad ;;
    reduce_to y x dy_res y_grad).

(** *** Index rules *)

Definition scatter_grad (index updates out_grad : Tensor) (overwrite : bool)
  (x_grad updates_grad : Ptr) : M unit :=
  when (non_null x_grad) (
    zero_tensor <- full (dims_of updates) (s_lit 0) (dtype_of updates) ;;
    tmp_grad <- scatter out_grad index zero_tensor false ;;
    set_output tmp_grad x_grad) ;;;
  when (non_null updates_grad) (
    tmp_updates_grad <- gather out_grad index 0 ;;
    set_output tmp_updates_grad updates_grad).

Definition scatter_nd_add_grad (index updates out_grad : Tensor)
  (x_grad updates_grad : Ptr) : M unit :=
  when (non_null x_grad) (by_pass out_grad x_grad) ;;;
  when (non_null updates_grad) (
    tmp_updates_grad <- gather_nd out_grad index ;;
    set_output tmp_updates_grad updates_grad).

(** The loop "make origin ranks" of [transpose_grad] and [gather_grad]:
<<
    std::vector<int> reverse_perm(perm);
    for (int i = 0; i < static_cast<int>(perm.size()); ++i) {
      if (perm[i] >= 0) reverse_perm[perm[i]] = i;
      else reverse_perm[perm[i] + perm.size()] = i;
    }
>>
    In [perm[i] + perm.size()] the [int] is converted to [size_t], so the sum
    is taken modulo 2^64.  A store past the end of the vector is undefined
    behaviour, [None] here.  The source has no check and no exit at that
    store: [None], and [Failed OutOfRange] in the rules that run the loop,
    mark that the run has left the behaviour C++ defines, and the model does
    not follow the rule past that point. *)
Definition origin_rank (perm : list Z) (i : nat) : Z :=
  let p := nth i perm 0 in
  if 0 <=? p then p else to_size_t (p + Z.of_nat (List.length perm)).

Fixpoint reverse_perm_loop (perm : list Z) (idx : list nat)
  (reverse_perm : list Z) : option (list Z) :=
  match idx with
  | [] => Some reverse_perm
  | i :: idx' =>
      let k := origin_rank perm i in
      if k <? Z.of_nat (List.length reverse_perm) then
        reverse_perm_loop perm idx'
          (<[Z.to_nat k := Z.of_nat i]> reverse_perm)
      else None
  end.

Definition make_reverse_perm (perm : list Z) : option (list Z) :=
  let n := to_int32 (Z.of_nat (List.length perm)) in
  reverse_perm_loop perm (seq 0 (Z.to_nat n)) perm.

Definition transpose_grad (grad_out : Tensor) (perm : list Z) (grad_x : Ptr)
  : M unit :=
  when (non_null grad_x) (
    match make_reverse_perm perm with
    | None => fail OutOfRange
    | Some reverse_perm =>
        grad_x_tmp <- transpose grad_out reverse_perm ;;
        set_output grad_x_tmp grad_x
    end).

(** [gather_grad] has no test of the slot pointer either. *)
Definition gather_grad (x index out_grad : Tensor) (axis : Z) (grad_x : Ptr)
  : M unit :=
  zero_tensor <- full (dims_of x) (s_lit 0) (dtype_of x) ;;
  let axis_value := axis in
  let tmp_perm :=
    axis_value ::
    List.filter (fun i => negb (i =? axis_value))
           (iota (Z.to_nat (rank (dims_of x)))) in
  match make_reverse_perm tmp_perm with
  | None => fail OutOfRange
  | Some reverse_perm =>
      tmp_zero_x_grad <-
        (if 0 <? rank (dims_of zero_tensor)
         then transpose zero_tensor tmp_perm else ret zero_tensor) ;;
      tmp_out_grad <-
        (if 0 <? rank (dims_of out_grad)
         then transpose out_grad tmp_perm else ret out_grad) ;;
      tmp_grad_x <- scatter tmp_zero_x_grad index tmp_out_grad false ;;
      tmp_grad_x_tranposed <-
        (if 0 <? rank (dims_of tmp_grad_x)
         then transpose tmp_grad_x reverse_perm else ret tmp_grad_x) ;;
      set_output tmp_grad_x_tranposed grad_x
  end.

(** The loop at the end of [concat_grad]: [x_grad[i]] is read unchecked,
    [x_grad_tmp.at(i)] is checked. *)
Fixpoint concat_outputs (i : nat) (n : nat) (x_grad_tmp : list Tensor)
  (x_grad : list Ptr) : M unit :=
  match n with
  | O => ret tt
  | S n' =>
      match nth_error x_grad i with
      | None => fail OutOfRange
      | Some p =>
          when (non_null p) (
            match nth_error x_grad_tmp i with
            | None => fail OutOfRange
            | Some t => set_output t p
            end) ;;;
          concat_outputs (S i) n' x_grad_tmp x_grad
      end
  end.

Definition concat_grad (x : list Tensor) (out_grad : Tensor) (axis : Z)
  (x_grad : list Ptr) : M unit :=
  match x with
  | [] => fail OutOfRange
  | x0 :: _ =>
      let axis_value := axis in
      let rank := to_int32 (rank (dims_of x0)) in
      let axis_value :=
        if axis_value <? 0 then axis_value + rank else axis_value in
      let axis_value := if 0 <? axis_value then axis_value else 0 in
      let sections :=
        map (fun xi => to_int32 (dim_at (dims_of xi) axis_value)) x in
      let x_num := List.length x in
      x_grad_tmp <- split out_grad sections axis_value ;;
      concat_outputs 0 x_num x_grad_tmp x_grad
  end.

(** *** Normalization rules *)

(** [shape *= x_dims[i]] on an [int] accumulator. *)
Definition int_product (d : list Z) (lo hi : Z) : Z :=
  fold_left (fun acc i => to_int32 (acc * dim_at d i))
            (map (fun k => lo + k) (iota (Z.to_nat (hi - lo)))) 1.

Definition layer_norm_grad (x : Tensor) (scale bias : option Tensor)
  (mean variance out_grad : Tensor) (epsilon : Scalar) (begin_norm_axis : Z)
  (x_grad scale_grad bias_grad : Ptr) : M unit :=
  let x_dims := dims_of x in
  let shape_1 := int_product x_dims 0 begin_norm_axis in
  let shape_2 := int_product x_dims begin_norm_axis (rank x_dims) in
  let scale_ptr := scale in
  let bias_ptr := bias in
  x_cast <- reshape x [shape_1; shape_2] ;;
  out_grad_cast <- reshape out_grad [shape_1; shape_2] ;;
  mean_ <- reshape mean [shape_1; 1] ;;
  variance_ <- reshape variance [shape_1; 1] ;;
  scale_cast <-
    match scale_ptr with
    | Some s => reshape s [1; shape_2]
    | None => ret Uninit
    end ;;
  casted <-
    (if is_reduced (dtype_of x) then
       x_cast <- cast x_cast FLOAT32 ;;
       out_grad_cast <- cast out_grad_cast FLOAT32 ;;
       scale_cast <-
         match scale_ptr with
         | Some _ => cast scale_cast FLOAT32
         | None => ret scale_cast
         end ;;
       ret (x_cast, out_grad_cast, scale_cast)
     else ret (x_cast, out_grad_cast, scale_cast)) ;;
  let '(x_cast, out_grad_cast, scale_cast) := casted in
  x_sub_mean <- subtract x_cast mean_ ;;
  ve <- binary_ts b_add variance_ epsilon ;;
  tmp <- binary_st b_divide (s_lit 1) ve ;;
  half <- full (dims_of tmp) (s_lit 0.5) (dtype_of tmp) ;;
  sqrt_var_1 <- elementwise_pow tmp half ;;
  x_sub_mean_mul_sqrt_var_1 <- multiply x_sub_mean sqrt_var_1 ;;
  when (non_null x_grad) (
    out_grad_scale <-
      match scale_ptr with
      | Some _ => multiply out_grad_cast scale_cast
      | None => ret out_grad_cast
      end ;;
    dx_end <- multiply sqrt_var_1 out_grad_scale ;;
    d_mean <- sum dx_end [1] (Some (dtype_of x_cast)) true ;;
    t1 <- multiply tmp x_sub_mean ;;
    t2 <- multiply t1 out_grad_scale ;;
    d_std_1 <- sum t2 [1] (Some (dtype_of x_cast)) true ;;
    d_std <- multiply d_std_1 x_sub_mean_mul_sqrt_var_1 ;;
    ms <- add d_mean d_std ;;
    d_mean_d_std <-
      binary_st b_multiply
        (s_div (s_lit 1) (s_lit (inject_Z shape_2))) ms ;;
    x_grad_tmp <- subtract dx_end d_mean_d_std ;;
    x_grad_tmp <- reshape x_grad_tmp (dims_of x) ;;
    x_grad_tmp <-
      (if is_reduced (dtype_of x) then cast x_grad_tmp (dtype_of x)
       else ret x_grad_tmp) ;;
    set_output x_grad_tmp x_grad) ;;;
  when (non_null scale_grad) (
    match scale_ptr with
    | Some s =>
        m <- multiply x_sub_mean_mul_sqrt_var_1 out_grad_cast ;;
        scale_grad_tmp <- sum m [0] (Some (dtype_of x_cast)) true ;;
        scale_grad_tmp <- reshape scale_grad_tmp (dims_of s) ;;
        scale_grad_tmp <-
          (if is_reduced (dtype_of s) then cast scale_grad_tmp (dtype_of s)
           else ret scale_grad_tmp) ;;
        set_output scale_grad_tmp scale_grad
    | None => ret tt          (* scale_grad = nullptr; *)
    end) ;;;
  when (non_null bias_grad) (
    match bias_ptr with
    | Some b =>
        bias_grad_tmp <- sum out_grad_cast [0] (Some (dtype_of x_cast)) true ;;
        bias_grad_tmp <- reshape bias_grad_tmp (dims_of b) ;;
        bias_grad_tmp <-
          (if is_reduced (dtype_of b) then cast bias_grad_tmp (dtype_of b)
           else ret bias_grad_tmp) ;;
        set_output bias_grad_tmp bias_grad
    | None => ret tt          (* bias_grad = nullptr; *)
    end).

Definition instance_norm_grad (x : Tensor) (scale : option Tensor)
  (saved_mean saved_variance y_grad : Tensor) (epsilon : Scalar)
  (x_grad scale_grad bias_grad : Ptr) : M unit :=
  let n := to_int32 (dim_at (dims_of x) 0) in
  let c := to_int32 (dim_at (dims_of x) 1) in
  let h := to_int32 (dim_at (dims_of x) 2) in
  let w := to_int32 (dim_at (dims_of x) 3) in
  let hw := s_lit (inject_Z (to_int32 (h * w))) in
  promoted_y_grad <-
    (if is_reduced (dtype_of x) then cast y_grad FLOAT32 else ret y_grad) ;;
  hat <-
    (if non_null scale_grad || non_null x_grad then
       promoted <-
         (if is_reduced (dtype_of x) then
            promoted_x <- cast x FLOAT32 ;;
            promoted_saved_mean <- cast saved_mean FLOAT32 ;;
            promoted_saved_var <- cast saved_variance FLOAT32 ;;
            ret (promoted_x, promoted_saved_mean, promoted_saved_var)
          else ret (x, saved_mean, saved_variance)) ;;
       let '(promoted_x, promoted_saved_mean, promoted_saved_var) := promoted in
       r <- reshape promoted_saved_mean [n; c; 1; 1] ;;
       mean <- tile r [1; 1; h; w] ;;
       r <- reshape promoted_saved_var [n; c; 1; 1] ;;
       std_inv <- tile r [1; 1; h; w] ;;
       d <- subtract promoted_x mean ;;
       x_hat <- multiply d std_inv ;;
       ret (x_hat, std_inv)
     else ret (Uninit, Uninit)) ;;
  let '(x_hat, std_inv) := hat in
  when (non_null x_grad) (
    sc <-
      match scale with
      | Some s => ret s
      | None => full [c] (s_lit 1) (dtype_of x)
      end ;;
    r <- reshape sc [1; c; 1; 1] ;;
    scale_data <- tile r [n; 1; h; w] ;;
    promoted_scale <-
      (if is_reduced (dtype_of scale_data) then cast scale_data FLOAT32
       else ret scale_data) ;;
    m1 <- multiply promoted_scale std_inv ;;
    s1 <- sum promoted_y_grad [2; 3] (Some (dtype_of promoted_y_grad)) true ;;
    d1 <- binary_ts b_divide s1 hw ;;
    sub1 <- subtract promoted_y_grad d1 ;;
    m2 <- multiply promoted_y_grad x_hat ;;
    s2 <- sum m2 [2; 3] (Some (dtype_of promoted_y_grad)) true ;;
    d2 <- binary_ts b_divide s2 hw ;;
    m3 <- multiply x_hat d2 ;;
    sub2 <- subtract sub1 m3 ;;
    result <- multiply m1 sub2 ;;
    if is_reduced (dtype_of x) then
      r <- cast result (dtype_of x) ;;
      set_output r x_grad
    else set_output result x_grad) ;;;
  when (non_null scale_grad) (
    m <- multiply promoted_y_grad x_hat ;;
    result <- sum m [0; 2; 3] None false ;;
    let scale_dtype :=
      match scale with Some s => dtype_of s | None => dtype_of x end in
    if is_reduced scale_dtype then
      r <- cast result scale_dtype ;;
      set_output r scale_grad
    else set_output result scale_grad) ;;;
  when (non_null bias_grad) (
    result <- sum promoted_y_grad [0; 2; 3] None false ;;
    let scale_dtype :=
      match scale with Some s => dtype_of s | None => dtype_of x end in
    if is_reduced scale_dtype then
      r <- cast result scale_dtype ;;
      set_output r bias_grad
    else set_output result bias_grad).

(** *** Reduction rules *)

(** The axes of [sum_grad], [prod_grad] and [max_grad] when [keepdim] is off:
    all of them under [reduce_all], else the given ones with the negative
    entries moved up by the rank. *)
Definition reduced_axes (reduce_all : bool) (axis : list Z) (x_dim_size : Z)
  : list Z :=
  if reduce_all then iota (Z.to_nat x_dim_size)
  else map (fun a => if a <? 0 then a + x_dim_size else a) axis.

Definition sum_grad (x out_grad : Tensor) (axis : list Z) (keepdim : bool)
  (reduce_all : bool) (x_grad : Ptr) : M unit :=
  if negb (non_null x_grad) then ret tt
  else
    let x_dim := dims_of x in
    let axis_size := rank axis in
    let x_dim_size := rank x_dim in
    let reduce_all := false in
    let reduce_all :=
      if reduce_all || (axis_size =? 0) || (axis_size =? x_dim_size)
      then true else false in
    x_grad_tmp <-
      (if x_dim_size =? 1 then expand out_grad x_dim
       else if negb keepdim then
         let axis_ := reduced_axes reduce_all axis x_dim_size in
         let out_grad_shape := get_unsqueeze_dims (dims_of out_grad) axis_ in
         out_grad_ <- reshape out_grad out_grad_shape ;;
         expand out_grad_ x_dim
       else expand out_grad x_dim) ;;
    set_output x_grad_tmp x_grad.

Definition max_grad (x out out_grad : Tensor) (axis : list Z) (keepdim : bool)
  (reduce_all : bool) (x_grad : Ptr) : M unit :=
  if negb (non_null x_grad) then ret tt
  else
    zero_tensor <- full (dims_of x) (s_lit 0) (dtype_of x) ;;
    let x_dim := dims_of x in
    let axis_size := rank axis in
    let x_dim_size := rank x_dim in
    let reduce_all := false in
    let reduce_all :=
      if reduce_all || (axis_size =? 0) || (axis_size =? x_dim_size)
      then true else false in
    x_grad_tmp <-
      (if (x_dim_size =? 0) || (x_dim_size =? 1) || keepdim then
         out_grad_tmp <- expand out_grad x_dim ;;
         out_tmp <- expand out x_dim ;;
         mask <- equal x out_tmp ;;
         where_ mask out_grad_tmp zero_tensor
       else
         let axis_ := reduced_axes reduce_all axis x_dim_size in
         let out_grad_shape := get_unsqueeze_dims (dims_of out_grad) axis_ in
         out_grad_ <- reshape out_grad out_grad_shape ;;
         out_ <- reshape out out_grad_shape ;;
         out_grad_tmp <- expand out_grad_ x_dim ;;
         out_tmp <- expand out_ x_dim ;;
         mask <- equal x out_tmp ;;
         where_ mask out_grad_tmp zero_tensor) ;;
    set_output x_grad_tmp x_grad.

Definition prod_grad (x out out_grad : Tensor) (axis : list Z) (keep_dim : bool)
  (reduce_all : bool) (x_grad : Ptr) : M unit :=
  when (non_null x_grad) (
    let x_dim := dims_of x in
    let axis_size := rank axis in
    let x_dim_size := rank x_dim in
    let reduce_all := false in
    let reduce_all :=
      if reduce_all || (axis_size =? 0) || (axis_size =? x_dim_size)
      then true else false in
    tmps <-
      (if x_dim_size =? 1 then
         x_grad_tmp <- expand out_grad x_dim ;;
         out_tmp <- expand out x_dim ;;
         ret (x_grad_tmp, out_tmp)
       else if negb keep_dim then
         let axis_ := reduced_axes reduce_all axis x_dim_size in
         let out_grad_shape := get_unsqueeze_dims (dims_of out_grad) axis_ in
         out_grad_ <- reshape out_grad out_grad_shape ;;
         x_grad_tmp <- expand out_grad_ x_dim ;;
         out_ <- reshape out out_grad_shape ;;
         out_tmp <- expand out_ x_dim ;;
         ret (x_grad_tmp, out_tmp)
       else
         x_grad_tmp <- expand out_grad x_dim ;;
         out_tmp <- expand out x_dim ;;
         ret (x_grad_tmp, out_tmp)) ;;
    let '(x_grad_tmp, out_tmp) := tmps in
    m <- multiply x_grad_tmp out_tmp ;;
    inv <- binary_st b_divide (s_lit 1) x ;;
    x_grad_res <- multiply m inv ;;
    set_output x_grad_res x_grad).

(** *** Rules beyond the claims *)

Definition softmax_grad (out out_grad : Tensor) (axis : Z) (x_grad : Ptr)
  : M unit :=
  when (non_null x_grad) (
    if 0 <? rank (dims_of out_grad) then
      if 0 <=? axis then
        new_out_grad <- multiply out_grad out ;;
        s <- sum new_out_grad [axis] (Some (dtype_of out)) true ;;
        m <- multiply out s ;;
        tmp_x_grad <- subtract new_out_grad m ;;
        set_output tmp_x_grad x_grad
      else
        new_out_grad <- multiply out_grad out ;;
        s <- sum new_out_grad [rank (dims_of out) + axis]
               (Some (dtype_of out)) true ;;
        m <- multiply out s ;;
        tmp_x_grad <- subtract new_out_grad m ;;
        set_output tmp_x_grad x_grad
    else
      r <- binary_ts b_multiply out_grad (s_lit 0) ;;
      set_output r x_grad).

Definition relu_grad (out out_grad : Tensor) (x_grad : Ptr) : M unit :=
  when (non_null x_grad) (
    z <- full (dims_of out) (s_lit 0) (dtype_of out) ;;
    condition <- greater_than out z ;;
    z' <- full (dims_of out) (s_lit 0) (dtype_of out) ;;
    res <- where_ condition out_grad z' ;;
    set_output res x_grad).

Definition leaky_relu_grad (out out_grad : Tensor) (negative_slope : Scalar)
  (x_grad : Ptr) : M unit :=
  when (non_null x_grad) (
    z <- full (dims_of out) (s_lit 0) (dtype_of out) ;;
    condition <- greater_than out z ;;
    scaled <- binary_ts b_multiply out_grad negative_slope ;;
    res <- where_ condition out_grad scaled ;;
    set_output res x_grad).

Definition hardswish_grad (x out_grad : Tensor) (x_grad : Ptr) : M unit :=
  when (non_null x_grad) (
    offset <- full (dims_of x) (s_lit 3) (dtype_of x) ;;
    condition <- less_equal x offset ;;
    q <- binary_ts b_divide x (s_lit 3) ;;
    h <- binary_ts b_add q (s_lit 0.5) ;;
    m <- multiply out_grad h ;;
    tmp1 <- where_ condition m out_grad ;;
    lo <- full (dims_of x) (s_lit (-3)) (dtype_of x) ;;
    below <- less_than x lo ;;
    z <- full (dims_of x) (s_lit 0) (dtype_of x) ;;
    res <- where_ below z tmp1 ;;
    set_output res x_grad).

Definition expand_grad (x out_grad : Tensor) (shape : list Z) (x_grad : Ptr)
  : M unit :=
  when (non_null x_grad) (
    let out_dims := shape in
    if negb (dims_eqb out_dims (dims_of x)) then
      let axes := get_reduce_dims (dims_of x) out_dims in
      if (List.length axes =? 0)%nat then by_pass out_grad x_grad
      else
        reduced <- sum out_grad axes (Some (dtype_of x)) false ;;
        reduced <-
          (if negb (rank (dims_of reduced) =? rank (dims_of x))
           then reshape reduced (dims_of x)
           else ret reduced) ;;
        set_output reduced x_grad
    else by_pass out_grad x_grad).

Definition reshape_grad (xshape grad_out : Tensor) (grad_x : Ptr) : M unit :=
  when (non_null grad_x) (
    let xshape_dims := dims_of xshape in
    let x_dims := skipn 1 xshape_dims in
    grad_x_tmp <- reshape grad_out x_dims ;;
    set_output grad_x_tmp grad_x).

Definition erf_grad (x out_grad : Tensor) (x_grad : Ptr) : M unit :=
  when (non_null x_grad) (
    m_2_sqrt_pi <- full (dims_of x) s_M_2_SQRTPI (dtype_of x) ;;
    neg_one <- full (dims_of x) (s_lit (-1)) (dtype_of x) ;;
    nx <- multiply neg_one x ;;
    neg_tmp <- multiply nx x ;;
    e <- exp neg_tmp ;;
    mul_tmp <- multiply m_2_sqrt_pi e ;;
    r <- multiply out_grad mul_tmp ;;
    set_output r x_grad).

(** The host-side part of [slice_grad]: the shape [out_grad] had before
    the forward slice dropped the axes of [decrease_axis], and the paddings
    handed to [pad].  The [pad] primitive itself is not modelled. *)

(** [origin_out_shape[decrease_axis[i]] = 1], an unchecked store. *)
Fixpoint mark_decreased (decrease_axis : list Z) (shape : list Z)
  : option (list Z) :=
  match decrease_axis with
  | [] => Some shape
  | d :: rest =>
      if (0 <=? d) && (d <? Z.of_nat (List.length shape)) then
        mark_decreased rest (<[Z.to_nat d := 1]> shape)
      else None
  end.

(** The loop that gives every entry still at -1 the next extent of
    [out_dims]. *)
Fixpoint fill_unmarked (shape out_dims : list Z) (index : Z) : list Z :=
  match shape with
  | [] => []
  | e :: shape' =>
      if e =? -1 then
        dim_at out_dims index :: fill_unmarked shape' out_dims (index + 1)
      else e :: fill_unmarked shape' out_dims index
  end.

Definition origin_out_shape (out_dims decrease_axis : list Z)
  : option (list Z) :=
  match
    mark_decreased decrease_axis
      (repeat (-1) (List.length out_dims + List.length decrease_axis))
  with
  | Some marked => Some (fill_unmarked marked out_dims 0)
  | None => None
  end.

(** [out_dims] as [slice_grad] uses it after the reconstruction. *)
Definition slice_out_dims (in_dims out_dims decrease_axis : list Z)
  : option (list Z) :=
  let decrease_size := List.length decrease_axis in
  if (0 <? decrease_size)%nat then
    if (decrease_size =? List.length in_dims)%nat
    then Some (repeat 1 decrease_size)
    else origin_out_shape out_dims decrease_axis
  else Some out_dims.

(** The loop over [axes]: [offsets[axis] = max(start, 0)] with [start]
    counted from the end when negative; [axis] and the stored value are
    [int]; the store is unchecked.  [None] marks a store outside [offsets]
    or a read outside [starts], undefined behaviour at which the source
    does not stop; the model does not follow the rule past that point. *)
Fixpoint slice_offsets (in_dims : list Z) (axes starts : list Z)
  (offsets : list Z) : option (list Z) :=
  match axes with
  | [] => Some offsets
  | ax :: axes' =>
      match starts with
      | [] => None
      | s :: starts' =>
          let axis := to_int32 ax in
          let start := if s <? 0 then s + dim_at in_dims axis else s in
          let start := Z.max start 0 in
          if (0 <=? axis) && (axis <? Z.of_nat (List.length offsets)) then
            slice_offsets in_dims axes' starts'
              (<[Z.to_nat axis := to_int32 start]> offsets)
          else None
      end
  end.

(** [paddings]: for every axis the offset, then what is missing after the
    slice. *)
Definition slice_paddings (in_dims out_dims offsets : list Z) : list Z :=
  flat_map (fun i => [dim_at offsets i;
                      to_int32 ((dim_at in_dims i - dim_at out_dims i)
                                - dim_at offsets i)])
           (iota (List.length in_dims)).

(** The paddings of a call, as far as the model follows it: there is no
    result once the reconstruction of the shape or the loop over [axes] has
    left its vectors. *)
Definition slice_grad_paddings (in_dims out_grad_dims : list Z)
  (axes starts decrease_axis : list Z) : option (list Z) :=
  match slice_out_dims in_dims out_grad_dims decrease_axis with
  | None => None
  | Some out_dims =>
      let rank := List.length in_dims in
      match slice_offsets in_dims axes starts (repeat 0 rank) with
      | None => None
      | Some offsets => Some (slice_paddings in_dims out_dims offsets)
      end
  end.

(** The host-side part of [pad_grad]: the window it slices out of
    [out_grad], [starts[i] = paddings[2 i]] and
    [ends[i] = out_dims[i] - paddings[2 i + 1]] ([paddings] is read
    unchecked, 0 here past its end). *)
Definition pad_grad_window (rank : nat) (out_dims paddings : list Z)
  : list (Z * Z) :=
  map (fun i => (dim_at paddings (2 * i),
                 dim_at out_dims i - dim_at paddings (2 * i + 1)))
      (iota rank).

(** The host-side part of [tile_grad]: the sections into which the loop
    splits axis [i], [repeat_times[i]] pieces of extent
    [out_grad_shape[i] / repeat_times[i]].  [out_grad_shape] holds [int]s and
    is read unchecked; there is no result when [i] is past its end, when
    [repeat_times[i]] is 0 (a division by 0) or negative (a vector of
    negative length). *)
Definition tile_section (out_grad_dims repeat_times : list Z) (i : nat)
  : option (list Z) :=
  let out_grad_shape := map to_int32 out_grad_dims in
  match repeat_times !! i, out_grad_shape !! i with
  | Some r, Some e =>
      if r <=? 0 then None
      else
        let size := to_int32 (Z.quot e r) in
        Some (repeat size (Z.to_nat r))
  | _, _ => None
  end.

End details.

(** ** Element values of elementwise graphs

    Claims about scaling factors and masks are claims about one element
    position.  [elem env t] is the value of [t] at that position when [env]
    gives the values of the inputs there; it is defined for the elementwise
    primitives only.  Values are exact rationals: rounding, infinities and
    NaN are outside the model. *)

Module Elementwise.

Local Open Scope Q_scope.

(** Modelled from the spec: the value of a host scalar.  The irrational
    constants have none; [float] rounding is not modelled. *)
Fixpoint scalar_value (s : Scalar) : option Q :=
  match s with
  | s_lit q => Some q
  | s_M_SQRT2 | s_M_2_SQRTPI | s_M_SQRT1_2 => None
  | s_add a b =>
      match scalar_value a, scalar_value b with
      | Some x, Some y => Some (x + y) | _, _ => None end
  | s_sub a b =>
      match scalar_value a, scalar_value b with
      | Some x, Some y => Some (x - y) | _, _ => None end
  | s_mul a b =>
      match scalar_value a, scalar_value b with
      | Some x, Some y => Some (x * y) | _, _ => None end
  | s_div a b =>
      match scalar_value a, scalar_value b with
      | Some x, Some y => if Qeq_bool y 0 then None else Some (x / y)
      | _, _ => None end
  | s_float a => scalar_value a
  end.

Definition indicator (b : bool) : Q := if b then 1 else 0.

(** Modelled from the spec: what the elementwise binary primitives compute
    on one pair of elements; a comparison gives 1 or 0. *)
Definition bin_value (b : BinOp) (x y : Q) : option Q :=
  match b with
  | b_add => Some (x + y)
  | b_subtract => Some (x - y)
  | b_multiply => Some (x * y)
  | b_divide => if Qeq_bool y 0 then None else Some (x / y)
  | b_elementwise_pow => None
  | b_greater_than => Some (indicator (negb (Qle_bool x y)))
  | b_less_equal => Some (indicator (Qle_bool x y))
  | b_less_than => Some (indicator (negb (Qle_bool y x)))
  | b_greater_equal => Some (indicator (Qle_bool y x))
  | b_equal => Some (indicator (Qeq_bool x y))
  end.

(** Modelled from the spec: the element value of a graph.  [scale] computes
    [s * x + bias] ([s * (x + bias)] when the bias comes first), [cast]
    keeps the value. *)
Fixpoint elem (env : string -> Q) (t : Tensor) : option Q :=
  match t with
  | Input name _ _ => Some (env name)
  | Uninit => None
  | Op p args =>
      match p, args with
      | p_bin b, [a; c] =>
          match elem env a, elem env c with
          | Some x, Some y => bin_value b x y | _, _ => None end
      | p_bin_ts b s, [a] =>
          match elem env a, scalar_value s with
          | Some x, Some y => bin_value b x y | _, _ => None end
      | p_bin_st b s, [a] =>
          match scalar_value s, elem env a with
          | Some x, Some y => bin_value b x y | _, _ => None end
      | p_scale s bias after, [a] =>
          match elem env a, scalar_value s, scalar_value bias with
          | Some x, Some k, Some c =>
              Some (if after then k * x + c else k * (x + c))
          | _, _, _ => None end
      | p_cast _, [a] => elem env a
      | p_un u_neg, [a] =>
          match elem env a with Some x => Some (- x) | None => None end
      | _, _ => None
      end
  end.

(** The operand of the broadcast reduction, when the rule had to reduce:
    [reshape(sum(res, ...), ...)] gives back [res]. *)
Definition unreduced (t : Tensor) : Tensor :=
  match t with
  | Op (p_reshape _) [Op (p_sum _ _ _) [res]] => res
  | _ => t
  end.

End Elementwise.
Export Elementwise.

(** ** Vocabulary of the statements *)

Module Statements.

(** The rule ran to its end, slot [a] holds a tensor, and the element value
    of that tensor is [v]. *)
Definition gives (env : string -> Q) (r : Result unit) (a : nat) (v : Q)
  : Prop :=
  fault_of r = None /\
  exists t v', store (final r) !! a = Some t /\ elem env t = Some v'
               /\ (v' == v)%Q.

(** [dropout_grad], from any state and with its slot requested, gives
    element value [v]. *)
Definition dropout_gives (mask out_grad : Tensor) (env : string -> Q)
  (p : Q) (is_test : bool) (mode : string) (v : Q) : Prop :=
  forall (a : nat) (st : State),
    gives env
      (details.dropout_grad mask out_grad p is_test mode (Some a) st) a v.

(** The 0/1 value of a comparison of two elements. *)
Definition mask_of (cmp : BinOp) (vx vy : Q) : Q :=
  match bin_value cmp vx vy with Some v => v | None => 0%Q end.

(** [out_grad * cast(cmp(x, y), out_grad.dtype())] as a graph. *)
Definition masked (cmp : BinOp) (x y out_grad : Tensor) : Tensor :=
  Op (p_bin b_multiply)
     [out_grad; Op (p_cast (dtype_of out_grad)) [Op (p_bin cmp) [x; y]]].

(** After a two-slot rule, slot [a] holds a gradient that is [tx], possibly
    reduced over broadcast axes, and slot [b] likewise [ty]. *)
Definition holds_unreduced (r : Result unit) (a b : nat) (tx ty : Tensor)
  : Prop :=
  fault_of r = None /\
  exists sx sy, store (final r) !! a = Some sx /\ store (final r) !! b = Some sy
                /\ unreduced sx = tx /\ unreduced sy = ty.




(** One invocation of a rule with several gradient slots: the rule and all
    its arguments but the slot pointers. *)
Inductive Call : Type :=
| call_divide (x y out out_grad : Tensor) (axis : Z)
| call_add (x y out_grad : Tensor) (axis : Z)
| call_subtract (x y out_grad : Tensor) (axis : Z)
| call_multiply (x y out_grad : Tensor) (axis : Z)
| call_elementwise_pow (x y out_grad : Tensor)
| call_maximum (x y out_grad : Tensor)
| call_minimum (x y out_grad : Tensor)
| call_scatter (index updates out_grad : Tensor) (overwrite : bool)
| call_scatter_nd_add (index updates out_grad : Tensor)
| call_layer_norm (x : Tensor) (scale bias : option Tensor)
    (mean variance out_grad : Tensor) (epsilon : Scalar) (begin_norm_axis : Z)
| call_instance_norm (x : Tensor) (scale : option Tensor)
    (saved_mean saved_variance y_grad : Tensor) (epsilon : Scalar)
| call_concat (x : list Tensor) (out_grad : Tensor) (axis : Z).

(** The [i]-th slot pointer of a call, in the order of the signature. *)
Definition slot (slots : list Ptr) (i : nat) : Ptr := nth i slots None.

Definition run_call (c : Call) (slots : list Ptr) : M unit :=
  match c with
  | call_divide x y out out_grad axis =>
      details.divide_grad x y out out_grad axis (slot slots 0) (slot slots 1)
  | call_add x y out_grad axis =>
      details.add_grad x y out_grad axis (slot slots 0) (slot slots 1)
  | call_subtract x y out_grad axis =>
      details.subtract_grad x y out_grad axis (slot slots 0) (slot slots 1)
  | call_multiply x y out_grad axis =>
      details.multiply_grad x y out_grad axis (slot slots 0) (slot slots 1)
  | call_elementwise_pow x y out_grad =>
      details.elementwise_pow_grad x y out_grad (slot slots 0) (slot slots 1)
  | call_maximum x y out_grad =>
      details.maximum_grad x y out_grad (slot slots 0) (slot slots 1)
  | call_minimum x y out_grad =>
      details.minimum_grad x y out_grad (slot slots 0) (slot slots 1)
  | call_scatter index updates out_grad overwrite =>
      details.scatter_grad index updates out_grad overwrite
        (slot slots 0) (slot slots 1)
  | call_scatter_nd_add index updates out_grad =>
      details.scatter_nd_add_grad index updates out_grad
        (slot slots 0) (slot slots 1)
  | call_layer_norm x scale bias mean variance out_grad epsilon axis =>
      details.layer_norm_grad x scale bias mean variance out_grad epsilon axis
        (slot slots 0) (slot slots 1) (slot slots 2)
  | call_instance_norm x scale saved_mean saved_variance y_grad epsilon =>
      details.instance_norm_grad x scale saved_mean saved_variance y_grad
        epsilon (slot slots 0) (slot slots 1) (slot slots 2)
  | call_concat x out_grad axis => details.concat_grad x out_grad axis slots
  end.

(** The slot pointers of a call: slot [i] lives at [addrs[i]] and is passed
    when [req[i]] holds, null otherwise. *)
Fixpoint request (addrs : list nat) (req : list bool) : list Ptr :=
  match addrs, req with
  | a :: addrs', r :: req' =>
      (if r then Some a else None) :: request addrs' req'
  | _, _ => []
  end.

(** A list of stores through slot pointers, in order: [(k, v)] stores [v]
    through the [k]-th pointer when it is not null. *)
Definition apply_writes (wl : list (nat * Tensor)) (slots : list Ptr)
  (s : gmap nat Tensor) : gmap nat Tensor :=
  fold_left (fun s w => match slot slots (fst w) with
                        | Some a => <[a := snd w]> s
                        | None => s
                        end) wl s.

(** The tensor a write list has for slot [i]. *)
Fixpoint written (wl : list (nat * Tensor)) (i : nat) : option Tensor :=
  match wl with
  | [] => None
  | (k, v) :: wl' => if Nat.eqb k i then Some v else written wl' i
  end.

(** The stores of a call are a fixed write list: which tensor goes to which
    slot does not depend on the pointers. *)
Definition has_writes (m : list Ptr -> M unit) (n : nat) : Prop :=
  exists wl,
    NoDup (map fst wl) /\
    forall slots st,
      List.length slots = n ->
      store (final (m slots st)) = apply_writes wl slots (store st).

(** A permutation array of rank [n]: once the negative entries are moved up
    by [n], the entries are in [0, n) and pairwise different. *)
Definition in_range (n q : Z) : bool := (0 <=? q) && (q <? n).

Fixpoint distinct (l : list Z) : bool :=
  match l with
  | [] => true
  | q :: l' => negb (existsb (Z.eqb q) l') && distinct l'
  end.

Definition normalized_perm (perm : list Z) : list Z :=
  map (normalize_axis (rank perm)) perm.

Definition is_permutation (perm : list Z) : bool :=
  forallb (in_range (rank perm)) (normalized_perm perm)
  && distinct (normalized_perm perm).

(** Reading a list of axes (extents, or the coordinates of an element) in
    the order of a permutation array: position [k] of the result is
    position [perm[k]] of [l]. *)
Definition gather_axes (perm l : list Z) : list Z :=
  map (fun p => dim_at l (normalize_axis (rank l) p)) perm.

(** An array as a shape and its elements by coordinates. *)
Record Array (A : Type) : Type := mkArray {
  shape : list Z;
  at_ : list Z -> A
}.
Arguments mkArray {A} shape at_.
Arguments shape {A} a.
Arguments at_ {A} a idx.

(** Modelled from the spec: the [transpose] primitive of the backend.  Axis
    [k] of the result is axis [perm[k]] of the operand, so the operand's
    element at coordinates [idx] is the result's element at the coordinates
    [idx] read in the order of [perm]. *)
Definition is_transpose {A} (perm : list Z) (tin tout : Array A) : Prop :=
  shape tout = gather_axes perm (shape tin) /\
  forall idx,
    List.length idx = List.length (shape tin) ->
    at_ tout (gather_axes perm idx) = at_ tin idx.

(** A transposition that computes: the element of the result at [idx] is the
    element of the operand at [idx] read in the order of the reverse
    permutation. *)
Definition transpose_array {A} (perm : list Z) (t : Array A) : Array A :=
  match details.make_reverse_perm perm with
  | Some r =>
      mkArray (gather_axes perm (shape t))
              (fun idx => at_ t (gather_axes r idx))
  | None => t
  end.

(** [r] is the inverse of the permutation array [perm]: it has the same
    length, sends the axis of every entry of [perm] back to the position of
    that entry, and every position of [r] arises so. *)
Definition inverse_of (perm r : list Z) : Prop :=
  List.length r = List.length perm /\
  (forall i p, perm !! i = Some p ->
     r !! Z.to_nat (normalize_axis (rank perm) p) = Some (Z.of_nat i)) /\
  (forall j, (j < List.length perm)%nat ->
     exists i p, r !! j = Some (Z.of_nat i) /\ perm !! i = Some p /\
                 normalize_axis (rank perm) p = Z.of_nat j).

(** Same shape and same elements. *)
Definition same_array {A} (t u : Array A) : Prop :=
  shape t = shape u /\
  forall idx,
    List.length idx = List.length (shape t) -> at_ t idx = at_ u idx.

(** [b] broadcasts up to [a]: [b] has at most the rank of [a] and, aligned at
    the trailing axis, every extent of [b] is the extent of [a], or is 1
    where [a] has at least one element along the axis. *)
Fixpoint aligned_ok (b a : list Z) : bool :=
  match b, a with
  | y :: b', x :: a' =>
      ((y =? x) || ((y =? 1) && (1 <=? x))) && aligned_ok b' a'
  | _, _ => true
  end.

Definition broadcasts_to (b a : list Z) : bool :=
  (List.length b <=? List.length a)%nat
  && aligned_ok b (skipn (List.length a - List.length b) a).

(** The first half of C1 for one pair of shapes: summing over the resolved
    axes and reshaping gives [b], and no axis is resolved exactly when the
    shapes are equal. *)
Definition resolves (a b : list Z) : Prop :=
  reshape_dims (remove_axes a (reduce_axes a b)) b = Some b /\
  (reduce_axes a b = [] <-> a = b).

(** The second half of C1: the binary rules that rely on the resolver, each
    with its slots in the order (x gradient, y gradient). *)
Inductive BinaryRule : Type :=
| rule_add | rule_subtract | rule_multiply | rule_divide
| rule_elementwise_pow | rule_maximum | rule_minimum.

Definition run_binary (r : BinaryRule) (x y out out_grad : Tensor) (axis : Z)
  (dx dy : Ptr) : M unit :=
  match r with
  | rule_add => details.add_grad x y out_grad axis dx dy
  | rule_subtract => details.subtract_grad x y out_grad axis dx dy
  | rule_multiply => details.multiply_grad x y out_grad axis dx dy
  | rule_divide => details.divide_grad x y out out_grad axis dx dy
  | rule_elementwise_pow => details.elementwise_pow_grad x y out_grad dx dy
  | rule_maximum => details.maximum_grad x y out_grad dx dy
  | rule_minimum => details.minimum_grad x y out_grad dx dy
  end.

(** [a] is the shape of the forward result for operands of shapes [x_dims]
    and [y_dims]: the broadcast of the two, taken in either order, and both
    operands broadcast up to it. *)
Definition forward_shape (x_dims y_dims a : list Z) : bool :=
  dims_eqb (BroadcastTwoDims x_dims y_dims) a
  && dims_eqb (BroadcastTwoDims y_dims x_dims) a
  && broadcasts_to x_dims a && broadcasts_to y_dims a.

(** [t] is the gradient [u] taken back to the shape [target] through the
    axes [axes]: [u] itself when there is no axis, else the sum of [u] over
    exactly these axes (without [keepdim]), reshaped to [target] by a
    reshape that keeps the number of elements; the reshape may only be left
    out when the sum already has the rank of [target].  Either way [t] has
    the shape [target]. *)
Definition reduced_to (axes : list Z) (u : Tensor) (target : list Z)
  (t : Tensor) : Prop :=
  dims_of t = target /\
  (axes = [] -> t = u) /\
  (axes <> [] ->
   exists dt,
     let s := Op (p_sum axes dt false) [u] in
     reshape_dims (dims_of s) target = Some target /\
     (t = Op (p_reshape target) [s] \/
      (t = s /\ rank (dims_of s) = rank target))).

(** The outcome [r] of a rule is sound for slot [a]: the rule ran to its
    end, and the slot holds an unreduced gradient of shape [from_shape]
    ([out_grad] or an operation the rule built) taken back to [to_shape]
    through the axes the resolver returns. *)
Definition short_circuits (r : Result unit) (a : nat) (out_grad : Tensor)
  (from_shape to_shape : list Z) : Prop :=
  fault_of r = None /\
  exists u t,
    store (final r) !! a = Some t /\
    In u (out_grad :: built (final r)) /\
    dims_of u = from_shape /\
    reduced_to (reduce_axes from_shape to_shape) u to_shape t.

End Statements.
Export Statements.

(** ** Vocabulary of the further properties *)

Module MoreStatements.

(** Modelled from the spec: element values as in [elem], extended to the
    selecting and filling primitives.  [where(c, a, b)] takes [a] where the
    condition holds (is not 0) and [b] elsewhere, [full] has its fill value
    everywhere, and [expand] repeats elements, so that at a position of the
    result it has the value of the operand there. *)
Fixpoint value (env : string -> Q) (t : Tensor) : option Q :=
  match t with
  | Input name _ _ => Some (env name)
  | Uninit => None
  | Op p args =>
      match p, args with
      | p_bin b, [a; c] =>
          match value env a, value env c with
          | Some x, Some y => bin_value b x y | _, _ => None end
      | p_bin_ts b s, [a] =>
          match value env a, scalar_value s with
          | Some x, Some y => bin_value b x y | _, _ => None end
      | p_bin_st b s, [a] =>
          match scalar_value s, value env a with
          | Some x, Some y => bin_value b x y | _, _ => None end
      | p_scale s bias after, [a] =>
          match value env a, scalar_value s, scalar_value bias with
          | Some x, Some k, Some c =>
              Some (if after then k * x + c else k * (x + c))%Q
          | _, _, _ => None end
      | p_cast _, [a] => value env a
      | p_un u_neg, [a] =>
          match value env a with Some x => Some (- x)%Q | None => None end
      | p_where, [c; a; b] =>
          match value env c, value env a, value env b with
          | Some vc, Some va, Some vb =>
              Some (if Qeq_bool vc 0 then vb else va)
          | _, _, _ => None end
      | p_full _ v _, [] => scalar_value v
      | p_expand _, [a] => value env a
      | _, _ => None
      end
  end.

(** The rule ran to its end and slot [a] holds a tensor whose element value
    satisfies [P]. *)
Definition stores_value (env : string -> Q) (r : Result unit) (a : nat)
  (P : Q -> Prop) : Prop :=
  fault_of r = None /\
  exists t v, store (final r) !! a = Some t /\ value env t = Some v /\ P v.

(** The permutation [gather_grad] builds: the gathered axis first, the other
    axes after it in order. *)
Definition gather_perm (axis_value : Z) (x_rank : Z) : list Z :=
  axis_value ::
  List.filter (fun i => negb (i =? axis_value)) (iota (Z.to_nat x_rank)).

(** A computation only appends to the list of operations. *)
Definition grows {A} (m : M A) : Prop :=
  forall st, exists l, built (final (m st)) = built st ++ l.

(** Entries that fit an [int]. *)
Definition is_int32 (z : Z) : bool := (- 2 ^ 31 <=? z) && (z <? 2 ^ 31).

End MoreStatements.
Export MoreStatements.

(** ** Theorems *)

(** Unfold the monad and the primitives, leaving shapes and datatypes
    folded. *)
Ltac run_rule :=
  cbv beta iota zeta delta
    [bind ret fail when prim set_output by_pass final fault_of non_null
     unary binary binary_ts binary_st sign cos sin neg log tanh erf exp
     add subtract multiply divide elementwise_pow greater_than less_equal
     less_than greater_equal equal pow scale cast reshape sum full expand
     tile transpose where_ scatter gather gather_nd put_along_axis
     store built negb orb andb].

(** Decide the tests a rule makes on shapes and datatypes. *)
Ltac split_tests :=
  repeat match goal with
         | |- context [if ?c then _ else _] => destruct c eqn:?
         end.

Section RuleFacts.

Local Open Scope rule_scope.

Lemma when_false (body : M unit) st : when false body st = Done tt st.
Proof. reflexivity. Qed.

Lemma when_true (body : M unit) st : when true body st = body st.
Proof. reflexivity. Qed.

Lemma store_set_output x a st :
  store (final (set_output x (Some a) st)) !! a = Some x.
Proof. simpl. apply lookup_insert_eq. Qed.

End RuleFacts.

(** C10.  With a zero-rank [x] and a requested gradient, [topk_grad] builds
    no operation at all (no zero tensor, no scatter) and the slot receives
    [out_grad] itself. *)
Theorem topk_grad_zero_rank :
  forall (x indices out_grad : Tensor) (k : Scalar) (axis : Z)
         (largest sorted : bool) (a : nat) (st : State),
    dims_of x = [] ->
    let r := details.topk_grad x indices out_grad k axis largest sorted
               (Some a) st in
    fault_of r = None /\
    store (final r) = <[a := out_grad]> (store st) /\
    store (final r) !! a = Some out_grad /\
    built (final r) = built st.
Proof.
  intros x indices out_grad k axis largest sorted a st Hx r.
  subst r. unfold details.topk_grad. rewrite Hx. simpl.
  repeat split. apply lookup_insert_eq.
Qed.

Lemma topk_grad_zero_rank_witness :
  let x := Input "x" [] FLOAT32 in
  let g := Input "out_grad" [] FLOAT32 in
  let r := details.topk_grad x (Input "indices" [] INT64) g (s_lit 1) 0
             true true (Some 0%nat) (mkState ∅ []) in
  dims_of x = [] /\ store (final r) !! 0%nat = Some g.
Proof.
  split; [reflexivity |].
  apply (topk_grad_zero_rank (Input "x" [] FLOAT32) (Input "indices" [] INT64)
           (Input "out_grad" [] FLOAT32) (s_lit 1) 0 true true 0%nat
           (mkState ∅ []) eq_refl).
Defined.

(** C5.  The [reduce_all] argument of [sum_grad], [prod_grad] and [max_grad]
    has no influence on the outcome: the rule overwrites it before reading
    it, so both values give the same result, slots and operations. *)
Theorem reduce_all_is_ignored :
  forall (x out out_grad : Tensor) (axis : list Z) (keepdim : bool)
         (x_grad : Ptr) (st : State),
    details.sum_grad x out_grad axis keepdim true x_grad st
      = details.sum_grad x out_grad axis keepdim false x_grad st /\
    details.prod_grad x out out_grad axis keepdim true x_grad st
      = details.prod_grad x out out_grad axis keepdim false x_grad st /\
    details.max_grad x out out_grad axis keepdim true x_grad st
      = details.max_grad x out out_grad axis keepdim false x_grad st.
Proof. intros. repeat split. Qed.

(** C2.  [sin_grad] called with a null slot: the rule still builds the
    cosine and the product, then stores through the null pointer.  The
    guarded rules ([abs_grad] is the one shown) do nothing at all on a null
    slot. *)
Theorem sin_grad_null_slot :
  forall (x out_grad : Tensor) (st : State),
    details.sin_grad x out_grad None st
      = Failed NullDeref
          (mkState (store st)
             (built st ++ [Op (p_un u_cos) [x]]
                       ++ [Op (p_bin b_multiply) [Op (p_un u_cos) [x]; out_grad]]))
    /\ details.abs_grad x out_grad None st = Done tt st.
Proof.
  intros x out_grad st. split; [| reflexivity].
  unfold details.sin_grad, cos, multiply, unary, binary, prim, bind, set_output.
  simpl. now rewrite <- app_assoc.
Qed.

(** The same slip in [cos_grad] and [gather_grad]. *)
Lemma cos_grad_null_slot (x out_grad : Tensor) (st : State) :
  fault_of (details.cos_grad x out_grad None st) = Some NullDeref /\
  built (final (details.cos_grad x out_grad None st)) <> built st.
Proof.
  split; [reflexivity |].
  unfold details.cos_grad, sin, neg, multiply, unary, binary, prim, bind,
    set_output. simpl.
  intros H. apply (f_equal (@List.length Tensor)) in H.
  rewrite !length_app in H. simpl in H. lia.
Qed.

Lemma gather_grad_null_slot_example :
  let x := Input "x" [4; 3] FLOAT32 in
  let r := details.gather_grad x (Input "index" [2] INT64)
             (Input "out_grad" [2; 3] FLOAT32) 0 None (mkState ∅ []) in
  fault_of r = Some NullDeref /\ List.length (built (final r)) = 5%nat.
Proof. split; reflexivity. Qed.

(** What a guarded unary rule does on a null slot: nothing. *)
Lemma guarded_rules_null_slot (x out_grad : Tensor) (st : State) :
  details.abs_grad x out_grad None st = Done tt st /\
  details.assign_grad out_grad None st = Done tt st /\
  details.floor_grad out_grad None st = Done tt st /\
  details.tanh_grad x out_grad None st = Done tt st /\
  details.log_grad x out_grad None st = Done tt st /\
  details.sqrt_grad x out_grad None st = Done tt st /\
  details.sigmoid_grad x out_grad None st = Done tt st /\
  details.cast_grad x out_grad None st = Done tt st /\
  details.exp_grad x out_grad None st = Done tt st /\
  details.silu_grad x x out_grad None st = Done tt st.
Proof. repeat split. Qed.

Section Dropout.

Local Open Scope Q_scope.

Variables (mask out_grad : Tensor) (env : string -> Q) (m g : Q).
Hypothesis mask_value : elem env mask = Some m.
Hypothesis out_grad_value : elem env out_grad = Some g.

Lemma dropout_test_upscale p a st :
  details.dropout_grad mask out_grad p true "upscale_in_train" (Some a) st
    = Done tt (mkState (<[a := out_grad]> (store st)) (built st)).
Proof. reflexivity. Qed.

Lemma dropout_test_other p mode :
  String.eqb mode "upscale_in_train" = false ->
  dropout_gives mask out_grad env p true mode (g * (1 - p)).
Proof.
  intros Hm a st. unfold gives, details.dropout_grad. simpl. rewrite Hm.
  split; [reflexivity |].
  eexists _, _. split; [apply lookup_insert_eq |].
  simpl. rewrite out_grad_value. split; reflexivity.
Qed.

Lemma dropout_train_full_drop p :
  p == 1 -> dropout_gives mask out_grad env p false "upscale_in_train" 0.
Proof.
  intros Hp a st. unfold gives, details.dropout_grad. simpl.
  apply Qeq_bool_iff in Hp. rewrite Hp.
  split; [reflexivity |].
  eexists _, _. split; [apply lookup_insert_eq |].
  simpl. rewrite out_grad_value. split; [reflexivity | ring].
Qed.

Lemma dropout_train_upscale p :
  ~ p == 1 -> dropout_gives mask out_grad env p false "upscale_in_train" (m * g / (1 - p)).
Proof.
  intros Hp a st. unfold gives, details.dropout_grad. simpl.
  destruct (Qeq_bool p 1) eqn:E; [apply Qeq_bool_iff in E; contradiction |].
  assert (Hq : ~ 1 - p == 0) by (intros H; apply Hp; lra).
  split; [reflexivity |].
  eexists _, _. split; [apply lookup_insert_eq |].
  simpl. rewrite out_grad_value, mask_value.
  destruct (Qeq_bool (1 - p) 0) eqn:E0;
    [apply Qeq_bool_iff in E0; contradiction |].
  split; [reflexivity |]. field. exact Hq.
Qed.

Lemma dropout_train_other p mode :
  String.eqb mode "upscale_in_train" = false ->
  dropout_gives mask out_grad env p false mode (m * g).
Proof.
  intros Hm a st. unfold gives, details.dropout_grad. simpl. rewrite Hm.
  split; [reflexivity |].
  eexists _, _. split; [apply lookup_insert_eq |].
  simpl. rewrite out_grad_value, mask_value. split; [reflexivity | ring].
Qed.

End Dropout.

Section DropoutTable.

Local Open Scope Q_scope.

(** C3.  The five cases of [dropout_grad], for a requested gradient; [m]
    and [g] are the values of [mask] and [out_grad] at an element position
    and [p] the value of [p.to<float>()].
    - test, "upscale_in_train": the slot receives [out_grad] itself and
      nothing is built;
    - test, another mode: [g * (1 - p)];
    - training, "upscale_in_train", [p == 1]: zero;
    - training, "upscale_in_train", [p < 1]: [m * g / (1 - p)];
    - training, another mode: [m * g]. *)
Theorem dropout_grad_state_machine :
  forall (mask out_grad : Tensor) (env : string -> Q) (m g p : Q),
    elem env mask = Some m ->
    elem env out_grad = Some g ->
    (forall a st,
        details.dropout_grad mask out_grad p true "upscale_in_train" (Some a) st
          = Done tt (mkState (<[a := out_grad]> (store st)) (built st))) /\
    (forall mode, mode <> "upscale_in_train"%string ->
        dropout_gives mask out_grad env p true mode (g * (1 - p))) /\
    (p == 1 ->
        dropout_gives mask out_grad env p false "upscale_in_train" 0) /\
    (p < 1 ->
        dropout_gives mask out_grad env p false "upscale_in_train"
          (m * g / (1 - p))) /\
    (forall mode, mode <> "upscale_in_train"%string ->
        dropout_gives mask out_grad env p false mode (m * g)).
Proof.
  intros mask out_grad env m g p Hm Hg.
  split; [| split; [| split; [| split]]].
  - reflexivity.
  - intros mode Hmode. apply String.eqb_neq in Hmode.
    eapply dropout_test_other; eauto.
  - intros Hp. eapply dropout_train_full_drop; eauto.
  - intros Hp. eapply dropout_train_upscale; eauto.
    intros E. rewrite E in Hp. discriminate.
  - intros mode Hmode. apply String.eqb_neq in Hmode.
    eapply dropout_train_other; eauto.
Qed.

(** The table of section 8 at one kept position: [p = 0.5], [mask = 1],
    [out_grad = 3]; and the degenerate [p = 1]. *)
Lemma dropout_grad_state_machine_witness :
  let mask := Input "mask" [4%Z] FLOAT32 in
  let out_grad := Input "out_grad" [4%Z] FLOAT32 in
  let env := fun name : string => if String.eqb name "mask" then 1 else 3 in
  dropout_gives mask out_grad env 0.5 false "upscale_in_train" (1 * 3 / (1 - 0.5))
  /\ dropout_gives mask out_grad env 0.5 true "downscale_in_infer" (3 * (1 - 0.5))
  /\ dropout_gives mask out_grad env 0.5 false "downscale_in_infer" (1 * 3)
  /\ dropout_gives mask out_grad env 1 false "upscale_in_train" 0.
Proof.
  intros mask out_grad env.
  destruct (dropout_grad_state_machine mask out_grad env 1 3 0.5
              eq_refl eq_refl) as (_ & Htest & _ & Htrain & Hplain).
  destruct (dropout_grad_state_machine mask out_grad env 1 3 1
              eq_refl eq_refl) as (_ & _ & Hfull & _ & _).
  split; [apply Htrain; reflexivity |].
  split; [apply Htest; discriminate |].
  split; [apply Hplain; discriminate |].
  apply Hfull; reflexivity.
Defined.

End DropoutTable.

Section MaxMin.

Local Open Scope Q_scope.

Lemma mask_split_max vx vy :
  mask_of b_greater_than vx vy + mask_of b_less_equal vx vy == 1.
Proof. unfold mask_of. simpl. destruct (Qle_bool vx vy); reflexivity. Qed.

Lemma mask_split_min vx vy :
  mask_of b_less_than vx vy + mask_of b_greater_equal vx vy == 1.
Proof. unfold mask_of. simpl. destruct (Qle_bool vy vx); reflexivity. Qed.

Lemma mask_tie vx vy :
  vx == vy ->
  mask_of b_greater_than vx vy = 0 /\ mask_of b_less_equal vx vy = 1 /\
  mask_of b_less_than vx vy = 0 /\ mask_of b_greater_equal vx vy = 1.
Proof.
  intros E. unfold mask_of. simpl.
  assert (H1 : Qle_bool vx vy = true) by (apply Qle_bool_iff; lra).
  assert (H2 : Qle_bool vy vx = true) by (apply Qle_bool_iff; lra).
  rewrite H1, H2. repeat split.
Qed.

Lemma mask_strict vx vy :
  (vy < vx -> mask_of b_greater_than vx vy = 1) /\
  (vx < vy -> mask_of b_less_than vx vy = 1).
Proof.
  unfold mask_of. simpl. split; intros H.
  - destruct (Qle_bool vx vy) eqn:E; [apply Qle_bool_iff in E; lra | reflexivity].
  - destruct (Qle_bool vy vx) eqn:E; [apply Qle_bool_iff in E; lra | reflexivity].
Qed.

Lemma elem_masked env cmp x y out_grad vx vy g :
  is_comparison cmp = true ->
  elem env x = Some vx -> elem env y = Some vy -> elem env out_grad = Some g ->
  elem env (masked cmp x y out_grad) = Some (g * mask_of cmp vx vy).
Proof.
  intros Hc Hx Hy Hg. unfold masked, mask_of. simpl. rewrite Hg, Hx, Hy.
  destruct cmp; try discriminate; reflexivity.
Qed.

Lemma two_slot_masked cmpx cmpy x y out_grad a b st :
  a <> b ->
  holds_unreduced
    (bind (when true (bind (details.masked_grad cmpx x y out_grad)
                           (fun r => details.reduce_to x y r (Some a))))
          (fun _ => when true
                      (bind (details.masked_grad cmpy x y out_grad)
                            (fun r => details.reduce_to y x r (Some b)))) st)
    a b (masked cmpx x y out_grad) (masked cmpy x y out_grad).
Proof.
  intros Hab.
  unfold holds_unreduced, when, details.masked_grad, details.reduce_to,
    masked, binary, cast, multiply, sum, reshape, binary, prim, bind,
    set_output.
  simpl.
  destruct (negb (dims_eqb (dims_of y) (dims_of x)));
    destruct (negb (dims_eqb (dims_of x) (dims_of y)));
    repeat match goal with
           | |- context [if ?c then _ else _] => destruct c
           end;
    simpl; (split; [reflexivity |]); eexists _, _;
    rewrite lookup_insert_ne by congruence;
    rewrite !lookup_insert_eq; repeat split.
Qed.

End MaxMin.

Section MaxMinClaim.

Local Open Scope Q_scope.

(** C6.  [maximum_grad] gives [x] the gradient [out_grad * [x > y]] and [y]
    the gradient [out_grad * [x <= y]]; [minimum_grad] uses [x < y] and
    [x >= y].  These are the tensors handed to the broadcast reduction (or
    stored as they are when there is none).  At every element position the
    two masks of a rule add up to 1, and on a tie the [x] side gets 0 and
    the [y] side gets [out_grad]. *)
Theorem maximum_minimum_masks :
  forall (x y out_grad : Tensor) (env : string -> Q) (vx vy g : Q)
         (a b : nat) (st : State),
    a <> b ->
    elem env x = Some vx -> elem env y = Some vy ->
    elem env out_grad = Some g ->
    holds_unreduced
      (details.maximum_grad x y out_grad (Some a) (Some b) st) a b
      (masked b_greater_than x y out_grad) (masked b_less_equal x y out_grad) /\
    holds_unreduced
      (details.minimum_grad x y out_grad (Some a) (Some b) st) a b
      (masked b_less_than x y out_grad) (masked b_greater_equal x y out_grad) /\
    elem env (masked b_greater_than x y out_grad)
      = Some (g * mask_of b_greater_than vx vy) /\
    elem env (masked b_less_equal x y out_grad)
      = Some (g * mask_of b_less_equal vx vy) /\
    elem env (masked b_less_than x y out_grad)
      = Some (g * mask_of b_less_than vx vy) /\
    elem env (masked b_greater_equal x y out_grad)
      = Some (g * mask_of b_greater_equal vx vy) /\
    mask_of b_greater_than vx vy + mask_of b_less_equal vx vy == 1 /\
    mask_of b_less_than vx vy + mask_of b_greater_equal vx vy == 1 /\
    (vy < vx -> mask_of b_greater_than vx vy = 1) /\
    (vx < vy -> mask_of b_less_than vx vy = 1) /\
    (vx == vy ->
       mask_of b_greater_than vx vy = 0 /\ mask_of b_less_equal vx vy = 1 /\
       mask_of b_less_than vx vy = 0 /\ mask_of b_greater_equal vx vy = 1).
Proof.
  intros x y out_grad env vx vy g a b st Hab Hx Hy Hg.
  split; [apply (two_slot_masked b_greater_than b_less_equal); exact Hab |].
  split; [apply (two_slot_masked b_less_than b_greater_equal); exact Hab |].
  repeat (split; [apply elem_masked; auto |]).
  split; [apply mask_split_max |].
  split; [apply mask_split_min |].
  split; [apply mask_strict |].
  split; [apply mask_strict |].
  apply mask_tie.
Qed.

(** A tie: [x = y = 2] at the position, [out_grad = 5] there. *)
Lemma maximum_minimum_masks_witness :
  let x := Input "x" [3%Z] FLOAT32 in
  let y := Input "y" [3%Z] FLOAT32 in
  let out_grad := Input "out_grad" [3%Z] FLOAT32 in
  let env := fun name : string => if String.eqb name "out_grad" then 5 else 2 in
  0%nat <> 1%nat /\
  elem env x = Some 2 /\ elem env y = Some 2 /\ elem env out_grad = Some 5 /\
  holds_unreduced
    (details.maximum_grad x y out_grad (Some 0%nat) (Some 1%nat) (mkState ∅ []))
    0 1 (masked b_greater_than x y out_grad) (masked b_less_equal x y out_grad) /\
  elem env (masked b_greater_than x y out_grad)
    = Some (5 * mask_of b_greater_than 2 2) /\
  mask_of b_greater_than 2 2 = 0 /\ mask_of b_less_equal 2 2 = 1.
Proof.
  intros x y out_grad env.
  assert (Hab : 0%nat <> 1%nat) by discriminate.
  destruct (maximum_minimum_masks x y out_grad env 2 2 5 0%nat 1%nat
              (mkState ∅ []) Hab eq_refl eq_refl eq_refl)
    as (Hmax & _ & Hgt & _ & _ & _ & _ & _ & _ & _ & Htie).
  destruct (Htie (Qeq_refl 2)) as (T1 & T2 & _ & _).
  repeat split; try assumption; try reflexivity.
  destruct Hmax as [_ Hs]. exact Hs.
Defined.

End MaxMinClaim.

Section AbsentAffine.

Variables (x mean variance out_grad : Tensor) (epsilon : Scalar).

(** With no [scale], [layer_norm_grad] with [scale_grad] requested is the
    same computation as with [scale_grad] null. *)
Lemma layer_norm_grad_no_scale bias begin_norm_axis x_grad a bias_grad st :
  details.layer_norm_grad x None bias mean variance out_grad epsilon
    begin_norm_axis x_grad (Some a) bias_grad st
  = details.layer_norm_grad x None bias mean variance out_grad epsilon
      begin_norm_axis x_grad None bias_grad st.
Proof. reflexivity. Qed.

Lemma layer_norm_grad_no_bias scale begin_norm_axis x_grad scale_grad a st :
  details.layer_norm_grad x scale None mean variance out_grad epsilon
    begin_norm_axis x_grad scale_grad (Some a) st
  = details.layer_norm_grad x scale None mean variance out_grad epsilon
      begin_norm_axis x_grad scale_grad None st.
Proof. reflexivity. Qed.

(** Neither parameter given, only their gradients requested: all slots keep
    their contents. *)
Lemma layer_norm_grad_store_untouched begin_norm_axis a b st :
  let r := details.layer_norm_grad x None None mean variance out_grad epsilon
             begin_norm_axis None (Some a) (Some b) st in
  fault_of r = None /\ store (final r) = store st.
Proof.
  unfold details.layer_norm_grad. simpl.
  destruct (is_reduced (dtype_of x)); split; reflexivity.
Qed.

(** [instance_norm_grad] with no [scale] and [scale_grad] requested. *)
Lemma instance_norm_grad_no_scale_writes x_grad a st :
  let r := details.instance_norm_grad x None mean variance out_grad epsilon
             x_grad (Some a) None st in
  fault_of r = None /\
  exists t, store (final r) !! a = Some t /\
            t <> Uninit /\
            (is_reduced (dtype_of x) = true -> dtype_of t = dtype_of x).
Proof.
  unfold details.instance_norm_grad.
  destruct x_grad as [ax |];
    destruct (is_reduced (dtype_of x)) eqn:Hx; run_rule; simpl;
    rewrite ?Hx; simpl;
    (split; [reflexivity |]); eexists;
    (split; [apply lookup_insert_eq |]); split;
    try discriminate; try reflexivity.
Qed.

Lemma instance_norm_grad_no_scale_writes_bias x_grad a st :
  let r := details.instance_norm_grad x None mean variance out_grad epsilon
             x_grad None (Some a) st in
  fault_of r = None /\
  exists t, store (final r) !! a = Some t /\ t <> Uninit.
Proof.
  unfold details.instance_norm_grad.
  destruct x_grad as [ax |];
    destruct (is_reduced (dtype_of x)) eqn:Hx; run_rule; simpl;
    rewrite ?Hx; simpl;
    (split; [reflexivity |]); eexists;
    (split; [apply lookup_insert_eq |]); discriminate.
Qed.

End AbsentAffine.

(** C4, as the claim has it, fails for [instance_norm_grad]: with no scale
    and [scale_grad] requested the slot is written. *)
Lemma instance_norm_grad_absent_scale_counterexample :
  let x := Input "x" [2; 3; 4; 5] FLOAT32 in
  let st := mkState ∅ [] in
  let r := details.instance_norm_grad x None
             (Input "saved_mean" [2; 3] FLOAT32)
             (Input "saved_variance" [2; 3] FLOAT32)
             (Input "y_grad" [2; 3; 4; 5] FLOAT32) (s_lit 0.00001)
             None (Some 7%nat) None st in
  store st !! 7%nat = None /\
  store (final r) !! 7%nat
    = Some (Op (p_sum [0; 2; 3] None false)
              [Op (p_bin b_multiply)
                 [Input "y_grad" [2; 3; 4; 5] FLOAT32;
                  Op (p_bin b_multiply)
                    [Op (p_bin b_subtract)
                       [x;
                        Op (p_tile [1; 1; 4; 5])
                          [Op (p_reshape [2; 3; 1; 1])
                             [Input "saved_mean" [2; 3] FLOAT32]]];
                     Op (p_tile [1; 1; 4; 5])
                       [Op (p_reshape [2; 3; 1; 1])
                          [Input "saved_variance" [2; 3] FLOAT32]]]]]) /\
  ~ (store (final r) !! 7%nat = store st !! 7%nat) /\
  List.length (built (final r)) = 8%nat.
Proof.
  cbv zeta.
  split; [vm_compute; reflexivity |].
  split; [vm_compute; reflexivity |].
  split; [vm_compute; discriminate | vm_compute; reflexivity].
Qed.

(** C4, amended.  [layer_norm_grad] skips [scale_grad] when there is no
    scale, and [bias_grad] when there is no bias: the call is the very
    computation it would be with that slot pointer null, and with neither
    parameter no slot changes.  [instance_norm_grad] has no bias input and
    treats a missing scale differently: a requested [scale_grad] or
    [bias_grad] is computed and written. *)
Theorem absent_affine_parameter :
  forall (x mean variance out_grad : Tensor) (epsilon : Scalar)
         (scale bias : option Tensor) (begin_norm_axis : Z)
         (x_grad scale_grad bias_grad : Ptr) (a b : nat) (st : State),
    details.layer_norm_grad x None bias mean variance out_grad epsilon
      begin_norm_axis x_grad (Some a) bias_grad st
    = details.layer_norm_grad x None bias mean variance out_grad epsilon
        begin_norm_axis x_grad None bias_grad st /\
    details.layer_norm_grad x scale None mean variance out_grad epsilon
      begin_norm_axis x_grad scale_grad (Some a) st
    = details.layer_norm_grad x scale None mean variance out_grad epsilon
        begin_norm_axis x_grad scale_grad None st /\
    store (final (details.layer_norm_grad x None None mean variance out_grad
                    epsilon begin_norm_axis None (Some a) (Some b) st))
    = store st /\
    (exists t,
        store (final (details.instance_norm_grad x None mean variance out_grad
                        epsilon x_grad (Some a) None st)) !! a = Some t
        /\ t <> Uninit) /\
    (exists t,
        store (final (details.instance_norm_grad x None mean variance out_grad
                        epsilon x_grad None (Some a) st)) !! a = Some t
        /\ t <> Uninit).
Proof.
  intros. split; [apply layer_norm_grad_no_scale |].
  split; [apply layer_norm_grad_no_bias |].
  split; [apply layer_norm_grad_store_untouched |].
  split.
  - destruct (instance_norm_grad_no_scale_writes x mean variance out_grad
                epsilon x_grad a st) as [_ [t [H1 [H2 _]]]]. eauto.
  - destruct (instance_norm_grad_no_scale_writes_bias x mean variance out_grad
                epsilon x_grad a st) as [_ [t [H1 H2]]]. eauto.
Qed.

Section Promotion.

Variables (nx ng : string) (dx dg : list Z) (tx tg : DataType).
Hypothesis x_reduced : is_reduced tx = true.

Let x := Input nx dx tx.
Let out_grad := Input ng dg tg.








End Promotion.




Section SlotIndependence.

Lemma request_length addrs req :
  List.length req = List.length addrs ->
  List.length (request addrs req) = List.length addrs.
Proof.
  revert req. induction addrs as [| a addrs IH]; intros [| r req] H;
    simpl in *; try congruence. f_equal. apply IH. congruence.
Qed.

Lemma slot_request addrs req k :
  slot (request addrs req) k
  = match addrs !! k, req !! k with
    | Some a, Some true => Some a
    | _, _ => None
    end.
Proof.
  unfold slot. revert req k.
  induction addrs as [| a addrs IH]; intros [| r req] [| k]; simpl;
    try reflexivity;
    try (destruct (addrs !! k); reflexivity);
    try (destruct r; reflexivity).
  apply IH.
Qed.

Lemma apply_writes_cons w wl slots s :
  apply_writes (w :: wl) slots s
  = apply_writes wl slots
      (match slot slots (fst w) with
       | Some a => <[a := snd w]> s
       | None => s
       end).
Proof. reflexivity. Qed.

(** What a write list leaves in a requested slot: its own value for that
    slot, whatever the other pointers are. *)
Lemma apply_writes_lookup wl addrs req i a s :
  NoDup addrs -> NoDup (map fst wl) ->
  addrs !! i = Some a -> req !! i = Some true ->
  apply_writes wl (request addrs req) s !! a
  = match written wl i with Some v => Some v | None => s !! a end.
Proof.
  intros Haddrs Hwl Ha Hr. revert s Hwl.
  induction wl as [| [k v] wl IH]; intros s Hwl; [reflexivity |].
  rewrite apply_writes_cons. simpl fst; simpl snd.
  inversion Hwl as [| ? ? Hk Hwl']; subst.
  rewrite IH by assumption. simpl.
  destruct (Nat.eqb_spec k i) as [-> | Hki].
  - assert (Hnone : written wl i = None).
    { clear -Hk. induction wl as [| [k' v'] wl IHw]; [reflexivity |].
      simpl in *. destruct (Nat.eqb_spec k' i) as [-> | _];
        [exfalso; apply Hk; now left |].
      apply IHw. intros H. apply Hk. now right. }
    rewrite Hnone, slot_request, Ha, Hr. apply lookup_insert_eq.
  - destruct (written wl i); [reflexivity |].
    rewrite slot_request.
    destruct (addrs !! k) as [a' |] eqn:Ha'; [| reflexivity].
    destruct (req !! k) as [[|] |]; try reflexivity.
    apply lookup_insert_ne. intros ->.
    apply Hki. exact (NoDup_lookup addrs k i a Haddrs Ha' Ha).
Qed.

End SlotIndependence.

Section WriteLists.

Lemma NoDup_two (i j : nat) : i <> j -> NoDup [i; j].
Proof.
  intros H. constructor; [| constructor; [| constructor]].
  - intros Hin. apply list_elem_of_In in Hin. simpl in Hin. intuition.
  - intros Hin. apply list_elem_of_In in Hin. simpl in Hin. intuition.
Qed.

Lemma NoDup_three (i j k : nat) :
  i <> j -> i <> k -> j <> k -> NoDup [i; j; k].
Proof.
  intros H1 H2 H3. constructor; [| apply NoDup_two; assumption].
  intros Hin. apply list_elem_of_In in Hin. simpl in Hin. intuition.
Qed.

(** A rule with two slots, the slot [first] being stored first. *)
Ltac two_slot_writes first second :=
  run_rule; simpl; split_tests;
  (eexists [(first, _); (second, _)]);
  (split; [apply NoDup_two; discriminate |]);
  intros slots st _; unfold apply_writes; simpl;
  destruct (slot slots 0), (slot slots 1); run_rule; simpl; reflexivity.

Lemma divide_grad_writes x y out out_grad axis n :
  has_writes (run_call (call_divide x y out out_grad axis)) n.
Proof.
  unfold has_writes, run_call, details.divide_grad.
  two_slot_writes 1%nat 0%nat.
Qed.

Lemma add_grad_writes x y out_grad axis n :
  has_writes (run_call (call_add x y out_grad axis)) n.
Proof.
  unfold has_writes, run_call, details.add_grad.
  two_slot_writes 1%nat 0%nat.
Qed.

Lemma subtract_grad_writes x y out_grad axis n :
  has_writes (run_call (call_subtract x y out_grad axis)) n.
Proof.
  unfold has_writes, run_call, details.subtract_grad.
  two_slot_writes 1%nat 0%nat.
Qed.

Lemma multiply_grad_writes x y out_grad axis n :
  has_writes (run_call (call_multiply x y out_grad axis)) n.
Proof.
  unfold has_writes, run_call, details.multiply_grad.
  two_slot_writes 0%nat 1%nat.
Qed.

Lemma elementwise_pow_grad_writes x y out_grad n :
  has_writes (run_call (call_elementwise_pow x y out_grad)) n.
Proof.
  unfold has_writes, run_call, details.elementwise_pow_grad.
  two_slot_writes 1%nat 0%nat.
Qed.

Lemma maximum_grad_writes x y out_grad n :
  has_writes (run_call (call_maximum x y out_grad)) n.
Proof.
  unfold has_writes, run_call, details.maximum_grad, details.masked_grad,
    details.reduce_to.
  two_slot_writes 0%nat 1%nat.
Qed.

Lemma minimum_grad_writes x y out_grad n :
  has_writes (run_call (call_minimum x y out_grad)) n.
Proof.
  unfold has_writes, run_call, details.minimum_grad, details.masked_grad,
    details.reduce_to.
  two_slot_writes 0%nat 1%nat.
Qed.

Lemma scatter_grad_writes index updates out_grad overwrite n :
  has_writes (run_call (call_scatter index updates out_grad overwrite)) n.
Proof.
  unfold has_writes, run_call, details.scatter_grad.
  two_slot_writes 0%nat 1%nat.
Qed.

Lemma scatter_nd_add_grad_writes index updates out_grad n :
  has_writes (run_call (call_scatter_nd_add index updates out_grad)) n.
Proof.
  unfold has_writes, run_call, details.scatter_nd_add_grad.
  two_slot_writes 0%nat 1%nat.
Qed.

Ltac by_slot_cases :=
  intros slots st _; unfold apply_writes; simpl;
  destruct (slot slots 0), (slot slots 1), (slot slots 2);
  run_rule; simpl; reflexivity.

Lemma layer_norm_grad_writes x scale bias mean variance out_grad epsilon
  axis n :
  has_writes
    (run_call (call_layer_norm x scale bias mean variance out_grad epsilon axis))
    n.
Proof.
  unfold has_writes, run_call, details.layer_norm_grad.
  destruct scale as [s |], bias as [b |].
  - run_rule; simpl; split_tests.
    all: (eexists [(0%nat, _); (1%nat, _); (2%nat, _)]);
         (split; [apply NoDup_three; discriminate |]); by_slot_cases.
  - run_rule; simpl; split_tests.
    all: (eexists [(0%nat, _); (1%nat, _)]);
         (split; [apply NoDup_two; discriminate |]); by_slot_cases.
  - run_rule; simpl; split_tests.
    all: (eexists [(0%nat, _); (2%nat, _)]);
         (split; [apply NoDup_two; discriminate |]); by_slot_cases.
  - run_rule; simpl; split_tests.
    all: (eexists [(0%nat, _)]);
         (split; [repeat constructor; apply not_elem_of_nil |]); by_slot_cases.
Qed.

Lemma instance_norm_grad_writes x scale saved_mean saved_variance y_grad
  epsilon n :
  has_writes
    (run_call
       (call_instance_norm x scale saved_mean saved_variance y_grad epsilon))
    n.
Proof.
  unfold has_writes, run_call, details.instance_norm_grad.
  destruct scale as [s |]; run_rule; simpl; split_tests.
  all: (eexists [(0%nat, _); (1%nat, _); (2%nat, _)]);
       (split; [apply NoDup_three; discriminate |]); by_slot_cases.
Qed.

Lemma concat_outputs_writes n :
  forall i x_grad_tmp m,
    (i + n <= List.length x_grad_tmp)%nat ->
    exists wl,
      NoDup (map fst wl) /\
      (forall k, In k (map fst wl) -> (i <= k)%nat) /\
      forall slots st,
        List.length slots = m ->
        store (final (details.concat_outputs i n x_grad_tmp slots st))
        = apply_writes wl slots (store st).
Proof.
  induction n as [| n IH]; intros i tmp m Hlen.
  - exists []. split; [constructor |]. split; [intros k [] |]. reflexivity.
  - destruct (le_lt_dec m i) as [Hmi | Hmi].
    + exists []. split; [constructor |]. split; [intros k [] |].
      intros slots st Hm. simpl.
      assert (Hnone : nth_error slots i = None)
        by (apply nth_error_None; lia).
      rewrite Hnone. reflexivity.
    + destruct (nth_error tmp i) as [t |] eqn:Ht;
        [| apply nth_error_None in Ht; lia].
      destruct (IH (S i) tmp m ltac:(lia)) as [wl [Hnd [Hge Hwl]]].
      exists ((i, t) :: wl). split; [| split].
      * simpl. constructor; [| exact Hnd].
        intros Hin. apply list_elem_of_In in Hin. apply Hge in Hin. lia.
      * intros k [<- | Hin]; [simpl; lia |]. apply Hge in Hin. lia.
      * intros slots st Hm. rewrite apply_writes_cons. simpl fst; simpl snd.
        destruct (nth_error slots i) as [p |] eqn:Hp;
          [| apply nth_error_None in Hp; lia].
        unfold slot. rewrite (nth_error_nth slots i None Hp).
        simpl. rewrite Hp, Ht.
        destruct p as [a |].
        -- exact (Hwl slots (mkState (<[a := t]> (store st)) (built st)) Hm).
        -- exact (Hwl slots st Hm).
Qed.

Lemma concat_grad_writes x out_grad axis n :
  has_writes (run_call (call_concat x out_grad axis)) n.
Proof.
  unfold has_writes, run_call, details.concat_grad.
  destruct x as [| x0 x'].
  - exists []. split; [constructor |]. reflexivity.
  - set (sections := map _ (x0 :: x')). set (axis_value := if (0 <? _) then _ else _).
    set (tmp := map (fun i => Op (p_item i)
                                 [Op (p_split sections axis_value) [out_grad]])
                    (seq 0 (List.length sections))).
    destruct (concat_outputs_writes (List.length (x0 :: x')) 0 tmp n)
      as [wl [Hnd [_ Hwl]]].
    { subst tmp sections. rewrite !length_map, length_seq. simpl. lia. }
    exists wl. split; [exact Hnd |].
    intros slots st Hn.
    exact (Hwl slots
             (mkState (store st)
                (built st ++ [Op (p_split sections axis_value) [out_grad]]))
             Hn).
Qed.

(** Every rule with several slots stores a fixed write list. *)
Lemma run_call_writes c n : has_writes (run_call c) n.
Proof.
  destruct c.
  - apply divide_grad_writes.
  - apply add_grad_writes.
  - apply subtract_grad_writes.
  - apply multiply_grad_writes.
  - apply elementwise_pow_grad_writes.
  - apply maximum_grad_writes.
  - apply minimum_grad_writes.
  - apply scatter_grad_writes.
  - apply scatter_nd_add_grad_writes.
  - apply layer_norm_grad_writes.
  - apply instance_norm_grad_writes.
  - apply concat_grad_writes.
Qed.

End WriteLists.

(** C9.  Two calls of a rule with several gradient slots, on the same
    arguments and from the same state, that differ only in which slot
    pointers are null: a slot requested in both holds the same tensor after
    both.  The slots live at pairwise different addresses. *)
Theorem requested_slots_agree :
  forall (c : Call) (addrs : list nat) (req1 req2 : list bool) (st : State)
         (i a : nat),
    NoDup addrs ->
    List.length req1 = List.length addrs ->
    List.length req2 = List.length addrs ->
    addrs !! i = Some a ->
    req1 !! i = Some true ->
    req2 !! i = Some true ->
    store (final (run_call c (request addrs req1) st)) !! a
    = store (final (run_call c (request addrs req2) st)) !! a.
Proof.
  intros c addrs req1 req2 st i a Hnd H1 H2 Ha Hr1 Hr2.
  destruct (run_call_writes c (List.length addrs)) as [wl [Hwl Hrun]].
  rewrite !Hrun by (apply request_length; assumption).
  rewrite !(apply_writes_lookup wl addrs _ i a) by assumption.
  reflexivity.
Qed.

(** [divide_grad] on broadcast operands, with both gradients requested and
    with [dx] alone. *)
Lemma requested_slots_agree_witness :
  let c := call_divide (Input "x" [2; 3] FLOAT32) (Input "y" [3] FLOAT32)
             (Input "out" [2; 3] FLOAT32) (Input "out_grad" [2; 3] FLOAT32)
             (-1) in
  let st := mkState ∅ [] in
  NoDup [3%nat; 5%nat] /\
  store (final (run_call c (request [3%nat; 5%nat] [true; true]) st)) !! 3%nat
  = store (final (run_call c (request [3%nat; 5%nat] [true; false]) st)) !! 3%nat.
Proof.
  intros c st.
  assert (Hnd : NoDup [3%nat; 5%nat]) by (apply NoDup_two; discriminate).
  split; [exact Hnd |].
  exact (requested_slots_agree c [3%nat; 5%nat] [true; true] [true; false] st
           0%nat 3%nat Hnd eq_refl eq_refl eq_refl eq_refl eq_refl).
Defined.

Section ReversePerm.

Lemma distinct_NoDup l : distinct l = true -> NoDup l.
Proof.
  induction l as [| q l IH]; simpl; intros H; [constructor |].
  apply andb_prop in H as [Hq Hl]. constructor; [| auto].
  intros Hin. apply negb_true_iff in Hq.
  assert (existsb (Z.eqb q) l = true); [| congruence].
  apply existsb_exists. exists q. split; [| apply Z.eqb_refl].
  now apply list_elem_of_In.
Qed.

Variable perm : list Z.
Hypothesis perm_valid : is_permutation perm = true.
Hypothesis perm_small : rank perm < 2 ^ 31.

Let n := List.length perm.

Lemma perm_entry i :
  (i < n)%nat ->
  exists p,
    perm !! i = Some p /\
    normalized_perm perm !! i = Some (normalize_axis (rank perm) p) /\
    details.origin_rank perm i = normalize_axis (rank perm) p /\
    0 <= normalize_axis (rank perm) p < rank perm.
Proof.
  intros Hi. destruct (lookup_lt_is_Some_2 perm i Hi) as [p Hp].
  exists p. split; [exact Hp |].
  assert (Hn : normalized_perm perm !! i = Some (normalize_axis (rank perm) p)).
  { unfold normalized_perm.
    change (map (normalize_axis (rank perm)) perm)
      with (normalize_axis (rank perm) <$> perm).
    now rewrite list_lookup_fmap, Hp. }
  split; [exact Hn |].
  assert (Hr : 0 <= normalize_axis (rank perm) p < rank perm).
  { unfold is_permutation in perm_valid.
    apply andb_prop in perm_valid as [Hall _].
    rewrite forallb_forall in Hall.
    specialize (Hall (normalize_axis (rank perm) p)).
    unfold in_range in Hall.
    assert (In (normalize_axis (rank perm) p) (normalized_perm perm)).
    { apply list_elem_of_In, list_elem_of_lookup. eauto. }
    apply Hall in H. lia. }
  split; [| exact Hr].
  unfold details.origin_rank. rewrite (nth_lookup_Some perm i 0 p Hp).
  unfold normalize_axis in *. unfold rank in *. unfold to_size_t.
  destruct (0 <=? p) eqn:E1, (p <? 0) eqn:E2; try lia.
  rewrite Z.mod_small; lia.
Qed.

Lemma perm_injective i j q :
  normalized_perm perm !! i = Some q ->
  normalized_perm perm !! j = Some q -> i = j.
Proof.
  apply NoDup_lookup. apply distinct_NoDup.
  unfold is_permutation in perm_valid.
  now apply andb_prop in perm_valid as [_ H].
Qed.

(** The loop, run over the iterations [idx] from the vector [r0]. *)
Lemma reverse_perm_loop_spec idx :
  forall r0,
    List.length r0 = n ->
    NoDup idx ->
    (forall i, i ∈ idx -> (i < n)%nat) ->
    exists r,
      details.reverse_perm_loop perm idx r0 = Some r /\
      List.length r = n /\
      (forall i, i ∈ idx ->
         r !! Z.to_nat (details.origin_rank perm i) = Some (Z.of_nat i)) /\
      (forall k,
         (forall i, i ∈ idx -> Z.to_nat (details.origin_rank perm i) <> k) ->
         r !! k = r0 !! k).
Proof.
  induction idx as [| i idx IH]; intros r0 Hlen Hnd Hlt.
  - exists r0. repeat split; trivial. intros i Hi. inversion Hi.
  - inversion Hnd as [| ? ? Hi Hnd']; subst.
    destruct (perm_entry i) as [p [Hp [Hnp [Ho Hr]]]];
      [apply Hlt; left |].
    simpl. rewrite Hlen. change (Z.of_nat n) with (rank perm).
    destruct (details.origin_rank perm i <? rank perm) eqn:E;
      [| rewrite Ho in E; lia].
    destruct (IH (<[Z.to_nat (details.origin_rank perm i) := Z.of_nat i]> r0))
      as [r [Hrun [Hl [Hin Hout]]]].
    { now rewrite length_insert. }
    { exact Hnd'. }
    { intros j Hj. apply Hlt. now right. }
    exists r. split; [exact Hrun |]. split; [exact Hl |]. split.
    + intros j Hj. apply elem_of_cons in Hj as [-> | Hj]; [| now apply Hin].
      rewrite Hout.
      * apply list_lookup_insert_eq. rewrite Hlen, Ho.
        pose proof (eq_refl : rank perm = Z.of_nat n) as Hrank.
        rewrite Hrank in Hr |- *. lia.
      * intros j Hj Heq.
        destruct (perm_entry j) as [pj [_ [Hnpj [Hoj Hrj]]]];
          [apply Hlt; now right |].
        rewrite Ho, Hoj in Heq.
        assert (normalize_axis (rank perm) pj = normalize_axis (rank perm) p)
          by lia.
        rewrite H in Hnpj.
        pose proof (perm_injective _ _ _ Hnp Hnpj). subst j. contradiction.
    + intros k Hk. rewrite Hout.
      * apply list_lookup_insert_ne. apply Hk. left.
      * intros j Hj. apply Hk. now right.
Qed.

End ReversePerm.

Section InversePermutation.

Variable perm : list Z.
Hypothesis perm_valid : is_permutation perm = true.
Hypothesis perm_small : rank perm < 2 ^ 31.

Let n := List.length perm.

Lemma to_int32_small z : 0 <= z < 2 ^ 31 -> to_int32 z = z.
Proof. intros H. unfold to_int32. rewrite Z.mod_small; lia. Qed.

(** Every axis is the image of some position (the entries are [n] different
    numbers of [0, n)). *)
Lemma perm_surjective j :
  (j < n)%nat -> exists i, normalized_perm perm !! i = Some (Z.of_nat j).
Proof.
  intros Hj. apply list_elem_of_lookup, list_elem_of_In.
  assert (Hnd : List.NoDup (normalized_perm perm)).
  { apply NoDup_ListNoDup, distinct_NoDup.
    unfold is_permutation in perm_valid.
    now apply andb_prop in perm_valid as [_ H]. }
  apply (NoDup_length_incl Hnd (l' := iota n)).
  - unfold iota, normalized_perm. rewrite !length_map, length_seq. fold n. lia.
  - intros q Hq. unfold is_permutation in perm_valid.
    apply andb_prop in perm_valid as [Hall _].
    rewrite forallb_forall in Hall. apply Hall in Hq.
    unfold in_range, rank in Hq. fold n in Hq.
    unfold iota. apply in_map_iff. exists (Z.to_nat q).
    split; [lia |]. apply in_seq. lia.
  - unfold iota. apply in_map_iff. exists j. split; [reflexivity |].
    apply in_seq. lia.
Qed.

(** [make_reverse_perm] succeeds on a permutation array and yields the
    inverse permutation. *)
Lemma make_reverse_perm_inverse :
  exists r,
    details.make_reverse_perm perm = Some r /\
    List.length r = n /\
    (forall i p, perm !! i = Some p ->
       r !! Z.to_nat (normalize_axis (rank perm) p) = Some (Z.of_nat i)) /\
    (forall j, (j < n)%nat ->
       exists i p, r !! j = Some (Z.of_nat i) /\ perm !! i = Some p /\
                   normalize_axis (rank perm) p = Z.of_nat j).
Proof.
  unfold details.make_reverse_perm.
  rewrite to_int32_small by (unfold rank in *; lia). rewrite Nat2Z.id.
  destruct (reverse_perm_loop_spec perm perm_valid perm_small (seq 0 n) perm)
    as [r [Hrun [Hlen [Hin _]]]].
  { reflexivity. }
  { apply NoDup_ListNoDup, seq_NoDup. }
  { intros i Hi. apply list_elem_of_In, in_seq in Hi. lia. }
  fold n. exists r. split; [exact Hrun |]. split; [exact Hlen |].
  assert (Hfwd : forall i p, perm !! i = Some p ->
            r !! Z.to_nat (normalize_axis (rank perm) p) = Some (Z.of_nat i)).
  { intros i p Hp.
    assert (Hi : (i < n)%nat) by (apply lookup_lt_is_Some; eauto).
    destruct (perm_entry perm perm_valid perm_small i Hi)
      as [p' [Hp' [_ [Ho _]]]].
    rewrite Hp in Hp'. injection Hp' as <-.
    rewrite <- Ho. apply Hin. apply list_elem_of_In, in_seq. lia. }
  split; [exact Hfwd |].
  intros j Hj. destruct (perm_surjective j Hj) as [i Hi].
  assert (Hi' : (i < n)%nat).
  { assert (Hlt : (i < List.length (normalized_perm perm))%nat)
      by (apply lookup_lt_is_Some; eauto).
    unfold normalized_perm in Hlt. now rewrite length_map in Hlt. }
  destruct (perm_entry perm perm_valid perm_small i Hi')
    as [p [Hp [Hnp _]]].
  rewrite Hnp in Hi. injection Hi as Hi.
  exists i, p. split; [| split; trivial].
  specialize (Hfwd i p Hp). rewrite Hi, Nat2Z.id in Hfwd. exact Hfwd.
Qed.

Lemma gather_axes_lookup (q l : list Z) i p :
  q !! i = Some p ->
  gather_axes q l !! i = Some (dim_at l (normalize_axis (rank l) p)).
Proof.
  intros Hp. unfold gather_axes.
  change (map ?f q) with (f <$> q).
  now rewrite list_lookup_fmap, Hp.
Qed.

(** Reading in the order of [perm] and then in the order of its reverse
    gives the list back. *)
Lemma gather_axes_round_trip r (l : list Z) :
  details.make_reverse_perm perm = Some r ->
  List.length l = n ->
  gather_axes r (gather_axes perm l) = l.
Proof.
  intros Hr Hl.
  destruct make_reverse_perm_inverse as [r' [Hr' [Hlen [_ Hinv]]]].
  rewrite Hr in Hr'. injection Hr' as <-.
  assert (Hg : List.length (gather_axes perm l) = n)
    by (unfold gather_axes; now rewrite length_map).
  apply list_eq. intros j.
  destruct (le_lt_dec n j) as [Hge | Hlt].
  - rewrite !lookup_ge_None_2; trivial; [lia |].
    unfold gather_axes. rewrite length_map. lia.
  - destruct (Hinv j Hlt) as [i [p [Hrj [Hp Hn]]]].
    rewrite (gather_axes_lookup r _ j _ Hrj).
    assert (Hi : (i < n)%nat) by (apply lookup_lt_is_Some; eauto).
    unfold normalize_axis at 1.
    destruct (Z.of_nat i <? 0) eqn:E; [lia |].
    unfold dim_at at 1. rewrite Nat2Z.id.
    rewrite (nth_lookup_Some _ i 0 _ (gather_axes_lookup perm l i p Hp)).
    assert (Hrank : rank l = rank perm) by (unfold rank; now rewrite Hl).
    rewrite Hrank, Hn. unfold dim_at. rewrite Nat2Z.id.
    destruct (lookup_lt_is_Some_2 l j ltac:(lia)) as [v Hv].
    now rewrite (nth_lookup_Some l j 0 v Hv).
Qed.

End InversePermutation.

(** C8.  For a permutation array [perm] (negative entries counting from the
    end), the loop of [transpose_grad] computes the inverse permutation
    [r]; the rule transposes [grad_out] by [r]; and transposing an array by
    [perm] and then by [r] gives the array back, shape and elements. *)
Theorem transpose_grad_inverts :
  forall perm : list Z,
    is_permutation perm = true ->
    rank perm < 2 ^ 31 ->
    exists r,
      details.make_reverse_perm perm = Some r /\
      inverse_of perm r /\
      (forall grad_out a st,
          details.transpose_grad grad_out perm (Some a) st
          = Done tt
              (mkState (<[a := Op (p_transpose r) [grad_out]]> (store st))
                       (built st ++ [Op (p_transpose r) [grad_out]]))) /\
      (forall (A : Type) (t t1 t2 : Array A),
          List.length (shape t) = List.length perm ->
          is_transpose perm t t1 ->
          is_transpose r t1 t2 ->
          same_array t2 t).
Proof.
  intros perm Hvalid Hsmall.
  destruct (make_reverse_perm_inverse perm Hvalid Hsmall)
    as [r [Hr [Hlen [Hfwd Hbwd]]]].
  exists r. split; [exact Hr |]. split; [repeat split; assumption |]. split.
  - intros grad_out a st. unfold details.transpose_grad. rewrite Hr.
    reflexivity.
  - intros A t t1 t2 Ht [Hs1 He1] [Hs2 He2].
    assert (Hshape : shape t2 = shape t).
    { rewrite Hs2, Hs1.
      apply (gather_axes_round_trip perm Hvalid Hsmall r _ Hr Ht). }
    split; [exact Hshape |].
    intros idx Hidx. rewrite Hshape in Hidx.
    rewrite <- (gather_axes_round_trip perm Hvalid Hsmall r idx Hr)
      by congruence.
    rewrite He2.
    + rewrite (gather_axes_round_trip perm Hvalid Hsmall r idx Hr)
        by congruence.
      now apply He1.
    + rewrite Hs1. unfold gather_axes. rewrite !length_map. congruence.
Qed.

(** The permutation [(2, 0, -2)] of rank 3, that is [(2, 0, 1)]. *)
Lemma transpose_grad_inverts_witness :
  is_permutation [2; 0; -2] = true /\
  rank [2; 0; -2] < 2 ^ 31 /\
  exists r,
    details.make_reverse_perm [2; 0; -2] = Some r /\
    inverse_of [2; 0; -2] r /\
    (forall grad_out a st,
        details.transpose_grad grad_out [2; 0; -2] (Some a) st
        = Done tt
            (mkState (<[a := Op (p_transpose r) [grad_out]]> (store st))
                     (built st ++ [Op (p_transpose r) [grad_out]]))) /\
    (forall (A : Type) (t t1 t2 : Array A),
        List.length (shape t) = List.length [2; 0; -2] ->
        is_transpose [2; 0; -2] t t1 ->
        is_transpose r t1 t2 ->
        same_array t2 t).
Proof.
  split; [reflexivity |]. split; [reflexivity |].
  exact (transpose_grad_inverts [2; 0; -2] eq_refl eq_refl).
Defined.

Example make_reverse_perm_example :
  details.make_reverse_perm [2; 0; -2] = Some [1; 2; 0].
Proof. reflexivity. Qed.

(** The relation [is_transpose] is inhabited: [transpose_array] is a
    transposition, for every permutation array. *)
Lemma transpose_array_is_transpose {A} (perm : list Z) (t : Array A) :
  is_permutation perm = true ->
  rank perm < 2 ^ 31 ->
  List.length (shape t) = List.length perm ->
  is_transpose perm t (transpose_array perm t).
Proof.
  intros Hvalid Hsmall Ht. unfold transpose_array.
  destruct (make_reverse_perm_inverse perm Hvalid Hsmall) as [r [Hr _]].
  rewrite Hr. split; [reflexivity |]. intros idx Hidx. simpl.
  now rewrite (gather_axes_round_trip perm Hvalid Hsmall r idx Hr) by congruence.
Qed.

Example transpose_array_example :
  let t := mkArray [2; 3; 4] (fun idx => idx) in
  shape (transpose_array [2; 0; -2] t) = [4; 2; 3] /\
  at_ (transpose_array [2; 0; -2] t) [3; 1; 2] = [1; 2; 3] /\
  at_ (transpose_array [1; 2; 0] (transpose_array [2; 0; -2] t)) [1; 2; 3]
    = [1; 2; 3].
Proof. repeat split. Qed.

Section Resolver.

Lemma in_iota n z : In z (iota n) <-> 0 <= z < Z.of_nat n.
Proof.
  unfold iota. rewrite in_map_iff. split.
  - intros [k [<- Hk]]. apply in_seq in Hk. lia.
  - intros H. exists (Z.to_nat z). split; [lia |]. apply in_seq. lia.
Qed.

Lemma existsb_eqb_In z l : existsb (Z.eqb z) l = true <-> In z l.
Proof.
  rewrite existsb_exists. split.
  - intros [x [Hx E]]. apply Z.eqb_eq in E. now subst.
  - intros H. exists z. split; [exact H | apply Z.eqb_refl].
Qed.

Lemma aligned_ok_nth b a :
  List.length a = List.length b ->
  aligned_ok b a = true ->
  forall k, (k < List.length b)%nat ->
    nth k b 0 = nth k a 0 \/ (nth k b 0 = 1 /\ 1 <= nth k a 0).
Proof.
  revert a. induction b as [| y b IH]; intros [| x a] Hlen H k Hk;
    simpl in *; try lia.
  apply andb_prop in H as [Hxy Hrest].
  destruct k as [| k].
  - apply orb_prop in Hxy as [E | E]; [left; lia |].
    apply andb_prop in E as [E1 E2]. right. lia.
  - apply IH; [lia | exact Hrest | lia].
Qed.

Variables A B : list Z.
Hypothesis B_to_A : broadcasts_to B A = true.

Let bat := rank A - rank B.

Lemma rank_le : (List.length B <= List.length A)%nat.
Proof.
  unfold broadcasts_to in B_to_A. apply andb_prop in B_to_A as [H _].
  now apply Nat.leb_le in H.
Qed.

Lemma aligned k :
  (k < List.length B)%nat ->
  nth k B 0 = nth (List.length A - List.length B + k) A 0 \/
  (nth k B 0 = 1 /\ 1 <= nth (List.length A - List.length B + k) A 0).
Proof.
  intros Hk. pose proof rank_le as Hle.
  unfold broadcasts_to in B_to_A. apply andb_prop in B_to_A as [_ H].
  assert (Hlen : List.length (skipn (List.length A - List.length B) A)
                 = List.length B) by (rewrite length_skipn; lia).
  pose proof (aligned_ok_nth B _ Hlen H k Hk) as Hn.
  now rewrite nth_skipn in Hn.
Qed.

(** Membership in the resolved axis set. *)
Lemma reduce_axes_mem ax :
  In ax (reduce_axes A B) <->
  (0 <= ax < bat) \/
  (bat <= ax < rank A /\ dim_at B (ax - bat) = 1 /\ 1 < dim_at A ax).
Proof.
  pose proof rank_le as Hle. unfold reduce_axes. fold bat.
  assert (Hbat : bat = Z.of_nat (List.length A - List.length B))
    by (unfold bat, rank; lia).
  rewrite in_app_iff, in_iota, filter_In, in_map_iff.
  rewrite Z2Nat.id by lia. split.
  - intros [H | [[k [<- Hk]] Hf]]; [now left |].
    apply in_iota in Hk. right.
    apply andb_prop in Hf as [Hf H3]. apply andb_prop in Hf as [_ H2].
    unfold rank. split; [lia |]. split; lia.
  - intros [H | [H1 [H2 H3]]]; [now left |]. right. split.
    + exists (ax - bat). split; [lia |]. apply in_iota. unfold rank in H1. lia.
    + apply andb_true_intro. split; [apply andb_true_intro; split |]; lia.
Qed.

Lemma remove_axes_from_app i d1 d2 axes :
  remove_axes_from i (d1 ++ d2) axes
  = remove_axes_from i d1 axes
    ++ remove_axes_from (i + Z.of_nat (List.length d1)) d2 axes.
Proof.
  revert i. induction d1 as [| x d1 IH]; intros i; simpl.
  - f_equal. lia.
  - rewrite IH. replace (i + 1 + Z.of_nat (List.length d1))
      with (i + Z.pos (Pos.of_succ_nat (List.length d1))) by lia.
    destruct (existsb (Z.eqb i) axes); reflexivity.
Qed.

Lemma remove_axes_from_all i d axes :
  (forall k, (k < List.length d)%nat -> In (i + Z.of_nat k) axes) ->
  remove_axes_from i d axes = [].
Proof.
  revert i. induction d as [| x d IH]; intros i H; [reflexivity |].
  simpl. assert (Hi : existsb (Z.eqb i) axes = true).
  { apply existsb_eqb_In. specialize (H 0%nat). simpl in H.
    rewrite Z.add_0_r in H. apply H. lia. }
  rewrite Hi. apply IH. intros k Hk.
  replace (i + 1 + Z.of_nat k) with (i + Z.of_nat (S k)) by lia.
  apply H. simpl. lia.
Qed.

(** Axes that stay have the extent of the target; axes that go have extent
    1 in the target: the number of elements is kept. *)
Lemma numel_remove_axes_from axes :
  forall d bs i,
    List.length d = List.length bs ->
    (forall k, (k < List.length d)%nat ->
       if existsb (Z.eqb (i + Z.of_nat k)) axes
       then nth k bs 0 = 1 else nth k bs 0 = nth k d 0) ->
    numel (remove_axes_from i d axes) = numel bs.
Proof.
  induction d as [| x d IH]; intros [| y bs] i Hlen H; simpl in *;
    try lia.
  assert (Hrest : numel (remove_axes_from (i + 1) d axes) = numel bs).
  { apply IH; [lia |]. intros k Hk. specialize (H (S k) ltac:(lia)).
    replace (i + 1 + Z.of_nat k) with (i + Z.of_nat (S k)) by lia.
    exact H. }
  specialize (H 0%nat ltac:(lia)). simpl in H. rewrite Z.add_0_r in H.
  unfold numel in *. fold numel in *.
  destruct (existsb (Z.eqb i) axes); simpl; rewrite Hrest; lia.
Qed.

Lemma sum_then_reshape :
  reshape_dims (remove_axes A (reduce_axes A B)) B = Some B.
Proof.
  pose proof rank_le as Hle.
  unfold reshape_dims, remove_axes.
  rewrite <- (firstn_skipn (List.length A - List.length B) A) at 1.
  rewrite remove_axes_from_app, length_firstn.
  rewrite remove_axes_from_all.
  2:{ intros k Hk. rewrite length_firstn in Hk. apply reduce_axes_mem.
      left. unfold bat, rank. lia. }
  simpl app.
  rewrite (numel_remove_axes_from _ _ B); [now rewrite Z.eqb_refl | |].
  - rewrite length_skipn. lia.
  - intros k Hk. rewrite length_skipn in Hk. rewrite nth_skipn.
    assert (Hmin : Init.Nat.min (List.length A - List.length B)
                     (List.length A) = (List.length A - List.length B)%nat)
      by lia.
    rewrite Hmin, Z.add_0_l.
    set (ax := Z.of_nat (List.length A - List.length B) + Z.of_nat k).
    assert (Hax : Z.to_nat ax = (List.length A - List.length B + k)%nat)
      by (unfold ax; lia).
    assert (Hk' : Z.to_nat (ax - bat) = k)
      by (unfold ax, bat, rank; lia).
    destruct (existsb (Z.eqb ax) (reduce_axes A B)) eqn:E.
    + apply existsb_eqb_In, reduce_axes_mem in E.
      destruct E as [E | [_ [E _]]]; [unfold ax, bat, rank in *; lia |].
      unfold dim_at in E. now rewrite Hk' in E.
    + destruct (aligned k ltac:(lia)) as [H | [H1 H2]]; [exact H |].
      destruct (Z.eq_dec (nth (List.length A - List.length B + k) A 0) 1)
        as [E1 | E1]; [congruence |].
      assert (Hin : In ax (reduce_axes A B)).
      { apply reduce_axes_mem. right. unfold dim_at. rewrite Hk', Hax.
        split; [unfold ax, bat, rank; lia |]. split; [exact H1 | lia]. }
      apply existsb_eqb_In in Hin. congruence.
Qed.

Lemma empty_iff_equal : reduce_axes A B = [] <-> A = B.
Proof.
  pose proof rank_le as Hle. split.
  - intros Hnil.
    assert (Hnone : forall ax, ~ In ax (reduce_axes A B))
      by (intros ax; rewrite Hnil; intros []).
    assert (Hlen : List.length A = List.length B).
    { destruct (Nat.eq_dec (List.length A) (List.length B)); trivial.
      exfalso. apply (Hnone 0). apply reduce_axes_mem. left.
      unfold bat, rank. lia. }
    apply nth_ext with (d := 0) (d' := 0); [exact Hlen |].
    intros k Hk. rewrite Hlen in Hk.
    destruct (aligned k Hk) as [H | [H1 H2]];
      rewrite Hlen, Nat.sub_diag in *; simpl in *; [congruence |].
    destruct (Z.eq_dec (nth k A 0) 1) as [E1 | E1]; [congruence |].
    exfalso. apply (Hnone (Z.of_nat k)). apply reduce_axes_mem. right.
    assert (Hbat : bat = 0) by (unfold bat, rank; lia).
    rewrite Hbat, Z.sub_0_r. unfold dim_at, rank. rewrite Nat2Z.id.
    split; [lia |]. split; [exact H1 | lia].
  - intros Heq.
    destruct (reduce_axes A B) as [| ax l] eqn:E; [reflexivity |].
    assert (Hin : In ax (reduce_axes A B)) by (rewrite E; now left).
    apply reduce_axes_mem in Hin. exfalso.
    assert (Hbat : bat = 0) by (unfold bat; rewrite Heq; lia).
    destruct Hin as [H | [_ [H1 H2]]]; [lia |].
    rewrite Hbat, Z.sub_0_r in H1. rewrite Heq in H2. lia.
Qed.

End Resolver.

Section SameRank.

Lemma remove_axes_from_length i d axes :
  (List.length (remove_axes_from i d axes) <= List.length d)%nat.
Proof.
  revert i. induction d as [| x d IH]; intros i; simpl; [lia |].
  specialize (IH (i + 1)).
  destruct (existsb (Z.eqb i) axes); simpl; lia.
Qed.

Lemma remove_axes_from_full i d axes :
  List.length (remove_axes_from i d axes) = List.length d ->
  remove_axes_from i d axes = d /\
  forall k, (k < List.length d)%nat -> ~ In (i + Z.of_nat k) axes.
Proof.
  revert i. induction d as [| x d IH]; intros i H; simpl in *.
  - split; [reflexivity | intros k Hk; lia].
  - pose proof (remove_axes_from_length (i + 1) d axes) as Hle.
    destruct (existsb (Z.eqb i) axes) eqn:E; simpl in H; [lia |].
    destruct (IH (i + 1) ltac:(lia)) as [Hd Hk].
    split; [now rewrite Hd |].
    intros [| k] Hlt Hin.
    + rewrite Z.add_0_r in Hin. apply existsb_eqb_In in Hin. congruence.
    + apply (Hk k ltac:(lia)).
      replace (i + 1 + Z.of_nat k) with (i + Z.of_nat (S k)) by lia.
      exact Hin.
Qed.

Variables A B : list Z.
Hypothesis B_to_A : broadcasts_to B A = true.

(** When the sum over the resolved axes already has the rank of the
    target, it has the shape of the target. *)
Lemma sum_of_same_rank :
  List.length (remove_axes A (reduce_axes A B)) = List.length B ->
  remove_axes A (reduce_axes A B) = B.
Proof.
  pose proof (rank_le A B B_to_A) as Hle. unfold remove_axes.
  set (m := (List.length A - List.length B)%nat).
  set (axes := reduce_axes A B).
  assert (Hsk : List.length (skipn m A) = List.length B)
    by (rewrite length_skipn; unfold m; lia).
  assert (HR : remove_axes_from 0 A axes
               = remove_axes_from (Z.of_nat m) (skipn m A) axes).
  { rewrite <- (firstn_skipn m A) at 1.
    rewrite (remove_axes_from_app A B), length_firstn.
    rewrite (remove_axes_from_all A B).
    - simpl. f_equal. unfold m. lia.
    - intros k Hk. rewrite length_firstn in Hk.
      apply (reduce_axes_mem A B B_to_A). left. unfold rank, m in *. lia. }
  rewrite HR. intros Hlen. rewrite <- Hsk in Hlen.
  destruct (remove_axes_from_full _ _ _ Hlen) as [Heq Hnot].
  rewrite Heq.
  apply nth_ext with (d := 0) (d' := 0); [exact Hsk |].
  intros k Hk. rewrite Hsk in Hk. rewrite nth_skipn.
  destruct (aligned A B B_to_A k Hk) as [H | [H1 H2]];
    fold m in H || fold m in H2; [congruence |].
  destruct (Z.eq_dec (nth (m + k) A 0) 1) as [E1 | E1]; [congruence |].
  exfalso. apply (Hnot k ltac:(lia)).
  apply (reduce_axes_mem A B B_to_A). right.
  unfold dim_at, rank.
  replace (Z.to_nat (Z.of_nat m + Z.of_nat k
                     - (Z.of_nat (List.length A) - Z.of_nat (List.length B))))
    with k by (unfold m; lia).
  replace (Z.to_nat (Z.of_nat m + Z.of_nat k)) with (m + k)%nat by lia.
  split; [unfold m; lia |]. split; [exact H1 | lia].
Qed.

End SameRank.

Section ShortCircuit.

Lemma broadcast_rev_same d : broadcast_rev d d = d.
Proof.
  induction d as [| x d IH]; [reflexivity |]. simpl. rewrite IH.
  destruct (x =? 1) eqn:E; [| reflexivity]. apply Z.eqb_eq in E. now subst.
Qed.

Lemma BroadcastTwoDims_same d : BroadcastTwoDims d d = d.
Proof. unfold BroadcastTwoDims. now rewrite broadcast_rev_same, rev_involutive. Qed.

Lemma resolved_axes_normal A B :
  broadcasts_to B A = true ->
  map (normalize_axis (rank A)) (reduce_axes A B) = reduce_axes A B.
Proof.
  intros H. rewrite <- (map_id (reduce_axes A B)) at 2.
  apply map_ext_in. intros ax Hax.
  apply (reduce_axes_mem A B H) in Hax. unfold normalize_axis.
  destruct (ax <? 0) eqn:E; [| reflexivity].
  pose proof (rank_le A B H). unfold rank in Hax. lia.
Qed.

Lemma aligned_ok_Forall2 :
  forall b a,
    List.length b = List.length a ->
    aligned_ok b a = true ->
    Forall2 (fun y x => y = x \/ (y = 1 /\ 1 <= x)) b a.
Proof.
  induction b as [| y b IH]; intros [| x a] Hlen H; try discriminate Hlen.
  - constructor.
  - simpl in H. apply andb_prop in H as [Hyx Hrest].
    constructor; [| apply IH; [simpl in Hlen; lia | exact Hrest]].
    apply orb_prop in Hyx as [E | E]; [left; lia |].
    apply andb_prop in E as [E1 E2]. right. lia.
Qed.

Lemma Forall2_reversed {X Y} (R : X -> Y -> Prop) l k :
  Forall2 R l k -> Forall2 R (rev l) (rev k).
Proof.
  induction 1 as [| x y l k Hxy Hlk IH]; simpl; [constructor |].
  apply Forall2_app; [exact IH |]. constructor; [exact Hxy | constructor].
Qed.

Lemma broadcast_rev_aligned b s p :
  Forall2 (fun y x => y = x \/ (y = 1 /\ 1 <= x)) b s ->
  broadcast_rev b (s ++ p) = s ++ p /\ broadcast_rev (s ++ p) b = s ++ p.
Proof.
  induction 1 as [| y x b s Hyx Hbs [IH1 IH2]].
  - split; [reflexivity | now destruct p].
  - simpl. rewrite IH1, IH2. split; f_equal.
    + destruct (y =? 1) eqn:E; lia.
    + destruct (x =? 1) eqn:E; lia.
Qed.

(** A shape that broadcasts up to [A] does not change [A] when the two are
    broadcast together, in either order. *)
Lemma BroadcastTwoDims_to A B :
  broadcasts_to B A = true ->
  BroadcastTwoDims B A = A /\ BroadcastTwoDims A B = A.
Proof.
  intros H. unfold broadcasts_to in H. apply andb_prop in H as [Hle Hal].
  apply Nat.leb_le in Hle.
  set (m := (List.length A - List.length B)%nat) in *.
  assert (Hlen : List.length B = List.length (skipn m A))
    by (rewrite length_skipn; unfold m; lia).
  pose proof (Forall2_reversed _ _ _ (aligned_ok_Forall2 _ _ Hlen Hal)) as HF.
  destruct (broadcast_rev_aligned _ _ (rev (firstn m A)) HF) as [H1 H2].
  assert (HA : rev A = rev (skipn m A) ++ rev (firstn m A))
    by (now rewrite <- rev_app_distr, firstn_skipn).
  unfold BroadcastTwoDims.
  rewrite HA, H1, H2, <- HA, rev_involutive. now split.
Qed.

Section Reduced.

Variables A B : list Z.
Hypothesis B_to_A : broadcasts_to B A = true.
Variable u : Tensor.
Hypothesis shape_of_u : dims_of u = A.

Lemma dims_of_sum dt :
  reduce_axes A B <> [] ->
  dims_of (Op (p_sum (reduce_axes A B) dt false) [u])
  = remove_axes A (reduce_axes A B).
Proof.
  intros Hne.
  change (dims_of (Op (p_sum (reduce_axes A B) dt false) [u]))
    with (sum_dims (dims_of u) (reduce_axes A B) false).
  unfold sum_dims. rewrite shape_of_u.
  destruct (reduce_axes A B) as [| ax l] eqn:E; [contradiction |].
  rewrite <- E. now rewrite (resolved_axes_normal A B B_to_A).
Qed.

Lemma reduced_to_pass :
  reduce_axes A B = [] -> reduced_to (reduce_axes A B) u B u.
Proof.
  intros E. split; [| split; [trivial | intros Hne; contradiction]].
  rewrite shape_of_u. now apply (empty_iff_equal A B B_to_A).
Qed.

Lemma reduced_to_reshape dt :
  reduce_axes A B <> [] ->
  reduced_to (reduce_axes A B) u B
    (Op (p_reshape B) [Op (p_sum (reduce_axes A B) dt false) [u]]).
Proof.
  intros Hne. split; [reflexivity |].
  split; [intros E; contradiction |]. intros _. exists dt. cbv zeta.
  split; [| now left].
  rewrite (dims_of_sum dt Hne). apply (sum_then_reshape A B B_to_A).
Qed.

Lemma reduced_to_sum dt :
  reduce_axes A B <> [] ->
  rank (dims_of (Op (p_sum (reduce_axes A B) dt false) [u])) = rank B ->
  reduced_to (reduce_axes A B) u B
    (Op (p_sum (reduce_axes A B) dt false) [u]).
Proof.
  intros Hne Hrank. rewrite (dims_of_sum dt Hne) in Hrank.
  split.
  - rewrite (dims_of_sum dt Hne). apply (sum_of_same_rank A B B_to_A).
    unfold rank in Hrank. lia.
  - split; [intros E; contradiction |]. intros _. exists dt. cbv zeta.
    rewrite (dims_of_sum dt Hne).
    split; [apply (sum_then_reshape A B B_to_A) |].
    right. split; [reflexivity | exact Hrank].
Qed.

End Reduced.

Lemma same_dims_forward X Y A :
  BroadcastTwoDims X Y = A -> X = Y -> A = X /\ A = Y.
Proof. intros H ->. rewrite BroadcastTwoDims_same in H. now split. Qed.

Lemma short_circuits_intro r a out_grad A B u t :
  fault_of r = None ->
  store (final r) !! a = Some t ->
  reduced_to (reduce_axes A B) u B t ->
  dims_of u = A ->
  In u (out_grad :: built (final r)) ->
  short_circuits r a out_grad A B.
Proof. intros H1 H2 H3 H4 H5. split; [exact H1 |]. now exists u, t. Qed.

Lemma empty_of_length (l : list Z) : List.length l = 0%nat -> l = [].
Proof. now destruct l. Qed.

Lemma nonempty_of_length (l : list Z) : List.length l <> 0%nat -> l <> [].
Proof. intros H ->. now apply H. Qed.

End ShortCircuit.

(** The facts about the shapes a binary rule works with, from
    [forward_shape]. *)
Ltac forward_facts HF :=
  let Hxy := fresh "Hxy" in
  let Hyx := fresh "Hyx" in
  let Hbx := fresh "Hbx" in
  let Hby := fresh "Hby" in
  unfold forward_shape in HF;
  apply andb_prop in HF as [HF Hby]; apply andb_prop in HF as [HF Hbx];
  apply andb_prop in HF as [Hxy Hyx];
  apply bool_decide_eq_true in Hxy, Hyx;
  pose proof (BroadcastTwoDims_to _ _ Hbx) as [? ?];
  pose proof (BroadcastTwoDims_to _ _ Hby) as [? ?].

(** The shape of an unreduced gradient. *)
Ltac unreduced_shape :=
  cbn [dims_of];
  repeat first
    [ rewrite BroadcastTwoDims_same
    | match goal with
      | H : BroadcastTwoDims _ _ = _ |- _ => rewrite H
      end ];
  reflexivity.

(** The tests of the tails of a binary rule. *)
Ltac decide_tail :=
  repeat match goal with
         | |- context [dims_eqb ?p ?q] =>
             let Eq := fresh "Eq" in
             destruct (dims_eqb p q) eqn:Eq;
             [apply bool_decide_eq_true in Eq |]; cbv beta iota
         | |- context [(List.length ?l =? 0)%nat] =>
             let E := fresh "E" in
             destruct (Nat.eqb_spec (List.length l) 0) as [E | E];
             [apply empty_of_length in E | apply nonempty_of_length in E];
             cbv beta iota
         | |- context [rank ?p =? rank ?q] =>
             let Er := fresh "Er" in
             destruct (Z.eqb_spec (rank p) (rank q)) as [Er | Er];
             cbv beta iota
         end.

Ltac in_built :=
  first [ left; reflexivity
        | right; repeat (apply in_or_app; first [right; now left | left]) ].

(** The unreduced gradient of [multiply_grad] has the forward shape. *)
Ltac product_shape :=
  repeat match goal with
         | |- context [dims_of (Op (p_bin ?b) [?p; ?q])] =>
             change (dims_of (Op (p_bin b) [p; q]))
               with (BroadcastTwoDims (dims_of p) (dims_of q))
         end;
  repeat match goal with
         | H : BroadcastTwoDims _ _ = _ |- _ => rewrite H
         end.

Ltac same_shape :=
  match goal with
  | Eq : _ = _ |- _ =>
      first [ exact Eq | symmetry; exact Eq
            | match goal with
              | H : BroadcastTwoDims _ _ = _ |- _ =>
                  apply (same_dims_forward _ _ _ H Eq)
              end ]
  end.

Ltac finish_slot :=
  eapply short_circuits_intro;
  [ reflexivity
  | cbv beta iota delta [final store];
    first [ apply lookup_insert_eq
          | rewrite lookup_insert_ne by congruence; apply lookup_insert_eq ]
  | first [ apply reduced_to_reshape;
            [assumption | unreduced_shape | assumption]
          | apply reduced_to_sum;
            [assumption | unreduced_shape | assumption | assumption]
          | apply reduced_to_pass;
            [assumption | unreduced_shape
            | first [ assumption
                    | apply empty_iff_equal; [assumption | same_shape] ] ] ]
  | unreduced_shape
  | in_built ].

Ltac unfold_binary :=
  unfold run_binary, details.add_grad, details.subtract_grad,
    details.multiply_grad, details.divide_grad, details.elementwise_pow_grad,
    details.maximum_grad, details.minimum_grad, details.masked_grad,
    details.reduce_to, get_reduce_dims, get_reduce_dims_from_out.

Lemma binary_dy_short_circuits r x y out out_grad axis other a st :
  other <> Some a ->
  forward_shape (dims_of x) (dims_of y) (dims_of out_grad) = true ->
  short_circuits (run_binary r x y out out_grad axis other (Some a) st)
    a out_grad (dims_of out_grad) (dims_of y).
Proof.
  intros Hne HF. forward_facts HF.
  destruct other as [b |];
    destruct r; unfold_binary; run_rule; product_shape; decide_tail.
  all: finish_slot.
Qed.

Lemma binary_dx_short_circuits r x y out out_grad axis other a st :
  other <> Some a ->
  forward_shape (dims_of x) (dims_of y) (dims_of out_grad) = true ->
  short_circuits (run_binary r x y out out_grad axis (Some a) other st)
    a out_grad (dims_of out_grad) (dims_of x).
Proof.
  intros Hne HF. forward_facts HF.
  destruct other as [b |];
    destruct r; unfold_binary; run_rule; product_shape; decide_tail.
  all: finish_slot.
Qed.

(** C1, as the claim has it, fails, for two reasons.  Shapes are
    broadcast-compatible in both directions, the resolver is not: for
    [A = (1)] and [B = (3)] no axis is resolved although the shapes differ,
    and one element cannot be reshaped to three.  And with the direction
    fixed ([A] is the broadcast of [B] and [A]) an empty axis of [A] is not
    resolved against an extent 1 of [B], the resolver asking for an extent
    greater than 1: for [A = (0)] and [B = (1)] no axis is resolved either,
    and no element cannot be reshaped to one. *)
Lemma reduce_axes_counterexample :
  ~ (forall A B : list Z,
        broadcast_compatible A B = true -> resolves A B) /\
  ~ (forall A B : list Z,
        broadcast_compatible A B = true ->
        BroadcastTwoDims B A = A ->
        resolves A B).
Proof.
  split; intros H.
  - destruct (H [1] [3] eq_refl) as [Hr _]. discriminate Hr.
  - destruct (H [0] [1] eq_refl eq_refl) as [Hr _]. discriminate Hr.
Qed.

(** C1, amended.  When [B] broadcasts up to [A] (rank of [B] at most the rank
    of [A]; aligned at the trailing axis, an extent of [B] is the extent of
    [A], or is 1 where [A] has extent at least 1), summing a tensor of shape
    [A] over [reduce_axes A B] leaves as many elements as [B] has, so the
    reshape to [B] is defined and gives the shape [B]; and the axis set is
    empty exactly when [A = B].  Every binary rule (add, subtract, multiply,
    divide, elementwise_pow, maximum, minimum) relies on this in either
    slot, whatever the other slot pointer is (null, or another address):
    with [A] the forward shape of the operands, [out_grad] of that shape and [B] the shape of the operand
    of the slot, the slot receives the unreduced gradient itself when the
    axis set is empty, and else its sum over exactly [reduce_axes A B],
    reshaped to [B] by a reshape that keeps the number of elements
    ([multiply_grad] leaves the reshape out when the sum already has the
    rank of [B]); either way what the slot holds has the shape [B]. *)
Theorem reduce_axes_resolves :
  forall A B : list Z,
    broadcasts_to B A = true ->
    resolves A B /\
    (forall (r : BinaryRule) (x y out out_grad : Tensor) (axis : Z)
            (other : Ptr) (a : nat) (st : State),
        dims_of out_grad = A ->
        forward_shape (dims_of x) (dims_of y) A = true ->
        other <> Some a ->
        (dims_of y = B ->
         short_circuits
           (run_binary r x y out out_grad axis other (Some a) st)
           a out_grad A B) /\
        (dims_of x = B ->
         short_circuits
           (run_binary r x y out out_grad axis (Some a) other st)
           a out_grad A B)).
Proof.
  intros A B H. split.
  - split; [now apply sum_then_reshape | now apply empty_iff_equal].
  - intros r x y out out_grad axis other a st Hg HF Hne. subst A.
    split; intros HB; subst B.
    + now apply binary_dy_short_circuits.
    + now apply binary_dx_short_circuits.
Qed.

(** [y] of shape (3) divided into [x] of shape (2, 3): axis 0 of the
    gradient is summed for the slot of [y], with the slot of [x] requested
    as well. *)
Lemma reduce_axes_resolves_witness :
  let x := Input "x" [2; 3] FLOAT32 in
  let y := Input "y" [3] FLOAT32 in
  let out := Input "out" [2; 3] FLOAT32 in
  let out_grad := Input "out_grad" [2; 3] FLOAT32 in
  broadcasts_to [3] [2; 3] = true /\
  reduce_axes [2; 3] [3] = [0] /\
  resolves [2; 3] [3] /\
  short_circuits
    (run_binary rule_divide x y out out_grad (-1) (Some 1%nat) (Some 0%nat)
       (mkState ∅ []))
    0%nat out_grad [2; 3] [3].
Proof.
  intros x y out out_grad.
  split; [reflexivity |]. split; [reflexivity |].
  destruct (reduce_axes_resolves [2; 3] [3] eq_refl) as [Hres Hrule].
  split; [exact Hres |].
  assert (Hne : Some 1%nat <> Some 0%nat) by discriminate.
  exact (proj1 (Hrule rule_divide x y out out_grad (-1) (Some 1%nat) 0%nat
                  (mkState ∅ []) eq_refl eq_refl Hne) eq_refl).
Defined.

(** * Further properties of the rules *)

Section AxisNormalization.

Lemma reduced_axes_normalized reduce_all axis n :
  Forall (fun a => - n <= a) axis ->
  details.reduced_axes reduce_all (map (normalize_axis n) axis) n
  = details.reduced_axes reduce_all axis n.
Proof.
  intros H. unfold details.reduced_axes. destruct reduce_all; [reflexivity |].
  rewrite map_map. apply map_ext_in. intros a Ha.
  rewrite Forall_forall in H. apply list_elem_of_In, H in Ha.
  unfold normalize_axis. destruct (a <? 0) eqn:E; [| now rewrite E].
  destruct (a + n <? 0) eqn:E'; [lia | reflexivity].
Qed.

Lemma rank_map {A} (f : A -> A) (l : list A) :
  Z.of_nat (List.length (map f l)) = Z.of_nat (List.length l).
Proof. now rewrite length_map. Qed.

(** X1.  In [sum_grad], [prod_grad] and [max_grad] an axis list with
    negative entries (not below minus the rank) and the list with those
    entries moved up by the rank give the same computation. *)
Theorem reduction_axes_normalized :
  forall (x out out_grad : Tensor) (axis : list Z) (keepdim reduce_all : bool)
         (x_grad : Ptr) (st : State),
    Forall (fun a => - rank (dims_of x) <= a) axis ->
    let axis' := map (normalize_axis (rank (dims_of x))) axis in
    details.sum_grad x out_grad axis keepdim reduce_all x_grad st
    = details.sum_grad x out_grad axis' keepdim reduce_all x_grad st /\
    details.prod_grad x out out_grad axis keepdim reduce_all x_grad st
    = details.prod_grad x out out_grad axis' keepdim reduce_all x_grad st /\
    details.max_grad x out out_grad axis keepdim reduce_all x_grad st
    = details.max_grad x out out_grad axis' keepdim reduce_all x_grad st.
Proof.
  intros x out out_grad axis keepdim reduce_all x_grad st H axis'.
  subst axis'.
  unfold details.sum_grad, details.prod_grad, details.max_grad, rank.
  rewrite !rank_map.
  fold (rank (dims_of x)).
  rewrite !(reduced_axes_normalized _ axis (rank (dims_of x)) H).
  repeat split.
Qed.

Lemma reduction_axes_normalized_witness :
  let x := Input "x" [2; 3; 4] FLOAT32 in
  let g := Input "out_grad" [2; 3] FLOAT32 in
  Forall (fun a => - rank (dims_of x) <= a) [-1] /\
  details.sum_grad x g [-1] false false (Some 0%nat) (mkState ∅ [])
  = details.sum_grad x g [2] false false (Some 0%nat) (mkState ∅ []).
Proof.
  intros x g.
  assert (H : Forall (fun a => - rank (dims_of x) <= a) [-1])
    by (repeat constructor; discriminate).
  split; [exact H |].
  destruct (reduction_axes_normalized x g g [-1] false false (Some 0%nat)
              (mkState ∅ []) H) as [Hs _].
  exact Hs.
Defined.

(** X2.  [softmax_grad] with a negative axis is [softmax_grad] with that
    axis counted from the front. *)
Theorem softmax_grad_negative_axis :
  forall (out out_grad : Tensor) (axis : Z) (x_grad : Ptr) (st : State),
    axis < 0 -> 0 <= rank (dims_of out) + axis ->
    details.softmax_grad out out_grad axis x_grad st
    = details.softmax_grad out out_grad (rank (dims_of out) + axis) x_grad st.
Proof.
  intros out out_grad axis x_grad st Hneg Hpos. unfold details.softmax_grad.
  assert (E1 : (0 <=? axis) = false) by lia.
  assert (E2 : (0 <=? rank (dims_of out) + axis) = true) by lia.
  rewrite E1, E2. reflexivity.
Qed.

Lemma softmax_grad_negative_axis_witness :
  let out := Input "out" [2; 5] FLOAT32 in
  let g := Input "out_grad" [2; 5] FLOAT32 in
  -1 < 0 /\ 0 <= rank (dims_of out) + -1 /\
  details.softmax_grad out g (-1) (Some 0%nat) (mkState ∅ [])
  = details.softmax_grad out g 1 (Some 0%nat) (mkState ∅ []).
Proof.
  intros out g. split; [reflexivity |]. split; [discriminate |].
  exact (softmax_grad_negative_axis out g (-1) (Some 0%nat) (mkState ∅ [])
           eq_refl ltac:(discriminate)).
Defined.

(** X3.  On a zero-rank [out_grad] a requested [softmax_grad] does not sum:
    it builds the single product [out_grad * 0.0], whose element is 0, and
    stores it. *)
Theorem softmax_grad_zero_rank :
  forall (out out_grad : Tensor) (axis : Z) (a : nat) (st : State)
         (env : string -> Q) (g : Q),
    dims_of out_grad = [] ->
    elem env out_grad = Some g ->
    let r := details.softmax_grad out out_grad axis (Some a) st in
    gives env r a 0 /\
    built (final r)
    = built st ++ [Op (p_bin_ts b_multiply (s_lit 0)) [out_grad]].
Proof.
  intros out out_grad axis a st env g Hd Hg r. subst r.
  unfold details.softmax_grad, gives. rewrite Hd. run_rule. simpl.
  split; [| reflexivity]. split; [reflexivity |].
  eexists _, _. split; [apply lookup_insert_eq |]. simpl. rewrite Hg.
  split; [reflexivity |]. ring.
Qed.

Lemma softmax_grad_zero_rank_witness :
  let g := Input "out_grad" [] FLOAT32 in
  let env := fun _ : string => 7%Q in
  dims_of g = [] /\ elem env g = Some 7%Q /\
  gives env (details.softmax_grad (Input "out" [] FLOAT32) g 0 (Some 0%nat)
               (mkState ∅ [])) 0 0.
Proof.
  intros g env. split; [reflexivity |]. split; [reflexivity |].
  destruct (softmax_grad_zero_rank (Input "out" [] FLOAT32) g 0 0%nat
              (mkState ∅ []) env 7%Q eq_refl eq_refl) as [H _].
  exact H.
Defined.

End AxisNormalization.

Section Piecewise.

Local Open Scope Q_scope.

Variables (env : string -> Q).

Lemma Qle_bool_false x y : Qle_bool x y = false <-> y < x.
Proof.
  split; intros H.
  - destruct (Qlt_le_dec y x) as [L | L]; [exact L |].
    apply Qle_bool_iff in L. congruence.
  - destruct (Qle_bool x y) eqn:E; [| reflexivity].
    apply Qle_bool_iff in E. lra.
Qed.

Lemma Qeq_bool_false x y : Qeq_bool x y = false <-> ~ x == y.
Proof.
  split; intros H.
  - intros E. apply Qeq_bool_iff in E. congruence.
  - destruct (Qeq_bool x y) eqn:E; [| reflexivity].
    apply Qeq_bool_iff in E. contradiction.
Qed.

(** X4.  [relu_grad] lets [out_grad] through where the forward output is
    positive and gives 0 elsewhere; [leaky_relu_grad] gives
    [out_grad * negative_slope] elsewhere. *)
Theorem relu_grad_regions :
  forall (out out_grad : Tensor) (negative_slope : Scalar) (a : nat)
         (st : State) (vo g slope : Q),
    value env out = Some vo ->
    value env out_grad = Some g ->
    scalar_value negative_slope = Some slope ->
    stores_value env (details.relu_grad out out_grad (Some a) st) a
      (fun v => (0 < vo -> v == g) /\ (vo <= 0 -> v == 0)) /\
    stores_value env
      (details.leaky_relu_grad out out_grad negative_slope (Some a) st) a
      (fun v => (0 < vo -> v == g) /\ (vo <= 0 -> v == g * slope)).
Proof.
  intros out out_grad negative_slope a st vo g slope Ho Hg Hs.
  unfold stores_value, details.relu_grad, details.leaky_relu_grad.
  run_rule. simpl.
  split; (split; [reflexivity |]); eexists _, _;
    (split; [apply lookup_insert_eq |]); simpl; rewrite Ho, Hg, ?Hs; simpl;
    (split; [reflexivity |]);
    destruct (Qle_bool vo 0) eqn:E; simpl;
    [ apply Qle_bool_iff in E | apply Qle_bool_false in E
    | apply Qle_bool_iff in E | apply Qle_bool_false in E ];
    split; intros H; try lra; reflexivity.
Qed.

(** X5.  [hardswish_grad] has three regions: 0 below -3, [out_grad] above
    3, and [out_grad * (x / 3 + 0.5)] from -3 to 3, both ends included. *)
Theorem hardswish_grad_regions :
  forall (x out_grad : Tensor) (a : nat) (st : State) (vx g : Q),
    value env x = Some vx ->
    value env out_grad = Some g ->
    stores_value env (details.hardswish_grad x out_grad (Some a) st) a
      (fun v => (vx < -3 -> v == 0) /\
                (-3 <= vx /\ vx <= 3 -> v == g * (vx / 3 + 0.5)) /\
                (3 < vx -> v == g)).
Proof.
  intros x out_grad a st vx g Hx Hg.
  unfold stores_value, details.hardswish_grad. run_rule. simpl.
  split; [reflexivity |]. eexists _, _.
  split; [apply lookup_insert_eq |]. simpl. rewrite Hx, Hg. simpl.
  split; [reflexivity |].
  destruct (Qle_bool (-3) vx) eqn:E1; destruct (Qle_bool vx 3) eqn:E2; simpl;
    try apply Qle_bool_iff in E1; try apply Qle_bool_false in E1;
    try apply Qle_bool_iff in E2; try apply Qle_bool_false in E2;
    (split; [| split]); intros H; try lra; try reflexivity.
Qed.

(** X6.  [max_grad] on an input of rank 0 or 1, or with [keepdim]: an
    element equal to the maximum receives the whole [out_grad], every other
    element receives 0.  Tied maxima all receive the whole gradient. *)
Theorem max_grad_ties :
  forall (x out out_grad : Tensor) (axis : list Z) (keepdim reduce_all : bool)
         (a : nat) (st : State) (vx vo g : Q),
    ((rank (dims_of x) =? 0)%Z || (rank (dims_of x) =? 1)%Z || keepdim
     = true)%bool ->
    value env x = Some vx ->
    value env out = Some vo ->
    value env out_grad = Some g ->
    stores_value env
      (details.max_grad x out out_grad axis keepdim reduce_all (Some a) st) a
      (fun v => (vx == vo -> v == g) /\ (~ vx == vo -> v == 0)).
Proof.
  intros x out out_grad axis keepdim reduce_all a st vx vo g Hb Hx Ho Hg.
  unfold stores_value, details.max_grad. rewrite Hb. run_rule. simpl.
  split; [reflexivity |]. eexists _, _.
  split; [apply lookup_insert_eq |]. simpl. rewrite Hx, Ho, Hg. simpl.
  split; [reflexivity |].
  destruct (Qeq_bool vx vo) eqn:E; simpl;
    [apply Qeq_bool_iff in E | apply Qeq_bool_false in E];
    split; intros H; try contradiction; reflexivity.
Qed.

End Piecewise.

Section PiecewiseWitnesses.

Local Open Scope Q_scope.

Let env := fun name : string =>
  if String.eqb name "out_grad" then 5 else 3.

Lemma relu_grad_regions_witness :
  let out := Input "out" [3%Z] FLOAT32 in
  let g := Input "out_grad" [3%Z] FLOAT32 in
  value env out = Some 3 /\ value env g = Some 5 /\
  scalar_value (s_lit 0.1) = Some 0.1 /\
  stores_value env (details.relu_grad out g (Some 0%nat) (mkState ∅ [])) 0
    (fun v => (0 < 3 -> v == 5) /\ (3 <= 0 -> v == 0)).
Proof.
  intros out g. do 3 (split; [reflexivity |]).
  destruct (relu_grad_regions env out g (s_lit 0.1) 0%nat (mkState ∅ [])
              3 5 0.1 eq_refl eq_refl eq_refl) as [H _].
  exact H.
Defined.

(** The kink at [x = 3] belongs to the middle region. *)
Lemma hardswish_grad_regions_witness :
  let x := Input "x" [3%Z] FLOAT32 in
  let g := Input "out_grad" [3%Z] FLOAT32 in
  value env x = Some 3 /\ value env g = Some 5 /\
  stores_value env (details.hardswish_grad x g (Some 0%nat) (mkState ∅ [])) 0
    (fun v => (3 < -3 -> v == 0) /\
              (-3 <= 3 /\ 3 <= 3 -> v == 5 * (3 / 3 + 0.5)) /\
              (3 < 3 -> v == 5)).
Proof.
  intros x g. do 2 (split; [reflexivity |]).
  exact (hardswish_grad_regions env x g 0%nat (mkState ∅ []) 3 5
           eq_refl eq_refl).
Defined.

(** [x = (3, 3, 1)] with maximum 3: at a tied position the gradient is the
    whole [out_grad]. *)
Lemma max_grad_ties_witness :
  let x := Input "x" [3%Z] FLOAT32 in
  let out := Input "out" [] FLOAT32 in
  let g := Input "out_grad" [] FLOAT32 in
  ((rank (dims_of x) =? 0)%Z || (rank (dims_of x) =? 1)%Z || false
   = true)%bool /\
  value env x = Some 3 /\ value env out = Some 3 /\ value env g = Some 5 /\
  stores_value env
    (details.max_grad x out g [] false false (Some 0%nat) (mkState ∅ [])) 0
    (fun v => (3 == 3 -> v == 5) /\ (~ 3 == 3 -> v == 0)).
Proof.
  intros x out g. do 4 (split; [reflexivity |]).
  exact (max_grad_ties env x out g [] false false 0%nat (mkState ∅ []) 3 3 5
           eq_refl eq_refl eq_refl eq_refl).
Defined.

End PiecewiseWitnesses.

(** X7.  The rules that test their slot pointers do nothing when every
    pointer is null: no operation is built and the state is returned as it
    was.  This covers the elementwise binary rules, the index rules with
    two slots, and the guarded rules with one slot. *)
Theorem null_slots_do_nothing :
  forall (x y out out_grad index : Tensor) (axis : Z) (axes shape perm : list Z)
         (flag flag' : bool) (p : Q) (mode : string) (k slope : Scalar)
         (st : State),
    details.divide_grad x y out out_grad axis None None st = Done tt st /\
    details.add_grad x y out_grad axis None None st = Done tt st /\
    details.subtract_grad x y out_grad axis None None st = Done tt st /\
    details.multiply_grad x y out_grad axis None None st = Done tt st /\
    details.elementwise_pow_grad x y out_grad None None st = Done tt st /\
    details.maximum_grad x y out_grad None None st = Done tt st /\
    details.minimum_grad x y out_grad None None st = Done tt st /\
    details.scatter_grad index x out_grad flag None None st = Done tt st /\
    details.scatter_nd_add_grad index x out_grad None None st = Done tt st /\
    details.transpose_grad out_grad perm None st = Done tt st /\
    details.topk_grad x index out_grad k axis flag flag' None st = Done tt st /\
    details.dropout_grad x out_grad p flag mode None st = Done tt st /\
    details.gelu_grad x out_grad flag None st = Done tt st /\
    details.sum_grad x out_grad axes flag flag' None st = Done tt st /\
    details.prod_grad x out out_grad axes flag flag' None st = Done tt st /\
    details.max_grad x out out_grad axes flag flag' None st = Done tt st /\
    details.softmax_grad out out_grad axis None st = Done tt st /\
    details.relu_grad out out_grad None st = Done tt st /\
    details.leaky_relu_grad out out_grad slope None st = Done tt st /\
    details.hardswish_grad x out_grad None st = Done tt st /\
    details.expand_grad x out_grad shape None st = Done tt st /\
    details.reshape_grad x out_grad None st = Done tt st /\
    details.erf_grad x out_grad None st = Done tt st.
Proof. intros. repeat split. Qed.

(** X8.  [layer_norm_grad] is different: with every slot pointer null it
    writes no slot, but it has already built the intermediates all three
    gradients share: four reshapes, the centred input, the inverse standard
    deviation (four operations) and their product, and two casts more when
    [x] is float16 or bfloat16. *)
Theorem layer_norm_grad_null_slots :
  forall (x mean variance out_grad : Tensor) (bias : option Tensor)
         (epsilon : Scalar) (begin_norm_axis : Z) (st : State),
    let r := details.layer_norm_grad x None bias mean variance out_grad
               epsilon begin_norm_axis None None None st in
    fault_of r = None /\
    store (final r) = store st /\
    List.length (built (final r))
    = (List.length (built st)
       + (if is_reduced (dtype_of x) then 12 else 10))%nat.
Proof.
  intros x mean variance out_grad bias epsilon begin_norm_axis st r.
  subst r. unfold details.layer_norm_grad.
  destruct (is_reduced (dtype_of x)); run_rule; simpl;
    (split; [reflexivity |]); (split; [reflexivity |]);
    rewrite !length_app; simpl; lia.
Qed.

Section GatherPermutation.

Lemma NoDup_distinct l : List.NoDup l -> distinct l = true.
Proof.
  induction 1 as [| q l Hq Hl IH]; [reflexivity |]. simpl.
  rewrite IH, andb_true_r. apply negb_true_iff.
  destruct (existsb (Z.eqb q) l) eqn:E; [| reflexivity].
  apply existsb_eqb_In in E. contradiction.
Qed.

Lemma iota_S n : iota (S n) = iota n ++ [Z.of_nat n].
Proof. unfold iota. now rewrite seq_S, map_app. Qed.

Lemma NoDup_iota n : List.NoDup (iota n).
Proof.
  unfold iota. apply List.NoDup_map_NoDup_ForallPairs; [| apply seq_NoDup].
  intros i j _ _ H. lia.
Qed.

Lemma filter_all {A} (f : A -> bool) l :
  (forall x, In x l -> f x = true) -> List.filter f l = l.
Proof.
  induction l as [| x l IH]; intros H; [reflexivity |]. simpl.
  rewrite (H x (or_introl eq_refl)), IH; [reflexivity |].
  intros y Hy. apply H. now right.
Qed.

Lemma length_filter_other n a :
  0 <= a < Z.of_nat n ->
  List.length (List.filter (fun i => negb (i =? a)) (iota n)) = (n - 1)%nat.
Proof.
  induction n as [| n IH]; intros Ha; [lia |].
  rewrite iota_S, List.filter_app, length_app. simpl.
  destruct (Z.eq_dec a (Z.of_nat n)) as [-> | Hne].
  - rewrite Z.eqb_refl. simpl. rewrite filter_all.
    + unfold iota. rewrite length_map, length_seq. lia.
    + intros x Hx. apply in_iota in Hx. apply negb_true_iff. lia.
  - assert (E : (Z.of_nat n =? a) = false) by lia. rewrite E. simpl.
    rewrite IH by lia. lia.
Qed.

Lemma gather_perm_length axis n :
  0 <= axis < n -> rank (gather_perm axis n) = n.
Proof.
  intros H. unfold rank, gather_perm. simpl List.length.
  rewrite length_filter_other by lia. lia.
Qed.

Lemma gather_perm_entries axis n q :
  0 <= axis < n -> In q (gather_perm axis n) -> 0 <= q < n.
Proof.
  intros H [<- | Hq]; [exact H |].
  apply filter_In in Hq as [Hq _]. apply in_iota in Hq. lia.
Qed.

Lemma gather_perm_valid axis n :
  0 <= axis < n -> is_permutation (gather_perm axis n) = true.
Proof.
  intros H. unfold is_permutation, normalized_perm.
  rewrite gather_perm_length by exact H.
  assert (Hid : map (normalize_axis n) (gather_perm axis n)
                = gather_perm axis n).
  { rewrite <- (map_id (gather_perm axis n)) at 2. apply map_ext_in.
    intros q Hq. apply (gather_perm_entries axis n q H) in Hq.
    unfold normalize_axis. destruct (q <? 0) eqn:E; [lia | reflexivity]. }
  rewrite Hid. apply andb_true_intro. split.
  - apply forallb_forall. intros q Hq.
    apply (gather_perm_entries axis n q H) in Hq. unfold in_range. lia.
  - apply NoDup_distinct. unfold gather_perm. constructor.
    + intros Hin. apply filter_In in Hin as [_ Hin].
      rewrite Z.eqb_refl in Hin. discriminate.
    + apply List.NoDup_filter, NoDup_iota.
Qed.

(** X9.  For an axis of the input ([0 <= axis < rank]), the permutation
    [gather_grad] builds (the gathered axis first, the others after it) is a
    permutation array, so the loop that reverses it stores within range and
    yields its inverse, and a requested gradient is computed and stored. *)
Theorem gather_grad_permutation :
  forall (x index out_grad : Tensor) (axis : Z) (a : nat) (st : State),
    0 <= axis < rank (dims_of x) ->
    rank (dims_of x) < 2 ^ 31 ->
    let perm := gather_perm axis (rank (dims_of x)) in
    let r := details.gather_grad x index out_grad axis (Some a) st in
    is_permutation perm = true /\
    (exists rp, details.make_reverse_perm perm = Some rp /\ inverse_of perm rp) /\
    fault_of r = None /\
    is_Some (store (final r) !! a).
Proof.
  intros x index out_grad axis a st Haxis Hsmall perm r.
  assert (Hvalid : is_permutation perm = true)
    by (apply gather_perm_valid; exact Haxis).
  assert (Hrank : rank perm < 2 ^ 31)
    by (unfold perm; rewrite gather_perm_length; assumption).
  destruct (make_reverse_perm_inverse perm Hvalid Hrank)
    as [rp [Hrp [Hl [Hf Hb]]]].
  split; [exact Hvalid |].
  split; [exists rp; split; [exact Hrp | repeat split; assumption] |].
  subst r. unfold details.gather_grad.
  change (axis :: List.filter (fun i => negb (i =? axis))
                    (iota (Z.to_nat (rank (dims_of x)))))
    with perm.
  run_rule. rewrite Hrp. simpl. split_tests; simpl;
    (split; [reflexivity |]); rewrite lookup_insert_eq; eauto.
Qed.

Lemma gather_grad_permutation_witness :
  let x := Input "x" [4; 3; 2] FLOAT32 in
  0 <= 1 < rank (dims_of x) /\ rank (dims_of x) < 2 ^ 31 /\
  gather_perm 1 (rank (dims_of x)) = [1; 0; 2] /\
  is_permutation (gather_perm 1 (rank (dims_of x))) = true /\
  fault_of (details.gather_grad x (Input "index" [2] INT64)
              (Input "out_grad" [4; 2; 2] FLOAT32) 1 (Some 0%nat)
              (mkState ∅ [])) = None.
Proof.
  intros x.
  assert (H1 : 0 <= 1 < rank (dims_of x)) by (split; [discriminate | reflexivity]).
  assert (H2 : rank (dims_of x) < 2 ^ 31) by reflexivity.
  split; [exact H1 |]. split; [exact H2 |]. split; [reflexivity |].
  destruct (gather_grad_permutation x (Input "index" [2] INT64)
              (Input "out_grad" [4; 2; 2] FLOAT32) 1 0%nat (mkState ∅ [])
              H1 H2) as (Hv & _ & Hf & _).
  split; assumption.
Defined.

(** X10.  [gather_grad] does not move a negative axis up by the rank: no
    axis of [0, rank) equals it, so the permutation it builds has
    [rank + 1] entries, one more than the tensors have axes.  The rule then
    either stores out of range while reversing it, or transposes its zero
    tensor by that over-long permutation. *)
Theorem gather_grad_negative_axis :
  forall (x index out_grad : Tensor) (axis : Z) (grad_x : Ptr) (st : State),
    axis < 0 ->
    0 < rank (dims_of x) ->
    let n := rank (dims_of x) in
    let r := details.gather_grad x index out_grad axis grad_x st in
    gather_perm axis n = axis :: iota (Z.to_nat n) /\
    rank (gather_perm axis n) = n + 1 /\
    (fault_of r = Some OutOfRange \/
     In (Op (p_transpose (axis :: iota (Z.to_nat n)))
           [Op (p_full (dims_of x) (s_lit 0) (dtype_of x)) []])
        (built (final r))).
Proof.
  intros x index out_grad axis grad_x st Hneg Hn n r.
  assert (E : gather_perm axis n = axis :: iota (Z.to_nat n)).
  { unfold gather_perm. f_equal. apply filter_all.
    intros q Hq. apply in_iota in Hq. apply negb_true_iff. lia. }
  split; [exact E |].
  split.
  { rewrite E. unfold rank, iota. simpl.
    rewrite length_map, length_seq. unfold n, rank in *. lia. }
  subst r. unfold details.gather_grad.
  change (axis :: List.filter (fun i => negb (i =? axis))
                    (iota (Z.to_nat (rank (dims_of x)))))
    with (gather_perm axis n).
  rewrite E. run_rule.
  destruct (details.make_reverse_perm (axis :: iota (Z.to_nat n)));
    [| left; reflexivity].
  right. destruct st as [s b]. cbn [dims_of].
  assert (Hpos : (0 <? rank (dims_of x)) = true) by lia.
  rewrite Hpos.
  destruct (0 <? rank (dims_of out_grad)); simpl;
    split_tests; destruct grad_x; simpl;
    rewrite ?in_app_iff; simpl; tauto.
Qed.

Lemma gather_grad_negative_axis_witness :
  let x := Input "x" [4; 3; 2] FLOAT32 in
  -1 < 0 /\ 0 < rank (dims_of x) /\
  gather_perm (-1) (rank (dims_of x)) = [-1; 0; 1; 2] /\
  rank (gather_perm (-1) (rank (dims_of x))) = rank (dims_of x) + 1.
Proof.
  intros x.
  destruct (gather_grad_negative_axis x (Input "index" [2] INT64)
              (Input "out_grad" [4; 3; 2] FLOAT32) (-1) (Some 0%nat)
              (mkState ∅ []) eq_refl eq_refl) as (H1 & H2 & _).
  split; [reflexivity |]. split; [reflexivity |].
  split; [exact H1 | exact H2].
Defined.

End GatherPermutation.

Section OutOfRangePermutation.

Variable perm : list Z.
Hypothesis perm_small : rank perm < 2 ^ 31.

Lemma origin_rank_out_of_range i p :
  perm !! i = Some p ->
  is_int32 p = true ->
  p < - rank perm \/ rank perm <= p ->
  rank perm <= details.origin_rank perm i.
Proof.
  intros Hp Hint Hout. unfold details.origin_rank.
  rewrite (nth_lookup_Some perm i 0 p Hp). fold (rank perm).
  unfold is_int32 in Hint. apply andb_prop in Hint as [H1 H2].
  assert (Hr : 0 <= rank perm) by (unfold rank; lia).
  destruct (0 <=? p) eqn:E; [lia |].
  unfold to_size_t.
  replace (p + rank perm) with ((p + rank perm + 2 ^ 64) + (-1) * 2 ^ 64)
    by lia.
  rewrite Z.mod_add by lia. rewrite Z.mod_small; lia.
Qed.

Lemma reverse_perm_loop_out_of_range i p :
  perm !! i = Some p ->
  is_int32 p = true ->
  p < - rank perm \/ rank perm <= p ->
  forall idx r,
    List.length r = List.length perm -> In i idx ->
    details.reverse_perm_loop perm idx r = None.
Proof.
  intros Hp Hint Hout.
  pose proof (origin_rank_out_of_range i p Hp Hint Hout) as Hk.
  induction idx as [| j idx IH]; intros r Hlen Hin; [destruct Hin |].
  simpl. rewrite Hlen. fold (rank perm).
  destruct Hin as [-> | Hin].
  - destruct (details.origin_rank perm i <? rank perm) eqn:E; [lia | reflexivity].
  - destruct (details.origin_rank perm j <? rank perm); [| reflexivity].
    apply IH; [now rewrite length_insert | exact Hin].
Qed.

Lemma origin_rank_in_range i p :
  perm !! i = Some p ->
  - rank perm <= p < rank perm ->
  0 <= details.origin_rank perm i < rank perm.
Proof.
  intros Hp Hin. unfold details.origin_rank.
  rewrite (nth_lookup_Some perm i 0 p Hp). fold (rank perm).
  destruct (0 <=? p) eqn:E; [lia |].
  unfold to_size_t. rewrite Z.mod_small; lia.
Qed.

Lemma reverse_perm_loop_in_range :
  Forall (fun p => - rank perm <= p < rank perm) perm ->
  forall idx r,
    List.length r = List.length perm ->
    (forall i, In i idx -> (i < List.length perm)%nat) ->
    is_Some (details.reverse_perm_loop perm idx r).
Proof.
  intros Hall. induction idx as [| j idx IH]; intros r Hlen Hidx;
    [now eexists |].
  simpl. rewrite Hlen. fold (rank perm).
  destruct (lookup_lt_is_Some_2 perm j (Hidx j (or_introl eq_refl)))
    as [p Hp].
  assert (Hin : - rank perm <= p < rank perm).
  { rewrite Forall_forall in Hall. apply Hall.
    now apply list_elem_of_lookup_2 with j. }
  pose proof (origin_rank_in_range j p Hp Hin) as Hk.
  destruct (details.origin_rank perm j <? rank perm) eqn:E; [| lia].
  apply IH; [now rewrite length_insert |].
  intros i Hi. apply Hidx. now right.
Qed.

End OutOfRangePermutation.

(** X11.  [transpose_grad] does not check its permutation array.  With
    entries that are [int]s and a rank below 2^31, the loop that reverses
    the array stores inside [reverse_perm] at every step exactly when every
    entry lies in [-rank, rank): an entry outside makes one store fall
    outside the vector.  That store is undefined behaviour; what the rule
    does after it is not stated here. *)
Theorem transpose_grad_store_bounds :
  forall (perm : list Z),
    rank perm < 2 ^ 31 ->
    Forall (fun p => is_int32 p = true) perm ->
    (is_Some (details.make_reverse_perm perm) <->
     Forall (fun p => - rank perm <= p < rank perm) perm).
Proof.
  intros perm Hsmall Hint.
  assert (Hloop : details.make_reverse_perm perm
                  = details.reverse_perm_loop perm
                      (seq 0 (List.length perm)) perm).
  { unfold details.make_reverse_perm.
    rewrite (to_int32_small perm) by (unfold rank in *; lia).
    now rewrite Nat2Z.id. }
  rewrite Hloop. split.
  - intros Hsome. apply Forall_forall. intros p Hp.
    apply list_elem_of_lookup_1 in Hp as [i Hi].
    destruct (Z_lt_dec p (- rank perm)) as [Hlo | Hlo];
      [| destruct (Z_le_dec (rank perm) p) as [Hhi | Hhi]; [| lia]];
      exfalso.
    all: rewrite Forall_forall in Hint.
    all: assert (Hp32 : is_int32 p = true)
        by (apply Hint; now apply list_elem_of_lookup_2 with i).
    all: rewrite (reverse_perm_loop_out_of_range perm i p Hi Hp32)
        in Hsome;
      [ now apply is_Some_None in Hsome
      | lia
      | reflexivity
      | apply in_seq; split; [lia |]; simpl;
        apply lookup_lt_is_Some; eauto ].
  - intros Hall. apply (reverse_perm_loop_in_range perm Hsmall Hall);
      [reflexivity |].
    intros i Hi. apply in_seq in Hi. lia.
Qed.

(** The array (0, 3, 1) of rank 3: the entry 3 is outside, and the loop
    leaves the vector. *)
Lemma transpose_grad_store_bounds_witness :
  (is_Some (details.make_reverse_perm [0; 3; 1]) <->
   Forall (fun p => - rank [0; 3; 1] <= p < rank [0; 3; 1]) [0; 3; 1]) /\
  details.make_reverse_perm [0; 3; 1] = None /\
  is_Some (details.make_reverse_perm [1; -3; 2]).
Proof.
  assert (Hsmall : rank [0; 3; 1] < 2 ^ 31) by reflexivity.
  assert (Hint : Forall (fun p => is_int32 p = true) [0; 3; 1])
    by (repeat constructor).
  split; [exact (transpose_grad_store_bounds [0; 3; 1] Hsmall Hint) |].
  split; [reflexivity | now eexists].
Defined.

Section GradientShape.

Variables A B : list Z.
Hypothesis B_to_A : broadcasts_to B A = true.

(** The shape of what the rules with a conditional reshape store: the
    tensor itself when no axis is resolved, else its sum, reshaped when the
    rank is not yet the rank of the target. *)
Lemma reduced_shape (res : Tensor) (t : DataType) :
  dims_of res = A ->
  match reduce_axes A B with
  | [] => dims_of res = B
  | axes =>
      let reduced := Op (p_sum axes (Some t) false) [res] in
      if negb (rank (dims_of reduced) =? rank B)
      then True
      else dims_of reduced = B
  end.
Proof.
  intros Hres.
  destruct (reduce_axes A B) as [| ax l] eqn:E.
  - rewrite Hres. now apply (empty_iff_equal A B B_to_A).
  - cbv zeta.
    change (dims_of (Op (p_sum (ax :: l) (Some t) false) [res]))
      with (remove_axes (dims_of res)
              (map (normalize_axis (rank (dims_of res))) (ax :: l))).
    rewrite Hres. rewrite <- E.
    rewrite (resolved_axes_normal A B B_to_A).
    destruct (rank (remove_axes A (reduce_axes A B)) =? rank B) eqn:Er;
      simpl; [| trivial].
    apply (sum_of_same_rank A B B_to_A). unfold rank in Er. lia.
Qed.

End GradientShape.

(** X12.  The gradients of [multiply_grad] and [expand_grad] have the shape
    of the input they belong to: when that shape broadcasts up to the shape
    of the unreduced gradient, the rule stores the gradient as it is (no
    axis to sum), or its sum over the resolved axes, reshaped unless the
    sum already has the rank, and then the shape, of the input. *)
Theorem reduced_gradient_shape :
  forall (x y out_grad : Tensor) (axis : Z) (shape : list Z) (a : nat)
         (st : State),
    broadcasts_to (dims_of x)
      (BroadcastTwoDims (dims_of out_grad) (dims_of y)) = true ->
    (exists t,
        store (final (details.multiply_grad x y out_grad axis (Some a) None st))
          !! a = Some t /\ dims_of t = dims_of x) /\
    (dims_of out_grad = shape ->
     BroadcastTwoDims (dims_of x) shape = shape ->
     broadcasts_to (dims_of x) shape = true ->
     exists t,
       store (final (details.expand_grad x out_grad shape (Some a) st)) !! a
         = Some t /\ dims_of t = dims_of x).
Proof.
  intros x y out_grad axis shape a st Hb. split.
  - unfold details.multiply_grad, get_reduce_dims_from_out. run_rule.
    change (dims_of (Op (p_bin b_multiply) [out_grad; y]))
      with (BroadcastTwoDims (dims_of out_grad) (dims_of y)).
    set (U := BroadcastTwoDims (dims_of out_grad) (dims_of y)) in *.
    pose proof (reduced_shape U (dims_of x) Hb
                  (Op (p_bin b_multiply) [out_grad; y])
                  (dtype_of (Op (p_bin b_multiply) [out_grad; y]))
                  eq_refl) as Hshape.
    destruct (dims_eqb U (dims_of x)) eqn:Eq.
    + apply bool_decide_eq_true in Eq. simpl.
      eexists. split; [apply lookup_insert_eq | exact Eq].
    + simpl negb. cbv iota.
      destruct (reduce_axes U (dims_of x)) as [| ax l] eqn:E.
      * simpl. eexists. split; [apply lookup_insert_eq | exact Hshape].
      * cbv zeta in Hshape. simpl List.length. cbv iota.
        match type of Hshape with
        | if negb ?c then _ else _ =>
            let b := fresh "b" in
            set (b := c) in Hshape;
            match goal with
            | |- context [if (if ?c' then false else true) then _ else _] =>
                change c' with b
            end;
            destruct b
        end; simpl in Hshape |- *;
          eexists; (split; [apply lookup_insert_eq |]);
          [exact Hshape | reflexivity].
  - intros Hg Hbs Hbx. unfold details.expand_grad, get_reduce_dims,
      get_reduce_dims_from_out. run_rule. rewrite Hbs.
    pose proof (reduced_shape shape (dims_of x) Hbx out_grad (dtype_of x) Hg)
      as Hshape.
    destruct (dims_eqb shape (dims_of x)) eqn:Eq.
    + apply bool_decide_eq_true in Eq. simpl.
      eexists. split; [apply lookup_insert_eq | congruence].
    + simpl negb. cbv iota.
      destruct (reduce_axes shape (dims_of x)) as [| ax l] eqn:E.
      * simpl. eexists. split; [apply lookup_insert_eq | exact Hshape].
      * cbv zeta in Hshape. simpl List.length. cbv iota.
        match type of Hshape with
        | if negb ?c then _ else _ =>
            let b := fresh "b" in
            set (b := c) in Hshape;
            match goal with
            | |- context [if (if ?c' then false else true) then _ else _] =>
                change c' with b
            end;
            destruct b
        end; simpl in Hshape |- *;
          eexists; (split; [apply lookup_insert_eq |]);
          [exact Hshape | reflexivity].
Qed.

(** [x] of shape (3) times [y] of shape (2, 3): the sum over axis 0 already
    has the shape of [x]; [x] of shape (1, 3) expanded to (2, 3): the sum is
    reshaped. *)
Lemma reduced_gradient_shape_witness :
  let x := Input "x" [3] FLOAT32 in
  let y := Input "y" [2; 3] FLOAT32 in
  let g := Input "out_grad" [2; 3] FLOAT32 in
  let x1 := Input "x" [1; 3] FLOAT32 in
  broadcasts_to (dims_of x) (BroadcastTwoDims (dims_of g) (dims_of y)) = true /\
  (exists t,
      store (final (details.multiply_grad x y g (-1) (Some 0%nat) None
                      (mkState ∅ []))) !! 0%nat = Some t /\
      dims_of t = [3]) /\
  (exists t,
      store (final (details.expand_grad x1 g [2; 3] (Some 0%nat)
                      (mkState ∅ []))) !! 0%nat = Some t /\
      dims_of t = [1; 3]).
Proof.
  intros x y g x1. split; [reflexivity |].
  destruct (reduced_gradient_shape x y g (-1) [2; 3] 0%nat (mkState ∅ [])
              eq_refl) as [Hm _].
  destruct (reduced_gradient_shape x1 y g (-1) [2; 3] 0%nat (mkState ∅ [])
              eq_refl) as [_ He].
  split; [exact Hm |].
  exact (He eq_refl eq_refl eq_refl).
Defined.

Section FlattenedShape.

Lemma numel_app a b : numel (a ++ b) = numel a * numel b.
Proof.
  induction a as [| x a IH].
  - unfold numel at 2. simpl. lia.
  - change (numel ((x :: a) ++ b)) with (x * numel (a ++ b)).
    change (numel (x :: a)) with (x * numel a). rewrite IH. lia.
Qed.

Lemma numel_pos d : Forall (fun e => 1 <= e) d -> 1 <= numel d.
Proof.
  induction 1 as [| x d Hx Hd IH]; [unfold numel; simpl; lia |].
  change (numel (x :: d)) with (x * numel d). nia.
Qed.

Variable d : list Z.
Hypothesis d_pos : Forall (fun e => 1 <= e) d.
Hypothesis d_small : numel d < 2 ^ 31.

Lemma numel_window lo m :
  (lo + m <= List.length d)%nat ->
  1 <= numel (firstn m (skipn lo d)) <= numel d.
Proof.
  intros H.
  assert (H1 : Forall (fun e => 1 <= e) (firstn lo d))
    by (apply Forall_take; exact d_pos).
  assert (H2 : Forall (fun e => 1 <= e) (firstn m (skipn lo d)))
    by (apply Forall_take, Forall_drop; exact d_pos).
  assert (H3 : Forall (fun e => 1 <= e) (skipn m (skipn lo d)))
    by (apply Forall_drop, Forall_drop; exact d_pos).
  apply numel_pos in H1, H2, H3.
  assert (E : numel d
              = numel (firstn lo d)
                * (numel (firstn m (skipn lo d))
                   * numel (skipn m (skipn lo d)))).
  { rewrite <- !numel_app. now rewrite !firstn_skipn. }
  rewrite E.
  set (p1 := numel (firstn lo d)) in *.
  set (p2 := numel (firstn m (skipn lo d))) in *.
  set (p3 := numel (skipn m (skipn lo d))) in *.
  assert (p2 <= p2 * p3) by nia.
  assert (p2 * p3 <= p1 * (p2 * p3)) by nia.
  lia.
Qed.

Lemma int_product_window lo m :
  (lo + m <= List.length d)%nat ->
  details.int_product d (Z.of_nat lo) (Z.of_nat lo + Z.of_nat m)
  = numel (firstn m (skipn lo d)).
Proof.
  unfold details.int_product.
  replace (Z.to_nat (Z.of_nat lo + Z.of_nat m - Z.of_nat lo)) with m by lia.
  induction m as [| m IH]; intros H; [reflexivity |].
  rewrite iota_S, map_app, fold_left_app. simpl.
  rewrite IH by lia.
  destruct (lookup_lt_is_Some_2 (skipn lo d) m) as [e He];
    [rewrite length_skipn; lia |].
  rewrite (take_S_r _ _ _ He), numel_app.
  assert (Hd : dim_at d (Z.of_nat lo + Z.of_nat m) = e).
  { unfold dim_at. replace (Z.to_nat (Z.of_nat lo + Z.of_nat m))
      with (lo + m)%nat by lia.
    rewrite lookup_drop in He. now apply nth_lookup_Some. }
  rewrite Hd.
  assert (Hn : numel [e] = e) by (unfold numel; simpl; lia).
  rewrite Hn.
  pose proof (numel_window lo (S m) H) as Hw.
  rewrite (take_S_r _ _ _ He), numel_app, Hn in Hw.
  unfold to_int32. rewrite Z.mod_small; lia.
Qed.

End FlattenedShape.

Section Growth.

Lemma grows_ret {A} (a : A) : grows (ret a).
Proof. intros st. exists []. simpl. now rewrite app_nil_r. Qed.

Lemma grows_fail {A} f : grows (@fail A f).
Proof. intros st. exists []. simpl. now rewrite app_nil_r. Qed.

Lemma grows_prim p args : grows (prim p args).
Proof. intros st. eexists. reflexivity. Qed.

Lemma grows_set_output x p : grows (set_output x p).
Proof. intros st. exists []. destruct p; simpl; now rewrite app_nil_r. Qed.

Lemma grows_bind {A B} (m : M A) (k : A -> M B) :
  grows m -> (forall a, grows (k a)) -> grows (bind m k).
Proof.
  intros Hm Hk st. unfold bind. destruct (Hm st) as [l Hl].
  destruct (m st) as [a st' | f st']; simpl in *.
  - destruct (Hk a st') as [l' Hl']. exists (l ++ l').
    now rewrite Hl', Hl, app_assoc.
  - exists l. exact Hl.
Qed.

Lemma grows_when c body : grows body -> grows (when c body).
Proof. intros H. destruct c; [exact H | apply grows_ret]. Qed.

End Growth.

(** Walk through a rule body, one primitive, test or match at a time. *)
Ltac grows_tac :=
  repeat first
    [ apply grows_ret | apply grows_fail | apply grows_prim
    | apply grows_set_output
    | apply grows_when
    | apply grows_bind
    | match goal with
      | |- forall _ : _ * _, _ => intros [? ?]
      | |- forall _, _ => intro
      | |- grows (if ?c then _ else _) => destruct c
      | |- grows (match ?o with Some _ => _ | None => _ end) => destruct o
      | |- grows (let '(_, _) := ?p in _) => destruct p
      end ].

(** X13.  The two extents [layer_norm_grad] flattens [x] to are the products
    of the extents before and from [begin_norm_axis]; the [int]
    accumulators do not overflow when [x] has fewer than 2^31 elements and
    no empty axis, and then the reshape of [x] to [shape_1, shape_2] keeps
    the number of elements.  This reshape is the first operation the rule
    builds. *)
Theorem layer_norm_grad_flattening :
  forall (x mean variance out_grad : Tensor) (scale bias : option Tensor)
         (epsilon : Scalar) (begin_norm_axis : Z)
         (x_grad scale_grad bias_grad : Ptr) (st : State),
    0 <= begin_norm_axis <= rank (dims_of x) ->
    Forall (fun e => 1 <= e) (dims_of x) ->
    numel (dims_of x) < 2 ^ 31 ->
    let shape_1 := details.int_product (dims_of x) 0 begin_norm_axis in
    let shape_2 :=
      details.int_product (dims_of x) begin_norm_axis (rank (dims_of x)) in
    shape_1 = numel (firstn (Z.to_nat begin_norm_axis) (dims_of x)) /\
    shape_2 = numel (skipn (Z.to_nat begin_norm_axis) (dims_of x)) /\
    reshape_dims (dims_of x) [shape_1; shape_2] = Some [shape_1; shape_2] /\
    In (Op (p_reshape [shape_1; shape_2]) [x])
       (built (final (details.layer_norm_grad x scale bias mean variance
                        out_grad epsilon begin_norm_axis
                        x_grad scale_grad bias_grad st))).
Proof.
  intros x mean variance out_grad scale bias epsilon b x_grad scale_grad
    bias_grad st Hb Hpos Hsmall shape_1 shape_2.
  set (d := dims_of x) in *.
  assert (H1 : shape_1 = numel (firstn (Z.to_nat b) d)).
  { subst shape_1.
    pose proof (int_product_window d Hpos Hsmall 0 (Z.to_nat b)) as H.
    simpl in H. rewrite Z2Nat.id in H by lia.
    apply H. unfold rank in Hb. lia. }
  assert (H2 : shape_2 = numel (skipn (Z.to_nat b) d)).
  { subst shape_2.
    pose proof (int_product_window d Hpos Hsmall (Z.to_nat b)
                  (List.length d - Z.to_nat b)) as H.
    unfold rank in *.
    replace (Z.of_nat (Z.to_nat b) + Z.of_nat (List.length d - Z.to_nat b))
      with (Z.of_nat (List.length d)) in H by lia.
    rewrite Z2Nat.id in H by lia. rewrite H by lia.
    rewrite firstn_all2; [reflexivity | rewrite length_skipn; lia]. }
  split; [exact H1 |]. split; [exact H2 |]. split.
  - unfold reshape_dims.
    assert (E : numel d = numel [shape_1; shape_2]).
    { rewrite <- (firstn_skipn (Z.to_nat b) d) at 1.
      rewrite numel_app, <- H1, <- H2. unfold numel. simpl. lia. }
    rewrite E, Z.eqb_refl. reflexivity.
  - unfold details.layer_norm_grad. fold d. fold shape_1. fold shape_2.
    match goal with
    | |- In ?op (built (final (bind (reshape x ?sh) ?k ?st0))) =>
        assert (Hk : grows (k op)) by
          (unfold by_pass, unary, binary, binary_ts, binary_st, subtract,
             multiply, add, elementwise_pow, cast, reshape, sum, full;
           grows_tac);
        destruct (Hk (mkState (store st0) (built st0 ++ [op]))) as [l Hl];
        assert (Hl' : built (final (bind (reshape x sh) k st0))
                      = (built st0 ++ [op]) ++ l) by exact Hl;
        rewrite Hl'
    end.
    rewrite !in_app_iff. simpl. tauto.
Qed.

Lemma layer_norm_grad_flattening_witness :
  let x := Input "x" [2; 3; 4] FLOAT32 in
  0 <= 1 <= rank (dims_of x) /\
  Forall (fun e => 1 <= e) (dims_of x) /\
  numel (dims_of x) < 2 ^ 31 /\
  details.int_product (dims_of x) 0 1 = 2 /\
  details.int_product (dims_of x) 1 (rank (dims_of x)) = 12 /\
  reshape_dims (dims_of x) [2; 12] = Some [2; 12].
Proof.
  intros x.
  assert (H1 : 0 <= 1 <= rank (dims_of x)) by (split; discriminate).
  assert (H2 : Forall (fun e => 1 <= e) (dims_of x))
    by (repeat constructor; discriminate).
  assert (H3 : numel (dims_of x) < 2 ^ 31) by reflexivity.
  destruct (layer_norm_grad_flattening x x x x None None (s_lit 0) 1
              None None None (mkState ∅ []) H1 H2 H3)
    as (Hs1 & Hs2 & Hr & _).
  split; [exact H1 |]. split; [exact H2 |]. split; [exact H3 |].
  split; [reflexivity |]. split; [reflexivity |]. exact Hr.
Defined.

Section DecreasedAxes.

Variable dec : list Z.

Let marked_at (k : Z) : bool := existsb (Z.eqb k) dec.

Lemma mark_decreased_spec :
  forall (axes shape : list Z),
    Forall (fun a => 0 <= a < Z.of_nat (List.length shape)) axes ->
    exists s,
      details.mark_decreased axes shape = Some s /\
      List.length s = List.length shape /\
      forall k, (k < List.length shape)%nat ->
        nth k s 0 = if existsb (Z.eqb (Z.of_nat k)) axes then 1
                    else nth k shape 0.
Proof.
  induction axes as [| a axes IH]; intros shape Hall.
  - exists shape. repeat split; trivial.
  - inversion Hall as [| ? ? Ha Hrest]; subst. simpl.
    assert (E : (0 <=? a) && (a <? Z.of_nat (List.length shape)) = true)
      by (apply andb_true_intro; split; lia).
    rewrite E.
    destruct (IH (<[Z.to_nat a := 1]> shape)) as [s [Hs [Hl Hn]]].
    { rewrite length_insert. exact Hrest. }
    exists s. split; [exact Hs |]. rewrite length_insert in Hl, Hn.
    split; [exact Hl |]. intros k Hk. rewrite (Hn k Hk).
    destruct (existsb (Z.eqb (Z.of_nat k)) axes) eqn:Ek;
      [now rewrite orb_true_r |].
    rewrite orb_false_r.
    destruct (Z.of_nat k =? a) eqn:Eka.
    + apply Z.eqb_eq in Eka. subst a. rewrite Nat2Z.id.
      apply nth_lookup_Some. now apply list_lookup_insert_eq.
    + rewrite !nth_lookup. rewrite list_lookup_insert_ne; [reflexivity | lia].
Qed.

(** The entries the forward slice dropped are 1: taking them out again
    does not change the number of elements. *)
Lemma numel_remove_ones :
  forall f i0,
    (forall k, (k < List.length f)%nat ->
       marked_at (i0 + Z.of_nat k) = true -> nth k f 0 = 1) ->
    numel (remove_axes_from i0 f dec) = numel f.
Proof.
  induction f as [| e f IH]; intros i0 H; [reflexivity |]. simpl.
  assert (Hrest : numel (remove_axes_from (i0 + 1) f dec) = numel f).
  { apply IH. intros k Hk Hm. apply (H (S k)); [simpl; lia |].
    now replace (i0 + Z.of_nat (S k)) with (i0 + 1 + Z.of_nat k) by lia. }
  change (numel (e :: f)) with (e * numel f).
  destruct (existsb (Z.eqb i0) dec) eqn:E.
  - rewrite Hrest. specialize (H 0%nat ltac:(simpl; lia)). simpl in H.
    rewrite Z.add_0_r in H. rewrite (H E). lia.
  - change (numel (e :: remove_axes_from (i0 + 1) f dec))
      with (e * numel (remove_axes_from (i0 + 1) f dec)).
    now rewrite Hrest.
Qed.

Lemma fill_unmarked_spec out_dims :
  forall s i0 index,
    (forall k, (k < List.length s)%nat ->
       nth k s 0 = if marked_at (i0 + Z.of_nat k) then 1 else -1) ->
    let f := details.fill_unmarked s out_dims index in
    List.length f = List.length s /\
    (forall k, (k < List.length s)%nat ->
       marked_at (i0 + Z.of_nat k) = true -> nth k f 0 = 1) /\
    remove_axes_from i0 f dec
    = map (fun j => dim_at out_dims (index + Z.of_nat j))
          (seq 0 (List.length (remove_axes_from i0 s dec))).
Proof.
  induction s as [| e s IH]; intros i0 index H; [repeat split; intros; simpl in *; lia |].
  assert (He : e = if marked_at i0 then 1 else -1).
  { specialize (H 0%nat ltac:(simpl; lia)). simpl in H.
    now rewrite Z.add_0_r in H. }
  assert (Hs : forall k, (k < List.length s)%nat ->
             nth k s 0 = if marked_at (i0 + 1 + Z.of_nat k) then 1 else -1).
  { intros k Hk. specialize (H (S k) ltac:(simpl; lia)). simpl in H.
    now replace (i0 + 1 + Z.of_nat k) with (i0 + Z.of_nat (S k)) by lia. }
  unfold marked_at in He. simpl.
  destruct (existsb (Z.eqb i0) dec) eqn:E; subst e; simpl.
  - destruct (IH (i0 + 1) index Hs) as [Hl [Hone Hrem]].
    rewrite E. split; [simpl; lia |]. split; [| exact Hrem].
    intros [| k] Hk Hm; [reflexivity |]. apply Hone; [simpl in Hk; lia |].
    now replace (i0 + 1 + Z.of_nat k) with (i0 + Z.of_nat (S k)) by lia.
  - destruct (IH (i0 + 1) (index + 1) Hs) as [Hl [Hone Hrem]].
    rewrite E. split; [simpl; lia |]. split.
    + intros [| k] Hk Hm.
      * simpl in Hm. rewrite Z.add_0_r in Hm. unfold marked_at in Hm.
        congruence.
      * apply Hone; [simpl in Hk; lia |].
        now replace (i0 + 1 + Z.of_nat k) with (i0 + Z.of_nat (S k)) by lia.
    + rewrite Hrem. simpl. rewrite Z.add_0_r. f_equal.
      rewrite <- seq_shift, map_map. apply map_ext. intros j.
      f_equal. lia.
Qed.

(** How many entries stay: all but the decreased ones. *)
Lemma length_remove_axes_from s i0 :
  List.length (remove_axes_from i0 s dec)
  = List.length
      (List.filter (fun k => negb (marked_at k))
         (map (fun j => i0 + Z.of_nat j) (seq 0 (List.length s)))).
Proof.
  revert i0. induction s as [| e s IH]; intros i0; [reflexivity |].
  simpl. rewrite Z.add_0_r. unfold marked_at at 1.
  rewrite <- seq_shift, map_map.
  assert (Hm : map (fun j => i0 + Z.of_nat (S j)) (seq 0 (List.length s))
               = map (fun j => i0 + 1 + Z.of_nat j) (seq 0 (List.length s)))
    by (apply map_ext; intros j; lia).
  rewrite Hm.
  destruct (existsb (Z.eqb i0) dec); simpl; now rewrite IH.
Qed.

Lemma kept_count n :
  List.NoDup dec ->
  Forall (fun a => 0 <= a < Z.of_nat n) dec ->
  List.length (List.filter (fun k => negb (marked_at k)) (iota n))
  = (n - List.length dec)%nat.
Proof.
  intros Hnd Hin.
  pose proof (List.filter_length marked_at (iota n)) as Hsplit.
  assert (Hperm : Permutation (List.filter marked_at (iota n)) dec).
  { apply Stdlib.Sorting.Permutation.NoDup_Permutation;
      [apply List.NoDup_filter, NoDup_iota | exact Hnd |].
    intros a. rewrite filter_In, in_iota. unfold marked_at.
    rewrite existsb_eqb_In. rewrite Forall_forall in Hin. split.
    - tauto.
    - intros Ha. split; [| exact Ha]. apply Hin. now apply list_elem_of_In. }
  apply Permutation_length in Hperm.
  unfold iota in Hsplit at 3. rewrite length_map, length_seq in Hsplit.
  lia.
Qed.

End DecreasedAxes.

Lemma map_nth_all (l : list Z) :
  map (fun j => dim_at l (0 + Z.of_nat j)) (seq 0 (List.length l)) = l.
Proof.
  apply nth_ext with (d := 0) (d' := 0);
    [now rewrite length_map, length_seq |].
  intros k Hk. rewrite length_map, length_seq in Hk.
  rewrite (nth_indep _ 0 (dim_at l (0 + Z.of_nat 0)))
    by (now rewrite length_map, length_seq).
  rewrite (map_nth (fun j => dim_at l (0 + Z.of_nat j))).
  rewrite seq_nth by exact Hk. unfold dim_at. f_equal. lia.
Qed.

(** X14.  The shape [slice_grad] rebuilds for [out_grad] when the forward
    slice dropped axes: for distinct axes within the rebuilt rank, the
    marking loop stores within range, the result has extent 1 on every
    dropped axis, taking the dropped axes out again gives the shape of
    [out_grad] back, and so the reshape of [out_grad] keeps the number of
    elements. *)
Theorem origin_out_shape_round_trip :
  forall (out_dims decrease_axis : list Z),
    List.NoDup decrease_axis ->
    Forall (fun a => 0 <= a < Z.of_nat (List.length out_dims
                                        + List.length decrease_axis))
           decrease_axis ->
    exists s,
      details.origin_out_shape out_dims decrease_axis = Some s /\
      List.length s
      = (List.length out_dims + List.length decrease_axis)%nat /\
      (forall a, In a decrease_axis -> dim_at s a = 1) /\
      remove_axes s decrease_axis = out_dims /\
      reshape_dims out_dims s = Some s.
Proof.
  intros out dec Hnd Hin.
  set (n := (List.length out + List.length dec)%nat) in *.
  unfold details.origin_out_shape. fold n.
  destruct (mark_decreased_spec dec (repeat (-1) n)) as [m [Hm [Hlm Hnm]]].
  { now rewrite repeat_length. }
  rewrite Hm. rewrite repeat_length in Hlm, Hnm.
  assert (Hmark : forall k, (k < List.length m)%nat ->
            nth k m 0 = if existsb (Z.eqb (0 + Z.of_nat k)) dec then 1 else -1).
  { intros k Hk. rewrite Hlm in Hk. rewrite (Hnm k Hk), Z.add_0_l.
    destruct (existsb (Z.eqb (Z.of_nat k)) dec); [reflexivity |].
    now apply nth_repeat_lt. }
  destruct (fill_unmarked_spec dec out m 0 0 Hmark) as [Hlf [Hone Hrem]].
  set (f := details.fill_unmarked m out 0) in *.
  assert (Hkept : List.length (remove_axes_from 0 m dec) = List.length out).
  { rewrite length_remove_axes_from.
    change (map (fun j => 0 + Z.of_nat j) (seq 0 (List.length m)))
      with (iota (List.length m)).
    rewrite Hlm, kept_count by assumption. unfold n. lia. }
  assert (Hback : remove_axes f dec = out).
  { unfold remove_axes. rewrite Hrem, Hkept. apply map_nth_all. }
  exists f. split; [reflexivity |]. split; [lia |]. split; [| split].
  - intros a Ha. rewrite Forall_forall in Hin.
    pose proof (Hin a (proj2 (list_elem_of_In _ _) Ha)) as Hr.
    unfold dim_at. apply Hone; [lia |].
    rewrite Z2Nat.id by lia. simpl. now apply existsb_eqb_In.
  - exact Hback.
  - unfold reshape_dims.
    assert (E : numel f = numel out).
    { transitivity (numel (remove_axes f dec)); [| now rewrite Hback].
      unfold remove_axes. symmetry.
      apply numel_remove_ones. intros k Hk Hmk. apply Hone; [lia | exact Hmk]. }
    rewrite E, Z.eqb_refl. reflexivity.
Qed.

(** A slice of a tensor of rank 3 that dropped axis 1. *)
Lemma origin_out_shape_round_trip_witness :
  List.NoDup [1] /\
  Forall (fun a => 0 <= a < Z.of_nat (List.length [4; 5] + List.length [1]))
         [1] /\
  details.origin_out_shape [4; 5] [1] = Some [4; 1; 5] /\
  exists s,
    details.origin_out_shape [4; 5] [1] = Some s /\
    remove_axes s [1] = [4; 5].
Proof.
  assert (H1 : List.NoDup [1]) by (constructor; [intros [] | constructor]).
  assert (H2 : Forall (fun a => 0 <= a < Z.of_nat (List.length [4; 5]
                                                   + List.length [1])) [1])
    by (repeat constructor; simpl; lia).
  destruct (origin_out_shape_round_trip [4; 5] [1] H1 H2)
    as [s (Hs & _ & _ & Hb & _)].
  split; [exact H1 |]. split; [exact H2 |]. split; [reflexivity |].
  exists s. split; assumption.
Defined.

Section Paddings.

Variables g h : Z -> Z.

Lemma length_pairs n :
  List.length (flat_map (fun i => [g i; h i]) (iota n)) = (2 * n)%nat.
Proof.
  induction n as [| n IH]; [reflexivity |].
  rewrite iota_S, flat_map_app, length_app, IH. simpl. lia.
Qed.

Lemma nth_pairs n i :
  (i < n)%nat ->
  dim_at (flat_map (fun i => [g i; h i]) (iota n)) (2 * Z.of_nat i)
    = g (Z.of_nat i) /\
  dim_at (flat_map (fun i => [g i; h i]) (iota n)) (2 * Z.of_nat i + 1)
    = h (Z.of_nat i).
Proof.
  unfold dim_at.
  replace (Z.to_nat (2 * Z.of_nat i)) with (2 * i)%nat by lia.
  replace (Z.to_nat (2 * Z.of_nat i + 1)) with (2 * i + 1)%nat by lia.
  induction n as [| n IH]; intros Hi; [lia |].
  rewrite iota_S, flat_map_app. simpl flat_map at 2. simpl app at 2.
  destruct (Nat.eq_dec i n) as [-> | Hne].
  - rewrite !app_nth2 by (rewrite length_pairs; lia).
    rewrite length_pairs.
    replace (2 * n - 2 * n)%nat with 0%nat by lia.
    replace (2 * n + 1 - 2 * n)%nat with 1%nat by lia.
    split; reflexivity.
  - rewrite !app_nth1 by (rewrite length_pairs; lia). apply IH. lia.
Qed.

End Paddings.

(** X15.  [pad_grad] undoes the padding of [slice_grad].  The paddings
    [slice_grad] computes put [offsets[i]] elements before and
    [in_dims[i] - out_dims[i] - offsets[i]] after the gradient on axis [i],
    which adds up to the extent of the input; and the window [pad_grad] cuts
    with these paddings from a tensor of the input's shape starts at
    [offsets[i]] and has the extent of the gradient.  The differences fit
    an [int]. *)
Theorem pad_grad_undoes_slice_grad :
  forall (in_dims out_dims offsets : list Z),
    (forall i, (i < List.length in_dims)%nat ->
       is_int32 (dim_at in_dims (Z.of_nat i) - dim_at out_dims (Z.of_nat i)
                 - dim_at offsets (Z.of_nat i)) = true) ->
    let paddings := details.slice_paddings in_dims out_dims offsets in
    List.length paddings = (2 * List.length in_dims)%nat /\
    (forall i, (i < List.length in_dims)%nat ->
       dim_at paddings (2 * Z.of_nat i) + dim_at out_dims (Z.of_nat i)
       + dim_at paddings (2 * Z.of_nat i + 1) = dim_at in_dims (Z.of_nat i)) /\
    details.pad_grad_window (List.length in_dims) in_dims paddings
    = map (fun i => (dim_at offsets i, dim_at offsets i + dim_at out_dims i))
          (iota (List.length in_dims)).
Proof.
  intros in_dims out_dims offsets Hfit paddings.
  assert (Hnarrow : forall i, (i < List.length in_dims)%nat ->
            to_int32 (dim_at in_dims (Z.of_nat i) - dim_at out_dims (Z.of_nat i)
                      - dim_at offsets (Z.of_nat i))
            = dim_at in_dims (Z.of_nat i) - dim_at out_dims (Z.of_nat i)
              - dim_at offsets (Z.of_nat i)).
  { intros i Hi. specialize (Hfit i Hi). unfold is_int32 in Hfit.
    apply andb_prop in Hfit as [H1 H2]. unfold to_int32.
    rewrite Z.mod_small; lia. }
  assert (Hpair : forall i, (i < List.length in_dims)%nat ->
            dim_at paddings (2 * Z.of_nat i) = dim_at offsets (Z.of_nat i) /\
            dim_at paddings (2 * Z.of_nat i + 1)
            = dim_at in_dims (Z.of_nat i) - dim_at out_dims (Z.of_nat i)
              - dim_at offsets (Z.of_nat i)).
  { intros i Hi. subst paddings. unfold details.slice_paddings.
    destruct (nth_pairs (fun i => dim_at offsets i)
                (fun i => to_int32 ((dim_at in_dims i - dim_at out_dims i)
                                    - dim_at offsets i))
                (List.length in_dims) i Hi) as [H1 H2].
    rewrite H1, H2, Hnarrow by exact Hi. split; reflexivity. }
  split; [apply length_pairs |]. split.
  - intros i Hi. destruct (Hpair i Hi) as [H1 H2]. rewrite H1, H2. lia.
  - unfold details.pad_grad_window. apply map_ext_in. intros z Hz.
    apply in_iota in Hz.
    destruct (Hpair (Z.to_nat z) ltac:(lia)) as [H1 H2].
    rewrite Z2Nat.id in H1, H2 by lia. rewrite H1, H2. f_equal. lia.
Qed.

(** A slice [2:5] of an axis of extent 7, then a full axis of extent 3. *)
Lemma pad_grad_undoes_slice_grad_witness :
  details.slice_grad_paddings [7; 3] [3; 3] [0] [2] [] = Some [2; 2; 0; 0] /\
  details.pad_grad_window 2 [7; 3] [2; 2; 0; 0] = [(2, 5); (0, 3)] /\
  details.pad_grad_window 2 [7; 3] (details.slice_paddings [7; 3] [3; 3] [2; 0])
  = map (fun i => (dim_at [2; 0] i, dim_at [2; 0] i + dim_at [3; 3] i))
        (iota 2).
Proof.
  split; [reflexivity |]. split; [reflexivity |].
  assert (Hfit : forall i, (i < List.length [7; 3])%nat ->
            is_int32 (dim_at [7; 3] (Z.of_nat i) - dim_at [3; 3] (Z.of_nat i)
                      - dim_at [2; 0] (Z.of_nat i)) = true).
  { intros [| [| i]] Hi; try reflexivity. simpl in Hi. lia. }
  destruct (pad_grad_undoes_slice_grad [7; 3] [3; 3] [2; 0] Hfit)
    as (_ & _ & H).
  exact H.
Defined.

Section SliceOffsets.

Variable in_dims : list Z.

Lemma dim_at_insert_eq (l : list Z) (a v : Z) :
  0 <= a < Z.of_nat (List.length l) ->
  dim_at (<[Z.to_nat a := v]> l) a = v.
Proof.
  intros Ha. unfold dim_at. apply nth_lookup_Some.
  apply list_lookup_insert_eq. lia.
Qed.

Lemma dim_at_insert_ne (l : list Z) (a j v : Z) :
  0 <= a -> 0 <= j -> j <> a ->
  dim_at (<[Z.to_nat a := v]> l) j = dim_at l j.
Proof.
  intros Ha Hj Hne. unfold dim_at. rewrite !nth_lookup.
  rewrite list_lookup_insert_ne; [reflexivity | lia].
Qed.

Lemma slice_offsets_spec :
  forall (axes starts offsets : list Z),
    Z.of_nat (List.length offsets) < 2 ^ 31 ->
    (List.length axes <= List.length starts)%nat ->
    (forall ax, In ax axes -> 0 <= ax < Z.of_nat (List.length offsets)) ->
    exists offsets',
      details.slice_offsets in_dims axes starts offsets = Some offsets' /\
      List.length offsets' = List.length offsets /\
      (forall j, 0 <= j -> ~ In j axes ->
         dim_at offsets' j = dim_at offsets j) /\
      (forall k, (k < List.length axes)%nat ->
         ~ In (nth k axes 0) (skipn (S k) axes) ->
         dim_at offsets' (nth k axes 0)
         = to_int32
             (Z.max (if nth k starts 0 <? 0
                     then nth k starts 0 + dim_at in_dims (nth k axes 0)
                     else nth k starts 0) 0)).
Proof.
  induction axes as [| ax axes IH]; intros starts offsets Hsmall Hlen Hin.
  - exists offsets. repeat split; trivial. simpl. intros k Hk. lia.
  - destruct starts as [| s starts]; [simpl in Hlen; lia |].
    assert (Hax : 0 <= ax < Z.of_nat (List.length offsets))
      by (apply Hin; now left).
    assert (Hnarrow : to_int32 ax = ax).
    { unfold to_int32. rewrite Z.mod_small; lia. }
    simpl details.slice_offsets. rewrite Hnarrow.
    assert (E : (0 <=? ax) && (ax <? Z.of_nat (List.length offsets)) = true)
      by (apply andb_true_intro; split; lia).
    rewrite E.
    set (v := to_int32 (Z.max (if s <? 0 then s + dim_at in_dims ax else s) 0)).
    destruct (IH starts (<[Z.to_nat ax := v]> offsets))
      as (offsets' & Hrun & Hl & Hother & Hset).
    { now rewrite length_insert. }
    { simpl in Hlen. lia. }
    { intros a Ha. rewrite length_insert. apply Hin. now right. }
    exists offsets'. split; [exact Hrun |].
    rewrite length_insert in Hl. split; [exact Hl |]. split.
    + intros j Hj Hnot.
      rewrite Hother by (try assumption; intros H; apply Hnot; now right).
      apply dim_at_insert_ne; [lia | lia |].
      intros ->. apply Hnot. now left.
    + intros [| k] Hk Hlast.
      * simpl in Hlast |- *.
        rewrite Hother by (try assumption; lia).
        now apply dim_at_insert_eq.
      * simpl in Hlast |- *. apply Hset; [simpl in Hk; lia | exact Hlast].
Qed.

Lemma slice_offsets_bounds :
  forall (axes starts offsets : list Z),
    is_Some (details.slice_offsets in_dims axes starts offsets) <->
    (List.length axes <= List.length starts)%nat /\
    Forall (fun ax => 0 <= to_int32 ax < Z.of_nat (List.length offsets)) axes.
Proof.
  induction axes as [| ax axes IH]; intros starts offsets.
  - simpl. split; [intros _; split; [lia | constructor] | now eexists].
  - destruct starts as [| s starts].
    + simpl. split; [intros H; now apply is_Some_None in H |].
      intros [H _]. lia.
    + simpl details.slice_offsets.
      destruct ((0 <=? to_int32 ax)
                && (to_int32 ax <? Z.of_nat (List.length offsets))) eqn:E.
      * apply andb_prop in E as [E1 E2]. rewrite IH, length_insert.
        simpl List.length. split.
        -- intros [Hl Hall]. split; [lia |]. constructor; [lia | exact Hall].
        -- intros [Hl Hall]. inversion Hall; subst. split; [lia | assumption].
      * split; [intros H; now apply is_Some_None in H |].
        intros [_ Hall]. inversion Hall as [| ? ? Hax _]; subst.
        apply andb_false_iff in E as [E | E]; lia.
Qed.

End SliceOffsets.

(** X16.  The offsets of [slice_grad].  With every axis of [axes] an axis of
    the input and a start for each, the loop stores in range; an axis not
    listed keeps offset 0, and a listed axis (its last entry, if listed more
    than once) gets its start, counted from the end of the axis when
    negative and raised to 0 when still negative, narrowed to [int]. *)
Theorem slice_grad_offsets :
  forall (in_dims axes starts : list Z),
    Z.of_nat (List.length in_dims) < 2 ^ 31 ->
    (List.length axes <= List.length starts)%nat ->
    (forall ax, In ax axes -> 0 <= ax < Z.of_nat (List.length in_dims)) ->
    exists offsets,
      details.slice_offsets in_dims axes starts
        (repeat 0 (List.length in_dims)) = Some offsets /\
      List.length offsets = List.length in_dims /\
      (forall j, 0 <= j -> ~ In j axes -> dim_at offsets j = 0) /\
      (forall k, (k < List.length axes)%nat ->
         ~ In (nth k axes 0) (skipn (S k) axes) ->
         dim_at offsets (nth k axes 0)
         = to_int32
             (Z.max (if nth k starts 0 <? 0
                     then nth k starts 0 + dim_at in_dims (nth k axes 0)
                     else nth k starts 0) 0)).
Proof.
  intros in_dims axes starts Hsmall Hlen Hin.
  destruct (slice_offsets_spec in_dims axes starts
              (repeat 0 (List.length in_dims)))
    as (offsets & Hrun & Hl & Hother & Hset).
  { now rewrite repeat_length. }
  { exact Hlen. }
  { intros ax Hax. rewrite repeat_length. now apply Hin. }
  exists offsets. split; [exact Hrun |].
  rewrite repeat_length in Hl. split; [exact Hl |]. split; [| exact Hset].
  intros j Hj Hnot. rewrite (Hother j Hj Hnot). unfold dim_at.
  destruct (Nat.lt_ge_cases (Z.to_nat j) (List.length in_dims)) as [Hlt | Hge].
  - now apply nth_repeat_lt.
  - apply nth_overflow. now rewrite repeat_length.
Qed.

(** Axis 1 of a 4 x 7 input sliced from -5, that is from 2. *)
Lemma slice_grad_offsets_witness :
  exists offsets,
    details.slice_offsets [4; 7] [1] [-5] (repeat 0 2) = Some offsets /\
    dim_at offsets 0 = 0 /\ dim_at offsets 1 = 2.
Proof.
  assert (Hsmall : Z.of_nat (List.length [4; 7]) < 2 ^ 31) by (simpl; lia).
  assert (Hlen : (List.length [1%Z] <= List.length [(-5)%Z])%nat)
    by (simpl; lia).
  assert (Hin : forall ax, In ax [1] ->
                  0 <= ax < Z.of_nat (List.length [4; 7])).
  { intros ax [<- | []]. simpl. lia. }
  destruct (slice_grad_offsets [4; 7] [1] [-5] Hsmall Hlen Hin)
    as (offsets & Hrun & _ & Hother & Hset).
  exists offsets. split; [exact Hrun |]. split.
  - apply Hother; [lia |]. intros [H | []]. discriminate H.
  - apply (Hset 0%nat); [simpl; lia |]. simpl. tauto.
Defined.

(** X17.  [slice_grad] neither moves a negative axis up by the rank nor
    checks an axis against the rank.  The loop over [axes] stays inside its
    vectors exactly when there is a start for every axis and every axis, as
    an [int], lies in [0, rank): the axis -1 is a store before the
    beginning of [offsets], not a store on the last axis.  Such a store is
    undefined behaviour; what the rule does after it is not stated here. *)
Theorem slice_grad_store_bounds :
  forall (in_dims axes starts : list Z),
    is_Some (details.slice_offsets in_dims axes starts
               (repeat 0 (List.length in_dims))) <->
    (List.length axes <= List.length starts)%nat /\
    Forall (fun ax => 0 <= to_int32 ax < Z.of_nat (List.length in_dims)) axes.
Proof.
  intros in_dims axes starts.
  rewrite slice_offsets_bounds. now rewrite repeat_length.
Qed.

Section Tiling.

Lemma tile_rev_spec :
  forall (d reps : list Z),
    (List.length d <= List.length reps)%nat ->
    List.length (tile_rev d reps) = List.length reps /\
    forall k,
      nth k (tile_rev d reps) 0
      = nth k (d ++ repeat 1 (List.length reps - List.length d)) 0
        * nth k reps 0.
Proof.
  induction d as [| x d IH]; intros reps Hlen.
  - assert (E : tile_rev [] reps = reps) by (destruct reps; reflexivity).
    rewrite E. split; [reflexivity |]. intros k. simpl.
    rewrite Nat.sub_0_r.
    destruct (Nat.lt_ge_cases k (List.length reps)) as [Hlt | Hge].
    + rewrite nth_repeat_lt by exact Hlt. lia.
    + rewrite (nth_overflow reps) by exact Hge. lia.
  - destruct reps as [| r reps]; [simpl in Hlen; lia |].
    destruct (IH reps ltac:(simpl in Hlen; lia)) as [Hl Hn].
    simpl. split; [now rewrite Hl |].
    intros [| k]; [reflexivity | apply Hn].
Qed.

Lemma rev_ones (n : nat) : rev (repeat 1 n) = repeat 1 n.
Proof.
  induction n as [| n IH]; [reflexivity |].
  simpl. rewrite IH. symmetry. apply repeat_cons.
Qed.

Lemma tile_dims_spec :
  forall (d reps : list Z) (i : nat),
    (List.length d <= List.length reps)%nat ->
    (i < List.length reps)%nat ->
    List.length (tile_dims d reps) = List.length reps /\
    nth i (tile_dims d reps) 0
    = nth i (repeat 1 (List.length reps - List.length d) ++ d) 0
      * nth i reps 0.
Proof.
  intros d reps i Hlen Hi. unfold tile_dims.
  destruct (tile_rev_spec (rev d) (rev reps)) as [Hl Hn].
  { now rewrite !length_rev. }
  rewrite length_rev in Hl. rewrite !length_rev in Hn.
  split; [now rewrite length_rev |].
  rewrite rev_nth by lia. rewrite Hl, Hn.
  replace (rev d ++ repeat 1 (List.length reps - List.length d))
    with (rev (repeat 1 (List.length reps - List.length d) ++ d))
    by (now rewrite rev_app_distr, rev_ones).
  assert (Hpad : List.length
                   (repeat 1 (List.length reps - List.length d) ++ d)
                 = List.length reps).
  { rewrite length_app, repeat_length. lia. }
  f_equal.
  - rewrite rev_nth by (rewrite Hpad; lia). rewrite Hpad. f_equal. lia.
  - rewrite rev_nth by lia. f_equal. lia.
Qed.

Lemma sum_repeat (a : Z) (n : nat) :
  fold_right Z.add 0 (repeat a n) = a * Z.of_nat n.
Proof. induction n as [| n IH]; simpl fold_right; [lia | rewrite IH; lia]. Qed.

Lemma numel_ones (n : nat) (d : list Z) : numel (repeat 1 n ++ d) = numel d.
Proof.
  induction n as [| n IH]; [reflexivity |].
  change (numel (repeat 1 (S n) ++ d)) with (1 * numel (repeat 1 n ++ d)).
  rewrite IH. lia.
Qed.

End Tiling.

(** X18.  The sections of [tile_grad].  For an [out_grad] of the shape the
    forward tile gives ([repeat_times] at least as long as the rank of [x],
    every repeat positive, extents that fit an [int]), axis [i] is split
    into [repeat_times[i]] sections that cover it exactly, and each section
    has the extent of [x] on that axis (1 on an axis the tile added in
    front); what is left after the sums has as many elements as [x], as the
    final reshape needs. *)
Theorem tile_grad_sections :
  forall (x_dims repeat_times : list Z) (i : nat),
    (List.length x_dims <= List.length repeat_times)%nat ->
    (i < List.length repeat_times)%nat ->
    0 < nth i repeat_times 0 ->
    let padded :=
      repeat 1 (List.length repeat_times - List.length x_dims) ++ x_dims in
    0 <= nth i padded 0 * nth i repeat_times 0 < 2 ^ 31 ->
    let out_grad_dims := tile_dims x_dims repeat_times in
    exists sections,
      details.tile_section out_grad_dims repeat_times i = Some sections /\
      sections = repeat (nth i padded 0) (Z.to_nat (nth i repeat_times 0)) /\
      fold_right Z.add 0 sections = nth i out_grad_dims 0 /\
      numel padded = numel x_dims.
Proof.
  intros x_dims reps i Hlen Hi Hpos padded Hfit out_grad_dims.
  destruct (tile_dims_spec x_dims reps i Hlen Hi) as [Hl Hn].
  fold padded in Hn. fold out_grad_dims in Hl, Hn.
  assert (Hr : reps !! i = Some (nth i reps 0)).
  { destruct (reps !! i) as [r |] eqn:E.
    - now rewrite (nth_lookup_Some _ _ 0 _ E).
    - apply lookup_ge_None in E. lia. }
  assert (He : map to_int32 out_grad_dims !! i
               = Some (nth i padded 0 * nth i reps 0)).
  { rewrite list_lookup_fmap.
    destruct (out_grad_dims !! i) as [e |] eqn:E.
    - rewrite (nth_lookup_Some _ _ 0 _ E) in Hn. subst e. simpl.
      unfold to_int32. rewrite Z.mod_small by lia. f_equal. lia.
    - apply lookup_ge_None in E. lia. }
  assert (Hq : Z.quot (nth i padded 0 * nth i reps 0) (nth i reps 0)
               = nth i padded 0).
  { apply Z.quot_mul. lia. }
  assert (Hx : 0 <= nth i padded 0 < 2 ^ 31) by nia.
  exists (repeat (nth i padded 0) (Z.to_nat (nth i reps 0))).
  split; [| split; [reflexivity | split]].
  - unfold details.tile_section. rewrite Hr, He.
    destruct (nth i reps 0 <=? 0) eqn:E; [lia |].
    cbv zeta. rewrite Hq. unfold to_int32.
    rewrite Z.mod_small by lia.
    do 2 f_equal. lia.
  - rewrite sum_repeat, Hn. lia.
  - apply numel_ones.
Qed.

(** A 2 x 3 input tiled by (4, 1, 2): [out_grad] is 4 x 2 x 6, and the last
    axis is split into 2 sections of 3. *)
Lemma tile_grad_sections_witness :
  exists sections,
    details.tile_section (tile_dims [2; 3] [4; 1; 2]) [4; 1; 2] 2
    = Some sections /\
    sections = repeat (nth 2 (repeat 1 (3 - 2) ++ [2; 3]) 0)
                 (Z.to_nat (nth 2 [4; 1; 2] 0)) /\
    fold_right Z.add 0 sections = nth 2 (tile_dims [2; 3] [4; 1; 2]) 0 /\
    numel (repeat 1 (3 - 2) ++ [2; 3]) = numel [2; 3].
Proof.
  apply (tile_grad_sections [2; 3] [4; 1; 2] 2); simpl; lia.
Defined.
